(** * Rasterization and overlap of regions (vot/region/raster.py)

    A shallow embedding of the numeric kernels of [raster.py] and of the
    two entry points [calculate_overlap] and [calculate_overlaps].

    Conventions of the embedding.
    - Python integers are [Z].  Coordinates of rectangles and polygons are
      the values after [np.round] in [_infer_meta], hence integers too.
      The source keeps them in float32 arrays: it adds the items of a
      rectangle in float32 and turns the bounds of a polygon into int64.
      The integer arithmetic of the embedding is that arithmetic as long
      as the values stay inside the 24 bit significand of float32
      ([f32_exact]); statements that rest on the sums of a rectangle or
      on the bounds of a polygon carry that condition.
    - A 2-D numpy array is a shape together with its items; every read and
      write is checked against the shape and raises [IndexError] outside
      it (Numba would read or write foreign memory there).
    - A 1-D numpy array is a list with checked lookup and update.
    - Code that can raise lives in the error monad [M].
    - The value [float(intersection) / float(union_)] is the rational
      number intersection / union_. *)

From Stdlib Require Import ZArith QArith Lia List Bool.
From stdpp Require Import base list.
Import ListNotations.

Local Open Scope Z_scope.

(** ** The error monad *)

Inductive exn : Type :=
| IndexError        (* an array access outside the array *)
| ValueError        (* np.zeros with a negative dimension *)
| RegionException   (* raised by calculate_overlaps *)
| StepBudget.       (* a while loop used up the steps granted to it *)

Definition M (A : Type) : Type := (exn + A)%type.

Definition ret {A} (a : A) : M A := inr a.
Definition raise {A} (e : exn) : M A := inl e.
Definition bind {A B} (m : M A) (k : A -> M B) : M B :=
  match m with
  | inl e => inl e
  | inr a => k a
  end.

Notation "'let*' x ':=' m 'in' k" := (bind m (fun x => k))
  (at level 10, x pattern, m at level 100, k at level 200).

(** [for i in range(lo, hi): s = body(i, s)] *)
Fixpoint for_loop {S} (n : nat) (i : Z) (body : Z -> S -> M S) (s : S) : M S :=
  match n with
  | O => ret s
  | Datatypes.S n' => let* s' := body i s in for_loop n' (i + 1) body s'
  end.

Definition for_range {S} (lo hi : Z) (body : Z -> S -> M S) (s : S) : M S :=
  for_loop (Z.to_nat (hi - lo)) lo body s.

(** ** Arrays *)

(** uint8 storage: a value written into a [dtype=np.uint8] array wraps. *)
Definition to_uint8 (v : Z) : Z := v mod 256.

Record ndarray : Type := mk_ndarray {
  shape0 : Z;               (* number of rows    *)
  shape1 : Z;               (* number of columns *)
  item : Z -> Z -> Z        (* item r c, meaningful inside the shape *)
}.

Definition in_shape (m : ndarray) (i j : Z) : bool :=
  (0 <=? i) && (i <? shape0 m) && (0 <=? j) && (j <? shape1 m).

(** [np.zeros((h, w), dtype=np.uint8)] *)
Definition np_zeros (h w : Z) : M ndarray :=
  if (0 <=? h) && (0 <=? w) then ret (mk_ndarray h w (fun _ _ => 0))
  else raise ValueError.

(** [m[i, j]] *)
Definition getitem (m : ndarray) (i j : Z) : M Z :=
  if in_shape m i j then ret (item m i j) else raise IndexError.

(** [m[i, j] = v] for a uint8 array [m] *)
Definition setitem (m : ndarray) (i j v : Z) : M ndarray :=
  if in_shape m i j then
    ret (mk_ndarray (shape0 m) (shape1 m)
           (fun r c => if (r =? i) && (c =? j) then to_uint8 v else item m r c))
  else raise IndexError.

(** Python's normalisation of a slice bound [i] for a dimension of
    length [n]: a negative bound counts from the end, and the result is
    clamped to [0, n]. *)
Definition slice_index (n i : Z) : Z :=
  if i <? 0 then Z.max 0 (i + n) else Z.min i n.

(** [m[r0:r1, c0:c1] = v]; slices never raise. *)
Definition setslice (m : ndarray) (r0 r1 c0 c1 v : Z) : ndarray :=
  let a0 := slice_index (shape0 m) r0 in
  let a1 := slice_index (shape0 m) r1 in
  let b0 := slice_index (shape1 m) c0 in
  let b1 := slice_index (shape1 m) c1 in
  mk_ndarray (shape0 m) (shape1 m)
    (fun r c =>
       if (a0 <=? r) && (r <? a1) && (b0 <=? c) && (c <? b1)
       then to_uint8 v else item m r c).

(** [m.ravel()[i]] and [m.ravel().size] for a C-contiguous array *)
Definition ravel_size (m : ndarray) : Z := shape0 m * shape1 m.
Definition ravel_get (m : ndarray) (i : Z) : M Z :=
  if (0 <=? i) && (i <? ravel_size m)
  then ret (item m (i / shape1 m) (i mod shape1 m))
  else raise IndexError.

(** An array given by its rows, for writing down concrete masks. *)
Definition of_rows (rows : list (list Z)) : ndarray :=
  mk_ndarray (Z.of_nat (length rows))
             (Z.of_nat (length (nth 0%nat rows [])))
             (fun r c => nth (Z.to_nat c) (nth (Z.to_nat r) rows []) 0).

(** The rows of an array, for reading off computed rasters. *)
Definition to_rows (m : ndarray) : list (list Z) :=
  map (fun r => map (fun c => item m (Z.of_nat r) (Z.of_nat c))
                    (seq 0 (Z.to_nat (shape1 m))))
      (seq 0 (Z.to_nat (shape0 m))).

(** 1-D arrays *)
Definition get1 {A} (l : list A) (i : Z) : M A :=
  if 0 <=? i then
    match l !! Z.to_nat i with
    | Some v => ret v
    | None => raise IndexError
    end
  else raise IndexError.

Definition set1 {A} (l : list A) (i : Z) (v : A) : M (list A) :=
  if (0 <=? i) && (i <? Z.of_nat (length l)) then ret (<[Z.to_nat i := v]> l)
  else raise IndexError.

(** ** Bounds *)

(** (left, top, right, bottom), inclusive *)
Definition Bounds : Type := (Z * Z * Z * Z)%type.

Definition ii32_max : Z := 2147483647.
Definition ii32_min : Z := -2147483648.

(** [mask_bounds]: the scan keeps (top, bottom, left, right). *)
Definition mask_bounds (mask : ndarray) : M Bounds :=
  let* (top, bottom, left_, right_) :=
    for_range 0 (shape0 mask) (fun i st =>
      for_range 0 (shape1 mask) (fun j st =>
        let '(top, bottom, left_, right_) := st in
        let* v := getitem mask i j in
        if negb (v =? 0) then
          ret (Z.min top i, Z.max bottom i, Z.min left_ j, Z.max right_ j)
        else ret st) st)
      (ii32_max, ii32_min, ii32_max, ii32_min) in
  if top =? ii32_max then ret (0, 0, 0, 0)
  else ret (left_, top, right_, bottom).

(** ** Rasterization of a rectangle *)

(** [data] is the 4x1 array (x, y, width, height). *)
Definition rasterize_rectangle (data : Z * Z * Z * Z) (bounds : Bounds) : M ndarray :=
  let '(x, y, w, h) := data in
  let '(b0, b1, b2, b3) := bounds in
  let width := b2 - b0 + 1 in
  let height := b3 - b1 + 1 in
  let* mask := np_zeros height width in
  if (x >? b2) || (x + w - 1 <? b0) || (y >? b3) || (y + h - 1 <? b1) then
    ret mask
  else
    let left_ := Z.max 0 (x - b0) in
    let top := Z.max 0 (y - b1) in
    let right_ := Z.min b2 (x + w - 1 - b0) in
    let bottom := Z.min b3 (y + h - 1 - b1) in
    ret (setslice mask top (bottom + 1) left_ (right_ + 1) 1).

(** ** Copying a mask into a window *)

Definition copy_mask (mask : ndarray) (offset : Z * Z) (bounds : Bounds) : M ndarray :=
  let '(o0, o1) := offset in
  let '(b0, b1, b2, b3) := bounds in
  let tx := Z.max o0 b0 in
  let ty := Z.max o1 b1 in
  let ox := tx - b0 in
  let oy := ty - b1 in
  let gx := tx - o0 in
  let gy := ty - o1 in
  let tw := Z.min (b2 + 1) (o0 + shape1 mask) - tx in
  let th := Z.min (b3 + 1) (o1 + shape0 mask) - ty in
  let* copy := np_zeros (b3 - b1 + 1) (b2 - b0 + 1) in
  for_range 0 th (fun i copy =>
    for_range 0 tw (fun j copy =>
      let* v := getitem mask (i + gy) (j + gx) in
      setitem copy (i + oy) (j + ox) v) copy) copy.

(** ** Rasterization of a polygon *)

(** The test of the scanline loop: does the edge between a vertex at
    height [yi] and a vertex at height [yj] meet the row [pixelY]? *)
Definition crossing (yi yj pixelY : Z) : bool :=
  ((yi <=? pixelY) && (yj >? pixelY)) ||
  ((yj <=? pixelY) && (yi >? pixelY)) ||
  ((yi <? pixelY) && (yj >=? pixelY)) ||
  ((yj <? pixelY) && (yi >=? pixelY)) ||
  ((yi =? yj) && (yi =? pixelY)).

(** Steps granted to the bubble sort of an intercept array of length
    [count]; [sort_nodes_budget] shows that they are never used up. *)
Definition sort_steps (count : Z) : nat := Z.to_nat (count * count).

Section Kernel.

(** [intercept xi yi r k pixelY] stands for the int64 stored by
    [nodeX[nodes] = polygon[i, 0] + (pixelY - polygon[i, 1]) / r * k],
    a float64 computation followed by a truncation.  Nothing below
    depends on its value. *)
Variable intercept : Z -> Z -> Z -> Z -> Z -> Z.

(** "Build a list of nodes": the loop state is (nodes, j, nodeX). *)
Definition build_nodes (polygon : list (Z * Z)) (count pixelY : Z)
    (nodeX : list Z) : M (Z * list Z) :=
  let* (nodes, j, nodeX) :=
    for_range 0 count (fun i st =>
      let '(nodes, j, nodeX) := st in
      let* pi := get1 polygon i in
      let* pj := get1 polygon j in
      if crossing (snd pi) (snd pj) pixelY then
        let r := snd pj - snd pi in
        let k := fst pj - fst pi in
        let* nodeX :=
          set1 nodeX nodes
            (if negb (r =? 0) then intercept (fst pi) (snd pi) r k pixelY
             else fst pi) in
        ret (nodes + 1, i, nodeX)
      else ret (nodes, i, nodeX))
      (0, count - 1, nodeX) in
  ret (nodes, nodeX).

(** "Sort the nodes, via a simple Bubble sort": one [fuel] per turn of
    the while loop. *)
Fixpoint sort_nodes (fuel : nat) (nodes i : Z) (nodeX : list Z) : M (list Z) :=
  if i <? nodes - 1 then
    match fuel with
    | O => raise StepBudget
    | S fuel' =>
        let* a := get1 nodeX i in
        let* b := get1 nodeX (i + 1) in
        if a >? b then
          let swap := a in
          let* nodeX := set1 nodeX i b in
          let* nodeX := set1 nodeX (i + 1) swap in
          sort_nodes fuel' nodes (if negb (i =? 0) then i - 1 else i) nodeX
        else sort_nodes fuel' nodes (i + 1) nodeX
    end
  else ret nodeX.

(** "Fill the pixels between node pairs" of row [pixelY]. *)
Fixpoint fill_row (fuel : nat) (width nodes pixelY i : Z)
    (nodeX : list Z) (mask : ndarray) : M (list Z * ndarray) :=
  if i <? nodes - 1 then
    match fuel with
    | O => raise StepBudget
    | S fuel' =>
        let* a := get1 nodeX i in
        if a >=? width then ret (nodeX, mask)              (* break *)
        else
          let* b := get1 nodeX (i + 1) in
          if (a =? b) && (i <? nodes - 2) then
            fill_row fuel' width nodes pixelY (i + 1) nodeX mask
          else
            let* (nodeX, mask) :=
              if b >=? 0 then
                let* nodeX := if a <? 0 then set1 nodeX i 0 else ret nodeX in
                let* nodeX :=
                  if b >=? width then set1 nodeX (i + 1) (width - 1)
                  else ret nodeX in
                let* lo := get1 nodeX i in
                let* hi := get1 nodeX (i + 1) in
                let* mask :=
                  for_range lo (hi + 1)
                    (fun j mask => setitem mask pixelY j 1) mask in
                ret (nodeX, mask)
              else ret (nodeX, mask) in
            fill_row fuel' width nodes pixelY (i + 2) nodeX mask
    end
  else ret (nodeX, mask).

(** One turn of "Loop through the rows of the image". *)
Definition scan_row (polygon : list (Z * Z)) (count width pixelY : Z)
    (st : list Z * ndarray) : M (list Z * ndarray) :=
  let '(nodeX, mask) := st in
  let* (nodes, nodeX) := build_nodes polygon count pixelY nodeX in
  let* nodeX := sort_nodes (sort_steps count) nodes 0 nodeX in
  fill_row (Z.to_nat nodes) width nodes pixelY 0 nodeX mask.

(** [data] is the Nx2 array of vertices. *)
Definition rasterize_polygon (data : list (Z * Z)) (bounds : Bounds) : M ndarray :=
  let '(b0, b1, b2, b3) := bounds in
  let count := Z.of_nat (length data) in
  let width := b2 - b0 + 1 in
  let height := b3 - b1 + 1 in
  let nodeX := replicate (Z.to_nat count) 0 in
  let* mask := np_zeros height width in
  let polygon := map (fun p => (fst p - b0, snd p - b1)) data in
  let* (nodeX, mask) :=
    for_range 0 height (scan_row polygon count width) (nodeX, mask) in
  ret mask.

(** ** Regions *)

(** What [_infer_meta] hands to the kernels: the array, the offset and
    the type tag, as one tagged value. *)
Inductive region : Type :=
| Empty                                         (* _TYPE_EMPTY     *)
| Rectangle (x y width height : Z)              (* _TYPE_RECTANGLE *)
| Polygon (points : list (Z * Z))               (* _TYPE_POLYGON   *)
| Mask (mask : ndarray) (offset : Z * Z).       (* _TYPE_MASK      *)

Definition _bounds_rectangle (x y w h : Z) : Bounds :=
  (x, y, x + w - 1, y + h - 1).

Definition fi32_max : Z := 340282346638528859811704183484516925440.
Definition fi32_min : Z := - fi32_max.

(** [int(round(v))] is [v] on the rounded coordinates that an int64
    holds; for an array without vertices the start values themselves are
    returned, which the source cannot convert to int64. *)
Definition _bounds_polygon (a : list (Z * Z)) : Bounds :=
  let '(top, bottom, left_, right_) :=
    fold_left (fun st p =>
                 let '(top, bottom, left_, right_) := st in
                 (Z.min top (snd p), Z.max bottom (snd p),
                  Z.min left_ (fst p), Z.max right_ (fst p)))
              a (fi32_max, fi32_min, fi32_max, fi32_min) in
  (left_, top, right_, bottom).

Definition _bounds_mask (a : ndarray) (o : Z * Z) : M Bounds :=
  let* (l, t, r, b) := mask_bounds a in
  ret (l + fst o, t + snd o, r + fst o, b + snd o).

Definition _region_bounds (a : region) : M Bounds :=
  match a with
  | Rectangle x y w h => ret (_bounds_rectangle x y w h)
  | Polygon pts => ret (_bounds_polygon pts)
  | Mask m o => _bounds_mask m o
  | Empty => ret (0, 0, 0, 0)
  end.

Definition _region_raster (a : region) (bounds : Bounds) : M ndarray :=
  match a with
  | Rectangle x y w h => rasterize_rectangle (x, y, w, h) bounds
  | Polygon pts => rasterize_polygon pts bounds
  | Mask m o => copy_mask m o bounds
  | Empty =>
      let '(b0, b1, b2, b3) := bounds in
      np_zeros (b3 - b1 + 1) (b2 - b0 + 1)
  end.

(** ** Overlap *)

Definition degenerate (b : Bounds) : bool :=
  let '(l, t, r, bt) := b in (l >=? r) || (t >=? bt).

Definition union_bounds (bounds1 bounds2 : Bounds) : Bounds :=
  let '(l1, t1, r1, b1) := bounds1 in
  let '(l2, t2, r2, b2) := bounds2 in
  (Z.min l1 l2, Z.min t1 t2, Z.max r1 r2, Z.max b1 b2).

Definition clip_bounds (bounds : option (Z * Z)) (union : Bounds) : Bounds :=
  match bounds with
  | Some (fw, fh) =>
      let '(l, t, r, b) := union in
      (Z.max 0 l, Z.max 0 t, Z.min (fw - 1) r, Z.min (fh - 1) b)
  | None => union
  end.

(** The body shared by the two counting loops; the state is
    (intersection, union_). *)
Definition count_pixel (a1 a2 : ndarray) (i : Z) (st : Z * Z) : M (Z * Z) :=
  let '(intersection, union_) := st in
  let* v1 := ravel_get a1 i in
  let* v2 := ravel_get a2 i in
  if negb (v1 =? 0) || negb (v2 =? 0) then
    ret (if negb (v1 =? 0) && negb (v2 =? 0) then intersection + 1
         else intersection,
         union_ + 1)
  else ret st.

Definition count_pixels (a1 a2 : ndarray) (a3 : option ndarray) : M (Z * Z) :=
  match a3 with
  | Some a3 =>
      for_range 0 (ravel_size a1) (fun i st =>
        let* v3 := ravel_get a3 i in
        if v3 =? 0 then count_pixel a1 a2 i st else ret st) (0, 0)
  | None => for_range 0 (ravel_size a1) (count_pixel a1 a2) (0, 0)
  end.

Definition overlap_value (counts : Z * Z) : Q :=
  let '(intersection, union_) := counts in
  if union_ >? 0 then (inject_Z intersection / inject_Z union_)%Q else 0%Q.

Definition is_empty (a : region) : bool :=
  match a with Empty => true | _ => false end.

(** [ignore] is [Some] of the ignore region with its type tag. *)
Definition _calculate_overlap (a b : region) (bounds : option (Z * Z))
    (ignore : option region) : M Q :=
  let* bounds1 := _region_bounds a in
  let* bounds2 := _region_bounds b in
  let union := union_bounds bounds1 bounds2 in
  if degenerate union then ret 1%Q
  else
    let raster_bounds := clip_bounds bounds union in
    if degenerate raster_bounds then ret 0%Q
    else
      let* m1 := _region_raster a raster_bounds in
      let* m2 := _region_raster b raster_bounds in
      let* m3 :=
        match ignore with
        | Some ig =>
            if negb (is_empty ig) then
              let* m3 := _region_raster ig raster_bounds in ret (Some m3)
            else ret None
        | None => ret None
        end in
      let* counts := count_pixels m1 m2 m3 in
      ret (overlap_value counts).

Definition calculate_overlap (reg1 reg2 : region) (bounds : option (Z * Z))
    (ignore : option region) : M Q :=
  _calculate_overlap reg1 reg2 bounds ignore.

(** ** Overlaps of two lists *)

Fixpoint mapM {A B} (f : A -> M B) (l : list A) : M (list B) :=
  match l with
  | [] => ret []
  | x :: l' => let* y := f x in let* ys := mapM f l' in ret (y :: ys)
  end.

Definition enumerate {A} (l : list A) : list (Z * A) :=
  zip (map Z.of_nat (seq 0 (length l))) l.

Definition calculate_overlaps (first second : list region)
    (bounds : option (Z * Z)) (ignore : option (list region)) : M (list Q) :=
  if negb (length first =? length second)%nat then raise RegionException
  else
    match ignore with
    | Some ignore =>
        if negb (length first =? length ignore)%nat then raise RegionException
        else
          mapM (fun ip =>
                  let '(i, pairs) := ip in
                  let* ig := get1 ignore i in
                  calculate_overlap (fst pairs) (snd pairs) bounds (Some ig))
               (enumerate (zip first second))
    | None =>
        mapM (fun ip =>
                let '(i, pairs) := ip in
                calculate_overlap (fst pairs) (snd pairs) bounds None)
             (enumerate (zip first second))
    end.

End Kernel.

(** The intercept in exact arithmetic, truncated towards zero; used to
    run the kernels on examples.  The source computes it in float64 and
    can store the integer below it where the exact value is an integer. *)
Definition intercept_exact (xi yi r k pixelY : Z) : Z :=
  Z.quot (xi * r + (pixelY - yi) * k) r.

Definition rows_of (r : M ndarray) : M (list (list Z)) :=
  let* m := r in ret (to_rows m).

(** ** Vocabulary of the statements *)

(** A set pixel of a mask, in mask coordinates (row, column). *)
Definition lit (m : ndarray) (r c : Z) : Prop :=
  0 <= r < shape0 m /\ 0 <= c < shape1 m /\ item m r c <> 0.

(** The box (left, top, right, bottom) holds every set pixel and every
    side of it touches one. *)
Definition tight_box (m : ndarray) (b : Bounds) : Prop :=
  let '(l, t, r, bt) := b in
  (forall i j, lit m i j -> t <= i <= bt /\ l <= j <= r) /\
  (exists j, lit m t j) /\ (exists j, lit m bt j) /\
  (exists i, lit m i l) /\ (exists i, lit m i r).

(** The pixels seen when the scan stands at row [i], column [j]. *)
Definition scanned (i j r c : Z) : Prop := r < i \/ (r = i /\ c < j).

Definition scan_start : Z * Z * Z * Z := (ii32_max, ii32_min, ii32_max, ii32_min).

(** The scan state (top, bottom, left, right) over the pixels seen. *)
Definition scan_inv (m : ndarray) (i j : Z) (st : Z * Z * Z * Z) : Prop :=
  let '(t, bt, l, r) := st in
  (forall a b, lit m a b -> scanned i j a b -> t <= a <= bt /\ l <= b <= r) /\
  (st = scan_start \/
   ((exists b, lit m t b /\ scanned i j t b) /\
    (exists b, lit m bt b /\ scanned i j bt b) /\
    (exists a, lit m a l /\ scanned i j a l) /\
    (exists a, lit m a r /\ scanned i j a r))).

(** The cells of the copy written when the loops stand at row [i],
    column [j] of the common part, whose corner in the copy is
    (oy, ox) and whose width is [tw]. *)
Definition written (oy ox tw i j row col : Z) : Prop :=
  (oy <= row < oy + i /\ ox <= col < ox + tw) \/
  (row = oy + i /\ ox <= col < ox + j).

Definition copy_inv (mask : ndarray) (h w oy ox gy gx tw i j : Z)
    (copy : ndarray) : Prop :=
  shape0 copy = h /\ shape1 copy = w /\
  forall row col,
    (written oy ox tw i j row col ->
     item copy row col = to_uint8 (item mask (row - oy + gy) (col - ox + gx))) /\
    (~ written oy ox tw i j row col -> item copy row col = 0).

(** The pairs of an intercept array that stand in the wrong order; the
    measure of the bubble sort. *)
Fixpoint below (x : Z) (l : list Z) : nat :=
  match l with
  | [] => 0
  | y :: t => (if y <? x then 1 else 0) + below x t
  end.

Fixpoint inversions (l : list Z) : nat :=
  match l with
  | [] => 0
  | x :: t => below x t + inversions t
  end.

(** Pixel (px, py) lies in the pixel box of the rectangle
    (x, y, w, h), that is in [x, x+w-1] x [y, y+h-1]. *)
Definition in_box (x y w h px py : Z) : bool :=
  (x <=? px) && (px <=? x + w - 1) && (y <=? py) && (py <=? y + h - 1).

(** The union of the bounds of two regions, as [_calculate_overlap]
    computes it. *)
Definition union_window (a b : region) : M Bounds :=
  let* bounds1 := _region_bounds a in
  let* bounds2 := _region_bounds b in
  ret (union_bounds bounds1 bounds2).

(** The raster of [ig] on [window] is set on every pixel. *)
Definition covers (intercept : Z -> Z -> Z -> Z -> Z -> Z) (ig : region)
    (window : Bounds) : Prop :=
  exists m3, _region_raster intercept ig window = inr m3 /\
             forall r c, in_shape m3 r c = true -> item m3 r c <> 0.

(** The items of a mask are uint8 values. *)
Definition uint8_items (m : ndarray) : Prop :=
  forall r c, in_shape m r c = true -> 0 <= item m r c < 256.

(** The length test of [calculate_overlaps] fails. *)
Definition length_mismatch (first second : list region)
    (ignore : option (list region)) : Prop :=
  length first <> length second \/
  exists l, ignore = Some l /\ length l <> length first.

(** [ignore[i]] when a list of ignore regions is given. *)
Definition ignore_at (ignore : option (list region)) (i : nat) : option region :=
  match ignore with
  | Some l => l !! i
  | None => None
  end.

(** A mask of 2^31 rows and one column whose only set pixel is in the
    last row, the row with the index [ii32_max]. *)
Definition tall_mask : ndarray :=
  mk_ndarray (ii32_max + 1) 1 (fun r _ => if r =? ii32_max then 1 else 0).

(** The entries of [l] before position [i] stand in ascending order. *)
Definition sorted_upto (i : Z) (l : list Z) : Prop :=
  forall (k : nat) (v v' : Z),
    Z.of_nat k + 1 <= i -> l !! k = Some v -> l !! Datatypes.S k = Some v' ->
    v <= v'.

(** Every item of the array is 0 or 1. *)
Definition binary (m : ndarray) : Prop :=
  forall r c, item m r c = 0 \/ item m r c = 1.

(** The number of indices below [n] at which [p] holds. *)
Fixpoint count_upto (p : Z -> bool) (n : nat) : Z :=
  match n with
  | O => 0
  | Datatypes.S n' => count_upto p n' + (if p (Z.of_nat n') then 1 else 0)
  end.

(** The raster is set at the raveled index [i]. *)
Definition lit_at (m : ndarray) (i : Z) : bool :=
  negb (item m (i / shape1 m) (i mod shape1 m) =? 0).

(** The number of integers of [lo, hi] among 0, ..., n - 1. *)
Definition span (lo hi n : Z) : Z :=
  Z.max 0 (Z.min hi (n - 1) - Z.max lo 0 + 1).

(** The stored intercept of an edge that meets the scanline lies between
    the x coordinates of its two ends: what rounding to nearest and
    truncation keep of the exact intercept. *)
Definition intercept_between (intercept : Z -> Z -> Z -> Z -> Z -> Z) : Prop :=
  forall xi yi r k pixelY,
    r <> 0 ->
    Z.min yi (yi + r) <= pixelY <= Z.max yi (yi + r) ->
    Z.min xi (xi + k) <= intercept xi yi r k pixelY <= Z.max xi (xi + k).

(** The set items of [m] lie in the rows [ylo, yhi] and the columns
    [xlo, xhi]. *)
Definition set_within (xlo xhi ylo yhi : Z) (m : ndarray) : Prop :=
  forall r c, item m r c <> 0 -> ylo <= r <= yhi /\ xlo <= c <= xhi.

(** The entries of [l] at the positions from [i] up to [nodes] lie in
    [xlo, xhi]. *)
Definition entries_within (xlo xhi i nodes : Z) (l : list Z) : Prop :=
  forall (k : nat) (v : Z),
    i <= Z.of_nat k < nodes -> l !! k = Some v -> xlo <= v <= xhi.

(** The integers inside the 24 bit significand of float32: the source
    holds them exactly, adds and subtracts them exactly as long as the
    result is one of them, and converts them to int64 unchanged. *)
Definition f32_exact (z : Z) : Prop := - 16777216 < z < 16777216.

(** A rectangle whose items, and whose sums [x + w] and [y + h], float32
    holds exactly. *)
Definition f32_rectangle (x y w h : Z) : Prop :=
  f32_exact x /\ f32_exact y /\ f32_exact w /\ f32_exact h /\
  f32_exact (x + w) /\ f32_exact (y + h).

(** * Properties *)

(** ** The monad and the loops *)

(** The rule of the for loop: an invariant that every turn re-establishes
    holds at the end, and the loop does not raise. *)
Lemma for_loop_inv {S} (Inv : Z -> S -> Prop) (body : Z -> S -> M S) :
  forall (n : nat) (i : Z) (s : S),
    Inv i s ->
    (forall j t, i <= j < i + Z.of_nat n -> Inv j t ->
                 exists t', body j t = inr t' /\ Inv (j + 1) t') ->
    exists s', for_loop n i body s = inr s' /\ Inv (i + Z.of_nat n) s'.
Proof.
  induction n as [|n IH]; intros i s Hi Hstep.
  - exists s. split; [reflexivity|]. by replace (i + Z.of_nat 0) with i by lia.
  - destruct (Hstep i s) as (t & Ht & Hinv); [lia|done|].
    destruct (IH (i + 1) t Hinv) as (s' & Hs' & Hend).
    { intros j u Hj Hu. apply Hstep; [lia|done]. }
    exists s'. split.
    + simpl. rewrite Ht. exact Hs'.
    + by replace (i + Z.of_nat (Datatypes.S n)) with (i + 1 + Z.of_nat n) by lia.
Qed.

Lemma for_range_inv {S} (Inv : Z -> S -> Prop) (body : Z -> S -> M S)
    (lo hi : Z) (s : S) :
  Inv lo s ->
  (forall j t, lo <= j < hi -> Inv j t ->
               exists t', body j t = inr t' /\ Inv (j + 1) t') ->
  exists s', for_range lo hi body s = inr s' /\ Inv (Z.max lo hi) s'.
Proof.
  intros Hlo Hstep. unfold for_range.
  destruct (for_loop_inv Inv body (Z.to_nat (hi - lo)) lo s Hlo) as (s' & Hs' & Hend).
  { intros j t Hj. apply Hstep. lia. }
  exists s'. split; [done|].
  by replace (Z.max lo hi) with (lo + Z.of_nat (Z.to_nat (hi - lo))) by lia.
Qed.

(** Loops with bodies that agree on the range agree. *)
Lemma for_loop_ext {S} (f g : Z -> S -> M S) :
  forall (n : nat) (i : Z) (s : S),
    (forall j t, i <= j < i + Z.of_nat n -> f j t = g j t) ->
    for_loop n i f s = for_loop n i g s.
Proof.
  induction n as [|n IH]; intros i s Hfg; [reflexivity|].
  simpl. rewrite Hfg by lia. destruct (g i s) as [e|t]; [reflexivity|].
  simpl. apply IH. intros j u Hj. apply Hfg. lia.
Qed.

(** ** Items *)

Lemma in_shape_true (m : ndarray) (i j : Z) :
  in_shape m i j = true <-> 0 <= i < shape0 m /\ 0 <= j < shape1 m.
Proof. unfold in_shape. rewrite !andb_true_iff. lia. Qed.

Lemma in_shape_false (m : ndarray) (i j : Z) :
  in_shape m i j = false <-> ~ (0 <= i < shape0 m /\ 0 <= j < shape1 m).
Proof. rewrite <- in_shape_true. by destruct (in_shape m i j). Qed.

Lemma getitem_in (m : ndarray) (i j : Z) :
  0 <= i < shape0 m -> 0 <= j < shape1 m -> getitem m i j = inr (item m i j).
Proof.
  intros Hi Hj. unfold getitem.
  by rewrite (proj2 (in_shape_true m i j)).
Qed.

Lemma setitem_in (m : ndarray) (i j v : Z) :
  0 <= i < shape0 m -> 0 <= j < shape1 m ->
  exists m', setitem m i j v = inr m' /\
             shape0 m' = shape0 m /\ shape1 m' = shape1 m /\
             forall r c, item m' r c =
                         if (r =? i) && (c =? j) then to_uint8 v else item m r c.
Proof.
  intros Hi Hj. unfold setitem.
  rewrite (proj2 (in_shape_true m i j)) by done. eauto.
Qed.

Lemma np_zeros_ok (h w : Z) :
  0 <= h -> 0 <= w -> np_zeros h w = inr (mk_ndarray h w (fun _ _ => 0)).
Proof.
  intros Hh Hw. unfold np_zeros.
  by rewrite (proj2 (Z.leb_le 0 h)), (proj2 (Z.leb_le 0 w)).
Qed.

(** ** Bounds of a mask *)

Lemma scan_inv_mono (m : ndarray) (i j i' j' : Z) (st : Z * Z * Z * Z) :
  (forall a b, lit m a b -> scanned i j a b <-> scanned i' j' a b) ->
  scan_inv m i j st -> scan_inv m i' j' st.
Proof.
  destruct st as [[[t bt] l] r]. intros Heq [Hbox Htouch]. split.
  - intros a b Hl Hs. apply Hbox; [done|]. by apply Heq.
  - destruct Htouch as [->|(H1 & H2 & H3 & H4)]; [by left|right].
    repeat split.
    + destruct H1 as (b & Hb & Hs). exists b. split; [done|]. by apply Heq.
    + destruct H2 as (b & Hb & Hs). exists b. split; [done|]. by apply Heq.
    + destruct H3 as (a & Ha & Hs). exists a. split; [done|]. by apply Heq.
    + destruct H4 as (a & Ha & Hs). exists a. split; [done|]. by apply Heq.
Qed.

Lemma scan_step (m : ndarray) (i j : Z) (st : Z * Z * Z * Z) :
  shape0 m <= ii32_max -> shape1 m <= ii32_max ->
  0 <= i < shape0 m -> 0 <= j < shape1 m ->
  scan_inv m i j st ->
  exists st',
    (let '(top, bottom, left_, right_) := st in
     let* v := getitem m i j in
     if negb (v =? 0) then
       ret (Z.min top i, Z.max bottom i, Z.min left_ j, Z.max right_ j)
     else ret st) = inr st' /\ scan_inv m i (j + 1) st'.
Proof.
  intros H0 H1 Hi Hj. destruct st as [[[t bt] l] r]. intros [Hbox Htouch].
  rewrite getitem_in by done. simpl.
  destruct (Z.eqb_spec (item m i j) 0) as [Hz|Hnz]; simpl.
  - eexists. split; [reflexivity|]. split.
    + intros a b Hl Hs. apply Hbox; [done|].
      destruct Hs as [Hs|[-> Hs]]; [by left|].
      assert (b <> j) by (intros ->; destruct Hl as (_ & _ & Hl); done).
      right. lia.
    + destruct Htouch as [->|(T1 & T2 & T3 & T4)]; [by left|right].
      unfold scanned in *.
      repeat split; [destruct T1 as (x & ? & ?)|destruct T2 as (x & ? & ?)
                    |destruct T3 as (x & ? & ?)|destruct T4 as (x & ? & ?)];
        exists x; (split; [done|lia]).
  - assert (lit m i j) as Hlit by (unfold lit; lia).
    assert (scanned i (j + 1) i j) as Hnew by (right; lia).
    eexists. split; [reflexivity|]. split.
    + intros a b Hl Hs.
      destruct (decide (a = i /\ b = j)) as [[-> ->]|Hne]; [lia|].
      assert (scanned i j a b) as Hs' by (unfold scanned in *; lia).
      specialize (Hbox a b Hl Hs'). lia.
    + right.
      assert (forall a b, scanned i j a b -> scanned i (j + 1) a b) as Hmono
        by (unfold scanned; intros; lia).
      destruct Htouch as [Hst|(T1 & T2 & T3 & T4)].
      * injection Hst as -> -> -> ->. unfold ii32_max, ii32_min in *.
        rewrite (Z.min_r _ i), (Z.max_r _ i), (Z.min_r _ j), (Z.max_r _ j) by lia.
        repeat split; eauto.
      * repeat split.
        -- destruct (Z.min_spec t i) as [[_ ->]|[_ ->]]; [|by eauto].
           destruct T1 as (x & ? & ?). eauto.
        -- destruct (Z.max_spec bt i) as [[_ ->]|[_ ->]]; [by eauto|].
           destruct T2 as (x & ? & ?). eauto.
        -- destruct (Z.min_spec l j) as [[_ ->]|[_ ->]]; [|by eauto].
           destruct T3 as (x & ? & ?). eauto.
        -- destruct (Z.max_spec r j) as [[_ ->]|[_ ->]]; [by eauto|].
           destruct T4 as (x & ? & ?). eauto.
Qed.

(** The scan of [mask_bounds], on a mask whose sides fit in an int32. *)
Lemma scan_spec (m : ndarray) :
  shape0 m <= ii32_max -> shape1 m <= ii32_max ->
  exists st,
    for_range 0 (shape0 m) (fun i st =>
      for_range 0 (shape1 m) (fun j st =>
        let '(top, bottom, left_, right_) := st in
        let* v := getitem m i j in
        if negb (v =? 0) then
          ret (Z.min top i, Z.max bottom i, Z.min left_ j, Z.max right_ j)
        else ret st) st) scan_start = inr st /\
    scan_inv m (Z.max 0 (shape0 m)) 0 st.
Proof.
  intros H0 H1.
  apply (for_range_inv (fun i st => scan_inv m i 0 st)).
  - split; [|by left]. intros a b (Ha & Hb & _) Hs. unfold scanned in Hs. lia.
  - intros i st Hi Hinv.
    destruct (for_range_inv (fun j st => scan_inv m i j st)
                (fun j st =>
                   let '(top, bottom, left_, right_) := st in
                   let* v := getitem m i j in
                   if negb (v =? 0) then
                     ret (Z.min top i, Z.max bottom i, Z.min left_ j, Z.max right_ j)
                   else ret st) 0 (shape1 m) st Hinv) as (st' & Hst' & Hend).
    { intros j t Hj Ht. by apply scan_step. }
    exists st'. split; [done|].
    revert Hend. apply scan_inv_mono.
    intros a b (Ha & Hb & _). unfold scanned. lia.
Qed.

(** Without a set pixel the scan leaves its start values, whatever the
    size of the mask. *)
Lemma scan_dark (m : ndarray) :
  (forall r c, ~ lit m r c) ->
  for_range 0 (shape0 m) (fun i st =>
    for_range 0 (shape1 m) (fun j st =>
      let '(top, bottom, left_, right_) := st in
      let* v := getitem m i j in
      if negb (v =? 0) then
        ret (Z.min top i, Z.max bottom i, Z.min left_ j, Z.max right_ j)
      else ret st) st) scan_start = inr scan_start.
Proof.
  intros Hdark.
  destruct (for_range_inv (fun _ st => st = scan_start)
              (fun i st =>
                 for_range 0 (shape1 m) (fun j st =>
                   let '(top, bottom, left_, right_) := st in
                   let* v := getitem m i j in
                   if negb (v =? 0) then
                     ret (Z.min top i, Z.max bottom i, Z.min left_ j, Z.max right_ j)
                   else ret st) st) 0 (shape0 m) scan_start eq_refl)
    as (st & Hst & ->); [|done].
  intros i st Hi ->.
  apply (for_range_inv (fun _ st => st = scan_start)); [done|].
  intros j st Hj ->. exists scan_start. split; [|done].
  unfold scan_start. rewrite getitem_in by done. simpl.
  destruct (Z.eqb_spec (item m i j) 0) as [Hz|Hnz]; [done|].
  exfalso. apply (Hdark i j). unfold lit. lia.
Qed.

(** [mask_bounds] never raises. *)
Lemma mask_bounds_total (m : ndarray) : exists b, mask_bounds m = inr b.
Proof.
  unfold mask_bounds.
  destruct (for_range_inv (fun _ (_ : Z * Z * Z * Z) => True)
              (fun i st =>
                 for_range 0 (shape1 m) (fun j st =>
                   let '(top, bottom, left_, right_) := st in
                   let* v := getitem m i j in
                   if negb (v =? 0) then
                     ret (Z.min top i, Z.max bottom i, Z.min left_ j, Z.max right_ j)
                   else ret st) st) 0 (shape0 m)
              (ii32_max, ii32_min, ii32_max, ii32_min) I)
    as (st & Hst & _).
  - intros i st Hi _.
    apply (for_range_inv (fun _ (_ : Z * Z * Z * Z) => True)); [done|].
    intros j [[[t bt] l] r] Hj _. rewrite getitem_in by done. simpl.
    destruct (negb (item m i j =? 0)); eauto.
  - rewrite Hst. destruct st as [[[t bt] l] r]. simpl.
    destruct (t =? ii32_max); eauto.
Qed.

(** A mask without set pixels gets the box (0, 0, 0, 0) from
    [mask_bounds], which [_bounds_mask] then moves by the offset. *)
Lemma bounds_mask_dark (a : ndarray) (o : Z * Z) :
  (forall r c, ~ lit a r c) ->
  _bounds_mask a o = inr (fst o, snd o, fst o, snd o).
Proof.
  intros Hdark. unfold _bounds_mask, mask_bounds.
  fold scan_start. rewrite (scan_dark a Hdark). reflexivity.
Qed.

Lemma bounds_mask_lit (a : ndarray) (o : Z * Z) :
  shape0 a <= ii32_max -> shape1 a <= ii32_max ->
  (exists r c, lit a r c) ->
  exists l t r b,
    _bounds_mask a o = inr (l + fst o, t + snd o, r + fst o, b + snd o) /\
    tight_box a (l, t, r, b).
Proof.
  intros H0 H1 (r0 & c0 & Hlit).
  destruct (scan_spec a H0 H1) as ([[[t bt] l] r] & Hscan & Hbox & Htouch).
  assert (forall i j, lit a i j -> scanned (Z.max 0 (shape0 a)) 0 i j) as Hall.
  { intros i j (Hi & _). left. lia. }
  assert (t <= r0) as Htop by (apply (Hbox r0 c0); auto).
  assert (t <> ii32_max) as Hne by (destruct Hlit as (? & _); lia).
  exists l, t, r, bt. split.
  - unfold _bounds_mask, mask_bounds. fold scan_start. rewrite Hscan. simpl.
    destruct (Z.eqb_spec t ii32_max); [done|reflexivity].
  - destruct Htouch as [Hst|(T1 & T2 & T3 & T4)].
    { injection Hst as -> _ _ _. done. }
    split; [intros i j Hl; apply Hbox; auto|].
    repeat split; [destruct T1 as (x & ? & _)|destruct T2 as (x & ? & _)
                  |destruct T3 as (x & ? & _)|destruct T4 as (x & ? & _)]; eauto.
Qed.

(** ** Copying a mask *)

(** Case analysis on the comparisons of a goal, then arithmetic. *)
Ltac cases_lia :=
  repeat match goal with
         | |- context [?a <? ?b] => destruct (Z.ltb_spec a b)
         | |- context [?a <=? ?b] => destruct (Z.leb_spec a b)
         | |- context [?a =? ?b] => destruct (Z.eqb_spec a b)
         | |- context [?a >? ?b] => rewrite (Z.gtb_ltb a b)
         | |- context [?a >=? ?b] => rewrite (Z.geb_leb a b)
         end;
  simpl; try done; try lia.

Lemma copy_inv_step (mask : ndarray) (h w oy ox gy gx tw i j : Z) (copy : ndarray) :
  0 <= i + gy < shape0 mask -> 0 <= j + gx < shape1 mask ->
  0 <= i + oy < h -> 0 <= j + ox < w -> 0 <= j < tw ->
  copy_inv mask h w oy ox gy gx tw i j copy ->
  exists copy',
    (let* v := getitem mask (i + gy) (j + gx) in
     setitem copy (i + oy) (j + ox) v) = inr copy' /\
    copy_inv mask h w oy ox gy gx tw i (j + 1) copy'.
Proof.
  intros Hr Hc Hr' Hc' Hj (Hs0 & Hs1 & Hcells).
  rewrite getitem_in by done. simpl.
  destruct (setitem_in copy (i + oy) (j + ox) (item mask (i + gy) (j + gx)))
    as (copy' & Hset & Hs0' & Hs1' & Hitem); [lia|lia|].
  exists copy'. split; [done|].
  split; [lia|]. split; [lia|].
  intros row col. rewrite Hitem. destruct (Hcells row col) as [Hin Hout].
  unfold written in *. split; intros Hw.
  - destruct (Z.eqb_spec row (i + oy)) as [->|?];
      destruct (Z.eqb_spec col (j + ox)) as [->|?]; simpl;
      try (apply Hin; lia).
    f_equal. f_equal; lia.
  - destruct (Z.eqb_spec row (i + oy)) as [->|?];
      destruct (Z.eqb_spec col (j + ox)) as [->|?]; simpl;
      try (apply Hout; lia).
    exfalso. apply Hw. lia.
Qed.

(** [copy_mask] on a window of non-negative size: it does not raise, the
    copy has the size of the window, and a cell holds the item of the
    mask at the same pixel, stored as uint8, or 0 outside the mask. *)
Lemma copy_mask_items (mask : ndarray) (o0 o1 b0 b1 b2 b3 : Z) :
  0 <= b3 - b1 + 1 -> 0 <= b2 - b0 + 1 ->
  exists copy,
    copy_mask mask (o0, o1) (b0, b1, b2, b3) = inr copy /\
    shape0 copy = b3 - b1 + 1 /\ shape1 copy = b2 - b0 + 1 /\
    forall row col,
      0 <= row < b3 - b1 + 1 -> 0 <= col < b2 - b0 + 1 ->
      item copy row col =
        if in_shape mask (b1 + row - o1) (b0 + col - o0)
        then to_uint8 (item mask (b1 + row - o1) (b0 + col - o0))
        else 0.
Proof.
  intros Hh Hw. unfold copy_mask. rewrite np_zeros_ok by done. simpl.
  set (tx := Z.max o0 b0). set (ty := Z.max o1 b1).
  set (tw := Z.min (b2 + 1) (o0 + shape1 mask) - tx).
  set (th := Z.min (b3 + 1) (o1 + shape0 mask) - ty).
  set (h := b3 - b1 + 1) in *. set (w := b2 - b0 + 1) in *.
  set (body := fun (i : Z) (copy : ndarray) =>
                 for_range 0 tw (fun j copy =>
                   let* v := getitem mask (i + (ty - o1)) (j + (tx - o0)) in
                   setitem copy (i + (ty - b1)) (j + (tx - b0)) v) copy).
  destruct (for_range_inv
              (fun i => copy_inv mask h w (ty - b1) (tx - b0) (ty - o1) (tx - o0) tw i 0)
              body 0 th (mk_ndarray h w (fun _ _ => 0)))
    as (copy & Hcopy & Hs0 & Hs1 & Hcells).
  - split; [done|]. split; [done|]. intros row col. split; [|done].
    unfold written. lia.
  - intros i copy Hi Hinv. unfold body.
    destruct (for_range_inv
                (fun j => copy_inv mask h w (ty - b1) (tx - b0) (ty - o1) (tx - o0) tw i j)
                (fun j copy =>
                   let* v := getitem mask (i + (ty - o1)) (j + (tx - o0)) in
                   setitem copy (i + (ty - b1)) (j + (tx - b0)) v)
                0 tw copy Hinv) as (copy' & Hcopy' & Hs0 & Hs1 & Hcells).
    { intros j t Hj Ht. apply copy_inv_step; try done; unfold h, w; lia. }
    exists copy'. split; [done|]. split; [done|]. split; [done|].
    intros row col. destruct (Hcells row col) as [Hin Hout].
    unfold written in *. split; intros Hwr; [apply Hin|apply Hout]; lia.
  - exists copy. split; [done|]. split; [done|]. split; [done|].
    intros row col Hrow Hcol. destruct (Hcells row col) as [Hin Hout].
    unfold written in *.
    destruct (in_shape mask (b1 + row - o1) (b0 + col - o0)) eqn:Hsh.
    + apply in_shape_true in Hsh. rewrite Hin by lia. f_equal. f_equal; lia.
    + apply in_shape_false in Hsh. apply Hout. lia.
Qed.

(** ** One-dimensional arrays *)

Lemma get1_in {A} (l : list A) (i : Z) :
  0 <= i < Z.of_nat (length l) ->
  exists v, get1 l i = inr v /\ l !! Z.to_nat i = Some v.
Proof.
  intros Hi. unfold get1. rewrite (proj2 (Z.leb_le 0 i)) by lia.
  destruct (lookup_lt_is_Some_2 l (Z.to_nat i)) as [v Hv]; [lia|].
  rewrite Hv. eauto.
Qed.

Lemma set1_in {A} (l : list A) (i : Z) (v : A) :
  0 <= i < Z.of_nat (length l) ->
  set1 l i v = inr (<[Z.to_nat i := v]> l).
Proof.
  intros Hi. unfold set1.
  by rewrite (proj2 (Z.leb_le 0 i)), (proj2 (Z.ltb_lt i _)) by lia.
Qed.

(** ** The bubble sort stops *)

Lemma below_app (x : Z) (l1 l2 : list Z) :
  below x (l1 ++ l2) = (below x l1 + below x l2)%nat.
Proof. induction l1 as [|y l1 IH]; simpl; [done|]. rewrite IH. lia. Qed.

Lemma below_le_length (x : Z) (l : list Z) : (below x l <= length l)%nat.
Proof. induction l as [|y l IH]; simpl; [done|]. destruct (y <? x); lia. Qed.

Lemma inversions_bound (l : list Z) :
  (2 * inversions l + length l <= length l * length l)%nat.
Proof.
  induction l as [|x l IH]; simpl; [done|].
  pose proof (below_le_length x l). nia.
Qed.

(** Exchanging two neighbours that stand in the wrong order removes
    exactly one inversion. *)
Lemma inversions_swap (pre post : list Z) (a b : Z) :
  a > b ->
  inversions (pre ++ a :: b :: post) = Datatypes.S (inversions (pre ++ b :: a :: post)).
Proof.
  intros Hab. induction pre as [|p pre IH]; simpl.
  - rewrite (proj2 (Z.ltb_lt b a)) by lia.
    rewrite (proj2 (Z.ltb_ge a b)) by lia. lia.
  - rewrite IH, !below_app. simpl. lia.
Qed.

Lemma swap_neighbours (l : list Z) (i : nat) (a b : Z) :
  l !! i = Some a -> l !! Datatypes.S i = Some b ->
  exists pre post,
    l = pre ++ a :: b :: post /\
    <[Datatypes.S i := a]> (<[i := b]> l) = pre ++ b :: a :: post.
Proof.
  revert l. induction i as [|i IH]; intros l Ha Hb.
  - destruct l as [|x [|y l]]; simplify_eq/=. by exists [], l.
  - destruct l as [|x l]; [done|]. simpl in Ha, Hb.
    destruct (IH l Ha Hb) as (pre & post & -> & Hsw).
    exists (x :: pre), post. split; [done|]. simpl. by rewrite Hsw.
Qed.

Section KernelFacts.

Variable intercept : Z -> Z -> Z -> Z -> Z -> Z.

(** With at least [2 * inversions + (nodes - i)] steps the sort returns,
    and it keeps the length of the array. *)
Lemma sort_nodes_returns :
  forall (fuel : nat) (nodes i : Z) (nodeX : list Z),
    0 <= i -> nodes <= Z.of_nat (length nodeX) ->
    (2 * inversions nodeX + Z.to_nat (nodes - i) <= fuel)%nat ->
    exists nodeX',
      sort_nodes fuel nodes i nodeX = inr nodeX' /\
      length nodeX' = length nodeX.
Proof.
  induction fuel as [|fuel IH]; intros nodes i nodeX Hi Hn Hfuel.
  - exists nodeX. simpl.
    destruct (Z.ltb_spec i (nodes - 1)); [lia|done].
  - simpl. destruct (Z.ltb_spec i (nodes - 1)) as [Hlt|Hge]; [|by eauto].
    destruct (get1_in nodeX i) as (a & -> & Ha); [lia|].
    destruct (get1_in nodeX (i + 1)) as (b & -> & Hb); [lia|].
    simpl. replace (Z.to_nat (i + 1)) with (Datatypes.S (Z.to_nat i)) in Hb by lia.
    destruct (Z.gtb_spec a b) as [Hgt|Hle].
    + rewrite set1_in by lia. simpl.
      rewrite set1_in by (rewrite length_insert; lia). simpl.
      replace (Z.to_nat (i + 1)) with (Datatypes.S (Z.to_nat i)) by lia.
      destruct (swap_neighbours nodeX (Z.to_nat i) a b Ha Hb)
        as (pre & post & Hl & Hsw).
      assert (inversions nodeX =
              Datatypes.S (inversions (<[Datatypes.S (Z.to_nat i) := a]>
                                         (<[Z.to_nat i := b]> nodeX)))) as Hinv.
      { rewrite Hsw. rewrite Hl at 1. apply inversions_swap. lia. }
      destruct (IH nodes (if negb (i =? 0) then i - 1 else i)
                  (<[Datatypes.S (Z.to_nat i) := a]> (<[Z.to_nat i := b]> nodeX)))
        as (nodeX' & Hs & Hlen).
      * destruct (Z.eqb_spec i 0); simpl; lia.
      * rewrite !length_insert. lia.
      * destruct (Z.eqb_spec i 0); simpl; lia.
      * exists nodeX'. split; [done|]. by rewrite Hlen, !length_insert.
    + apply IH; lia.
Qed.

(** The steps that [scan_row] grants are enough. *)
Lemma sort_nodes_budget (nodes : Z) (nodeX : list Z) :
  nodes <= Z.of_nat (length nodeX) ->
  exists nodeX',
    sort_nodes (sort_steps (Z.of_nat (length nodeX))) nodes 0 nodeX = inr nodeX' /\
    length nodeX' = length nodeX.
Proof.
  intros Hn. apply sort_nodes_returns; [lia|done|].
  pose proof (inversions_bound nodeX). unfold sort_steps. nia.
Qed.

(** ** The scanline loops stay inside their arrays *)

(** At most one intercept per vertex: the writes into [nodeX] stay inside
    it, and the loop hands back at most [count] nodes. *)
Lemma build_nodes_safe (polygon : list (Z * Z)) (pixelY : Z) (nodeX : list Z) :
  length nodeX = length polygon ->
  exists nodes nodeX',
    build_nodes intercept polygon (Z.of_nat (length polygon)) pixelY nodeX
      = inr (nodes, nodeX') /\
    0 <= nodes <= Z.of_nat (length polygon) /\
    length nodeX' = length polygon.
Proof.
  intros Hlen. unfold build_nodes.
  set (count := Z.of_nat (length polygon)).
  set (body := fun (i : Z) (st : Z * Z * list Z) =>
     let '(nodes, j, nodeX) := st in
     let* pi := get1 polygon i in
     let* pj := get1 polygon j in
     if crossing (snd pi) (snd pj) pixelY then
       let r := snd pj - snd pi in
       let k := fst pj - fst pi in
       let* nodeX :=
         set1 nodeX nodes
           (if negb (r =? 0) then intercept (fst pi) (snd pi) r k pixelY
            else fst pi) in
       ret (nodes + 1, i, nodeX)
     else ret (nodes, i, nodeX)).
  destruct (for_range_inv
              (fun i (st : Z * Z * list Z) =>
                 let '(nodes, j, nodeX) := st in
                 0 <= nodes <= i /\ length nodeX = length polygon /\
    (i < count -> 0 <= j < count))
              body 0 count (0, count - 1, nodeX))
    as ([[nodes j] nodeX'] & Hrun & Hnodes & Hlen' & _).
  - repeat split; lia.
  - intros i [[nodes j] nX] Hi (Hnodes & HnX & Hj). unfold body.
    destruct (get1_in polygon i) as (pi & -> & _); [lia|].
    destruct (get1_in polygon j) as (pj & -> & _); [lia|].
    simpl. destruct (crossing (snd pi) (snd pj) pixelY).
    + rewrite set1_in by lia. simpl. eexists. split; [reflexivity|].
      simpl. rewrite length_insert. lia.
    + eexists. split; [reflexivity|]. simpl. lia.
  - rewrite Hrun. simpl. exists nodes, nodeX'.
    split; [done|]. split; [lia|done].
Qed.

(** The pixel writes of one span stay inside row [pixelY]. *)
Lemma fill_span_safe (pixelY lo hi : Z) (mask : ndarray) :
  0 <= pixelY < shape0 mask -> 0 <= lo -> hi < shape1 mask ->
  exists mask',
    for_range lo (hi + 1) (fun j mask => setitem mask pixelY j 1) mask
      = inr mask' /\
    shape0 mask' = shape0 mask /\ shape1 mask' = shape1 mask.
Proof.
  intros Hrow Hlo Hhi.
  apply (for_range_inv
           (fun _ m => shape0 m = shape0 mask /\ shape1 m = shape1 mask));
    [done|].
  intros j m Hj [H0 H1].
  destruct (setitem_in m pixelY j 1) as (m' & -> & H0' & H1' & _); [lia|lia|].
  exists m'. split; [done|]. lia.
Qed.

(** The fill loop returns within [nodes - i] steps, and every write it
    makes is inside [nodeX] or inside the mask. *)
Lemma fill_row_safe :
  forall (fuel : nat) (width nodes pixelY i : Z) (nodeX : list Z) (mask : ndarray),
    0 <= i -> nodes <= Z.of_nat (length nodeX) ->
    0 <= pixelY < shape0 mask -> shape1 mask = width ->
    (Z.to_nat (nodes - i) <= fuel)%nat ->
    exists nodeX' mask',
      fill_row fuel width nodes pixelY i nodeX mask = inr (nodeX', mask') /\
    length nodeX' = length nodeX /\
    shape0 mask' = shape0 mask /\ shape1 mask' = shape1 mask.
Proof.
  induction fuel as [|fuel IH]; intros width nodes pixelY i nodeX mask
    Hi Hn Hrow Hw Hfuel.
  - exists nodeX, mask. simpl.
    destruct (Z.ltb_spec i (nodes - 1)); [lia|done].
  - simpl. destruct (Z.ltb_spec i (nodes - 1)) as [Hlt|Hge]; [|by eauto 6].
    destruct (get1_in nodeX i) as (a & -> & Ha); [lia|].
    simpl. destruct (Z.geb_spec a width) as [Hbreak|Ha_lt]; [by eauto 6|].
    destruct (get1_in nodeX (i + 1)) as (b & -> & Hb); [lia|].
    simpl. destruct ((a =? b) && (i <? nodes - 2)).
    { apply IH; lia. }
    assert (exists nodeX1 mask1,
      (if b >=? 0 then
         let* nodeX := if a <? 0 then set1 nodeX i 0 else ret nodeX in
         let* nodeX :=
           if b >=? width then set1 nodeX (i + 1) (width - 1) else ret nodeX in
         let* lo := get1 nodeX i in
         let* hi := get1 nodeX (i + 1) in
         let* mask :=
           for_range lo (hi + 1) (fun j mask => setitem mask pixelY j 1) mask in
         ret (nodeX, mask)
       else ret (nodeX, mask)) = inr (nodeX1, mask1) /\
    length nodeX1 = length nodeX /\
    shape0 mask1 = shape0 mask /\ shape1 mask1 = shape1 mask)
      as (nodeX1 & mask1 & -> & Hlen1 & H0 & H1).
    { destruct (Z.geb_spec b 0) as [Hb0|Hb0]; [|by eauto 6].
      (* the clamp of nodeX[i] *)
      assert (exists n1 lo,
        (if a <? 0 then set1 nodeX i 0 else ret nodeX) = inr n1 /\
    length n1 = length nodeX /\
    n1 !! Z.to_nat i = Some lo /\ 0 <= lo /\
    n1 !! Z.to_nat (i + 1) = Some b) as (n1 & lo & -> & Hl1 & Hlo & Hlo0 & Hb1).
      { destruct (Z.ltb_spec a 0).
        - rewrite set1_in by lia. exists (<[Z.to_nat i := 0]> nodeX), 0.
          split; [done|]. rewrite length_insert. split; [done|].
          rewrite list_lookup_insert_eq by lia.
          rewrite list_lookup_insert_ne by lia. done.
        - exists nodeX, a. done. }
      simpl.
      (* the clamp of nodeX[i + 1] *)
      assert (exists n2 hi,
        (if b >=? width then set1 n1 (i + 1) (width - 1) else ret n1) = inr n2 /\
    length n2 = length nodeX /\
    n2 !! Z.to_nat i = Some lo /\
    n2 !! Z.to_nat (i + 1) = Some hi /\ hi < width)
        as (n2 & hi & -> & Hl2 & Hlo2 & Hhi & Hhiw).
      { destruct (Z.geb_spec b width).
        - rewrite set1_in by lia. exists (<[Z.to_nat (i + 1) := width - 1]> n1), (width - 1).
          split; [done|]. rewrite length_insert. split; [done|].
          rewrite list_lookup_insert_ne by lia.
          rewrite list_lookup_insert_eq by lia. split; [done|]. split; [done|lia].
        - exists n1, b. repeat split; try done; lia. }
      simpl.
      destruct (get1_in n2 i) as (lo' & -> & Hlo'); [lia|].
      destruct (get1_in n2 (i + 1)) as (hi' & -> & Hhi'); [lia|].
      simpl.
      assert (lo' = lo) as -> by congruence.
      assert (hi' = hi) as -> by congruence.
      destruct (fill_span_safe pixelY lo hi mask) as (mask1 & -> & H0 & H1);
        [lia|lia|lia|].
      simpl. by eauto 8. }
    simpl.
    destruct (IH (shape1 mask) nodes pixelY (i + 2) nodeX1 mask1)
      as (nodeX' & mask' & Hrun & Hlen' & H0' & H1'); try lia.
    subst width. rewrite Hrun. exists nodeX', mask'. repeat split; lia.
Qed.

(** One row of the scan. *)
Lemma scan_row_safe (polygon : list (Z * Z)) (width pixelY : Z)
    (nodeX : list Z) (mask : ndarray) :
  length nodeX = length polygon ->
  0 <= pixelY < shape0 mask -> shape1 mask = width ->
  exists nodeX' mask',
    scan_row intercept polygon (Z.of_nat (length polygon)) width pixelY (nodeX, mask)
      = inr (nodeX', mask') /\
    length nodeX' = length polygon /\
    shape0 mask' = shape0 mask /\ shape1 mask' = shape1 mask.
Proof.
  intros Hlen Hrow Hw. unfold scan_row.
  destruct (build_nodes_safe polygon pixelY nodeX Hlen)
    as (nodes & nodeX1 & -> & Hnodes & Hlen1).
  simpl. rewrite <- Hlen1.
  destruct (sort_nodes_budget nodes nodeX1) as (nodeX2 & -> & Hlen2); [lia|].
  simpl.
  destruct (fill_row_safe (Z.to_nat nodes) width nodes pixelY 0 nodeX2 mask)
    as (nodeX' & mask' & -> & Hlen' & H0 & H1); try lia.
  exists nodeX', mask'. repeat split; try done. lia.
Qed.

(** [rasterize_polygon] on a window of non-negative size returns a grid
    of the size of the window; no access leaves an array and no loop runs
    out of steps. *)
Lemma rasterize_polygon_returns (data : list (Z * Z)) (b0 b1 b2 b3 : Z) :
  0 <= b3 - b1 + 1 -> 0 <= b2 - b0 + 1 ->
  exists mask,
    rasterize_polygon intercept data (b0, b1, b2, b3) = inr mask /\
    shape0 mask = b3 - b1 + 1 /\ shape1 mask = b2 - b0 + 1.
Proof.
  intros Hh Hw. unfold rasterize_polygon. rewrite np_zeros_ok by done. simpl.
  set (polygon := map (fun p => (fst p - b0, snd p - b1)) data).
  assert (length polygon = length data) as Hpoly by apply length_map.
  rewrite <- Hpoly.
  destruct (for_range_inv
              (fun _ (st : list Z * ndarray) =>
                 length (fst st) = length polygon /\
    shape0 (snd st) = b3 - b1 + 1 /\ shape1 (snd st) = b2 - b0 + 1)
              (scan_row intercept polygon (Z.of_nat (length polygon)) (b2 - b0 + 1))
              0 (b3 - b1 + 1)
              (replicate (Z.to_nat (Z.of_nat (length polygon))) 0,
               mk_ndarray (b3 - b1 + 1) (b2 - b0 + 1) (fun _ _ => 0)))
    as ([nodeX mask] & -> & _ & H0 & H1).
  - simpl. rewrite length_replicate. lia.
  - intros pixelY [nodeX mask] Hrow (Hlen & H0 & H1). cbn [fst snd] in *.
    destruct (scan_row_safe polygon (b2 - b0 + 1) pixelY nodeX mask)
      as (nodeX' & mask' & -> & Hlen' & H0' & H1'); try done; try lia.
    exists (nodeX', mask'). cbn [fst snd]. split; [done|]. lia.
  - exists mask. done.
Qed.

End KernelFacts.

(** ** Rasterization of a rectangle *)

Lemma rasterize_rectangle_returns (data : Z * Z * Z * Z) (b0 b1 b2 b3 : Z) :
  0 <= b3 - b1 + 1 -> 0 <= b2 - b0 + 1 ->
  exists mask,
    rasterize_rectangle data (b0, b1, b2, b3) = inr mask /\
    shape0 mask = b3 - b1 + 1 /\ shape1 mask = b2 - b0 + 1.
Proof.
  intros Hh Hw. destruct data as [[[x y] w] h]. unfold rasterize_rectangle.
  rewrite np_zeros_ok by done. simpl.
  destruct ((x >? b2) || (x + w - 1 <? b0) || (y >? b3) || (y + h - 1 <? b1));
    eexists; (split; [reflexivity|]); done.
Qed.

Lemma slice_index_nonneg (n i : Z) : 0 <= i -> slice_index n i = Z.min i n.
Proof. intros Hi. unfold slice_index. by rewrite (proj2 (Z.ltb_ge i 0)). Qed.

(** On a window in the quadrant of non-negative coordinates, which is
    where a frame puts it, the raster of a rectangle is its pixel box. *)
Lemma rasterize_rectangle_quadrant (x y w h b0 b1 b2 b3 : Z) :
  0 <= b0 -> 0 <= b1 -> b0 <= b2 -> b1 <= b3 ->
  exists mask,
    rasterize_rectangle (x, y, w, h) (b0, b1, b2, b3) = inr mask /\
    shape0 mask = b3 - b1 + 1 /\ shape1 mask = b2 - b0 + 1 /\
    forall row col,
      0 <= row < b3 - b1 + 1 -> 0 <= col < b2 - b0 + 1 ->
      item mask row col = if in_box x y w h (b0 + col) (b1 + row) then 1 else 0.
Proof.
  intros H0 H1 Hw Hh. unfold rasterize_rectangle.
  rewrite np_zeros_ok by lia. simpl.
  destruct ((x >? b2) || (x + w - 1 <? b0) || (y >? b3) || (y + h - 1 <? b1))
    eqn:Hout.
  - eexists. split; [reflexivity|]. split; [done|]. split; [done|].
    intros row col Hrow Hcol. simpl.
    assert (in_box x y w h (b0 + col) (b1 + row) = false) as ->; [|done].
    unfold in_box. rewrite !orb_true_iff in Hout. rewrite !andb_false_iff. lia.
  - eexists. split; [reflexivity|]. split; [done|]. split; [done|].
    intros row col Hrow Hcol. simpl.
    rewrite !orb_false_iff, !Z.gtb_ltb in Hout.
    destruct Hout as [[[A B] C] D]. apply Z.ltb_ge in A, B, C, D.
    rewrite !slice_index_nonneg by lia.
    unfold in_box. change (to_uint8 1) with 1. cases_lia.
Qed.

(** ** Every region has bounds and a raster *)

Section OverlapFacts.

Variable intercept : Z -> Z -> Z -> Z -> Z -> Z.

Lemma region_bounds_total (a : region) : exists b, _region_bounds a = inr b.
Proof.
  destruct a as [|x y w h|pts|m o]; simpl; eauto.
  unfold _bounds_mask. destruct (mask_bounds_total m) as ([[[l t] r] b] & ->).
  simpl. eauto.
Qed.

Lemma region_raster_returns (a : region) (b0 b1 b2 b3 : Z) :
  0 <= b3 - b1 + 1 -> 0 <= b2 - b0 + 1 ->
  exists m,
    _region_raster intercept a (b0, b1, b2, b3) = inr m /\
    shape0 m = b3 - b1 + 1 /\ shape1 m = b2 - b0 + 1.
Proof.
  intros Hh Hw. destruct a as [|x y w h|pts|m o]; unfold _region_raster.
  - rewrite np_zeros_ok by done. eauto.
  - by apply (rasterize_rectangle_returns (x, y, w, h)).
  - by apply rasterize_polygon_returns.
  - destruct o as [o0 o1].
    destruct (copy_mask_items m o0 o1 b0 b1 b2 b3 Hh Hw) as (c & ? & ? & ? & _).
    eauto.
Qed.

Lemma degenerate_false (b0 b1 b2 b3 : Z) :
  degenerate (b0, b1, b2, b3) = false -> b0 < b2 /\ b1 < b3.
Proof. unfold degenerate. rewrite orb_false_iff. lia. Qed.

Lemma union_bounds_comm (x y : Bounds) : union_bounds x y = union_bounds y x.
Proof.
  destruct x as [[[l1 t1] r1] b1], y as [[[l2 t2] r2] b2]. simpl.
  by rewrite (Z.min_comm l1), (Z.min_comm t1), (Z.max_comm r1), (Z.max_comm b1).
Qed.

(** ** The counting loops *)

Lemma ravel_index (h w i : Z) :
  0 <= h -> 0 <= w -> 0 <= i < h * w ->
  0 <= i / w < h /\ 0 <= i mod w < w.
Proof.
  intros Hh Hw Hi. assert (0 < w) by nia.
  split; [split|].
  - apply Z.div_pos; lia.
  - apply Z.div_lt_upper_bound; lia.
  - by apply Z.mod_pos_bound.
Qed.

Lemma ravel_get_in (m : ndarray) (i : Z) :
  0 <= i < ravel_size m ->
  ravel_get m i = inr (item m (i / shape1 m) (i mod shape1 m)).
Proof.
  intros Hi. unfold ravel_get.
  by rewrite (proj2 (Z.leb_le 0 i)), (proj2 (Z.ltb_lt i _)) by lia.
Qed.

Lemma count_pixel_in (a1 a2 : ndarray) (i c u : Z) :
  ravel_size a2 = ravel_size a1 -> 0 <= i < ravel_size a1 -> 0 <= c <= u ->
  exists c' u', count_pixel a1 a2 i (c, u) = inr (c', u') /\ 0 <= c' <= u'.
Proof.
  intros Hsz Hi Hcu. unfold count_pixel.
  rewrite !ravel_get_in by lia. simpl.
  destruct (negb (_ =? 0)), (negb (_ =? 0)); simpl;
    eexists _, _; (split; [reflexivity|]); lia.
Qed.

Lemma count_pixel_sym (a1 a2 : ndarray) (i : Z) (st : Z * Z) :
  ravel_size a2 = ravel_size a1 -> 0 <= i < ravel_size a1 ->
  count_pixel a1 a2 i st = count_pixel a2 a1 i st.
Proof.
  intros Hsz Hi. destruct st as [c u]. unfold count_pixel.
  rewrite !ravel_get_in by lia. simpl.
  by destruct (negb (_ =? 0)), (negb (_ =? 0)).
Qed.

(** The counts: the loops do not raise on rasters of one size, and the
    intersection count never exceeds the union count. *)
Lemma count_pixels_counts (a1 a2 : ndarray) (a3 : option ndarray) :
  ravel_size a2 = ravel_size a1 ->
  (forall m3, a3 = Some m3 -> ravel_size m3 = ravel_size a1) ->
  exists c u, count_pixels a1 a2 a3 = inr (c, u) /\ 0 <= c <= u.
Proof.
  intros Hsz Hsz3.
  assert (forall body : Z -> Z * Z -> M (Z * Z),
            (forall i c u, 0 <= i < ravel_size a1 -> 0 <= c <= u ->
               exists c' u', body i (c, u) = inr (c', u') /\ 0 <= c' <= u') ->
            exists c u, for_range 0 (ravel_size a1) body (0, 0) = inr (c, u) /\
                        0 <= c <= u) as Hloop.
  { intros body Hbody.
    destruct (for_range_inv (fun _ (st : Z * Z) => 0 <= fst st <= snd st)
                body 0 (ravel_size a1) (0, 0)) as ([c u] & Hrun & Hcu).
    - simpl. lia.
    - intros i [c u] Hi Hcu. simpl in Hcu.
      destruct (Hbody i c u Hi Hcu) as (c' & u' & -> & Hcu').
      exists (c', u'). done.
    - exists c, u. done. }
  unfold count_pixels. destruct a3 as [m3|].
  - apply Hloop. intros i c u Hi Hcu.
    rewrite ravel_get_in by (rewrite (Hsz3 m3); done). simpl.
    destruct (_ =? 0); [by apply count_pixel_in|].
    exists c, u. done.
  - apply Hloop. intros i c u Hi Hcu. by apply count_pixel_in.
Qed.

Lemma count_pixels_sym (a1 a2 : ndarray) (a3 : option ndarray) :
  ravel_size a2 = ravel_size a1 ->
  count_pixels a1 a2 a3 = count_pixels a2 a1 a3.
Proof.
  intros Hsz. unfold count_pixels, for_range. rewrite Hsz.
  destruct a3 as [m3|]; apply for_loop_ext; intros i st Hi.
  - destruct (ravel_get m3 i) as [e|v3]; [done|]. simpl.
    destruct (v3 =? 0); [|done]. apply count_pixel_sym; lia.
  - apply count_pixel_sym; lia.
Qed.

(** When the ignore raster is set on every pixel, nothing is counted. *)
Lemma count_pixels_ignored (a1 a2 m3 : ndarray) :
  0 <= shape0 m3 -> 0 <= shape1 m3 -> ravel_size m3 = ravel_size a1 ->
  (forall r c, in_shape m3 r c = true -> item m3 r c <> 0) ->
  count_pixels a1 a2 (Some m3) = inr (0, 0).
Proof.
  intros H0 H1 Hsz Hset. unfold count_pixels.
  destruct (for_range_inv (fun _ (st : Z * Z) => st = (0, 0))
              (fun i st =>
                 let* v3 := ravel_get m3 i in
                 if v3 =? 0 then count_pixel a1 a2 i st else ret st)
              0 (ravel_size a1) (0, 0) eq_refl) as (st & -> & ->); [|done].
  intros i st Hi ->. exists (0, 0). split; [|done].
  rewrite ravel_get_in by lia. simpl.
  destruct (ravel_index (shape0 m3) (shape1 m3) i) as [Hr Hc];
    [done|done|unfold ravel_size in *; lia|].
  destruct (Z.eqb_spec (item m3 (i / shape1 m3) (i mod shape1 m3)) 0) as [Hz|];
    [|done].
  exfalso. revert Hz. apply Hset. apply in_shape_true. lia.
Qed.

(** ** The value of the overlap *)

Lemma overlap_value_range (c u : Z) :
  0 <= c <= u -> (0 <= overlap_value (c, u) <= 1)%Q.
Proof.
  intros Hcu. unfold overlap_value.
  destruct (Z.gtb_spec u 0) as [Hu|Hu]; [|split; done].
  assert (0 < inject_Z u)%Q as Hpos.
  { change 0%Q with (inject_Z 0). rewrite <- Zlt_Qlt. lia. }
  split.
  - apply Qle_shift_div_l; [done|]. rewrite Qmult_0_l.
    change 0%Q with (inject_Z 0). rewrite <- Zle_Qle. lia.
  - apply Qle_shift_div_r; [done|]. rewrite Qmult_1_l.
    rewrite <- Zle_Qle. lia.
Qed.

(** The two early returns and the counting stage of
    [_calculate_overlap], once both bounds are known. *)
Lemma calculate_overlap_stages (a b : region) (frame : option (Z * Z))
    (ignore : option region) (bounds1 bounds2 : Bounds) :
  _region_bounds a = inr bounds1 -> _region_bounds b = inr bounds2 ->
  _calculate_overlap intercept a b frame ignore =
    if degenerate (union_bounds bounds1 bounds2) then inr 1%Q
    else
      let raster_bounds := clip_bounds frame (union_bounds bounds1 bounds2) in
      if degenerate raster_bounds then inr 0%Q
      else
        let* m1 := _region_raster intercept a raster_bounds in
        let* m2 := _region_raster intercept b raster_bounds in
        let* m3 :=
          match ignore with
          | Some ig =>
              if negb (is_empty ig) then
                let* m3 := _region_raster intercept ig raster_bounds in
                ret (Some m3)
              else ret None
          | None => ret None
          end in
        let* counts := count_pixels m1 m2 m3 in
        ret (overlap_value counts).
Proof. intros H1 H2. unfold _calculate_overlap. by rewrite H1, H2. Qed.

(** [_calculate_overlap] returns for all regions, and its value is 1, 0
    or the quotient of two counts with 0 <= intersection <= union_. *)
Lemma calculate_overlap_returns (a b : region) (frame : option (Z * Z))
    (ignore : option region) :
  exists q, _calculate_overlap intercept a b frame ignore = inr q /\
            (0 <= q <= 1)%Q.
Proof.
  destruct (region_bounds_total a) as [bounds1 H1].
  destruct (region_bounds_total b) as [bounds2 H2].
  rewrite (calculate_overlap_stages a b frame ignore bounds1 bounds2 H1 H2).
  destruct (degenerate (union_bounds bounds1 bounds2)).
  { exists 1%Q. split; [done|]. split; done. }
  cbv zeta.
  destruct (clip_bounds frame (union_bounds bounds1 bounds2))
    as [[[r0 r1] r2] r3] eqn:Hrb.
  destruct (degenerate (r0, r1, r2, r3)) eqn:Hdeg.
  { exists 0%Q. split; [done|]. split; done. }
  apply degenerate_false in Hdeg.
  destruct (region_raster_returns a r0 r1 r2 r3) as (m1 & -> & H10 & H11);
    [lia|lia|].
  destruct (region_raster_returns b r0 r1 r2 r3) as (m2 & -> & H20 & H21);
    [lia|lia|].
  simpl.
  assert (exists m3,
    match ignore with
    | Some ig =>
        if negb (is_empty ig) then
          let* m3 := _region_raster intercept ig (r0, r1, r2, r3) in
          ret (Some m3)
        else ret None
    | None => ret None
    end = inr m3 /\
    forall m, m3 = Some m -> ravel_size m = ravel_size m1) as (m3 & -> & Hm3).
  { destruct ignore as [ig|]; [|by exists None].
    destruct (negb (is_empty ig)); [|by exists None].
    destruct (region_raster_returns ig r0 r1 r2 r3) as (m & -> & H30 & H31);
      [lia|lia|].
    exists (Some m). split; [done|]. intros ? [= <-].
    unfold ravel_size. congruence. }
  simpl.
  destruct (count_pixels_counts m1 m2 m3) as (c & u & -> & Hcu);
    [unfold ravel_size; congruence|done|].
  simpl. exists (overlap_value (c, u)). split; [done|].
  by apply overlap_value_range.
Qed.

End OverlapFacts.

(** ** Overlaps of two lists *)

Lemma mapM_indexed {A B} (f : Z * A -> M B) (l : list A) :
  forall start : nat,
    (forall i x, l !! i = Some x ->
                 exists y, f (Z.of_nat (start + i), x) = inr y) ->
    exists ys,
      mapM f (zip (map Z.of_nat (seq start (length l))) l) = inr ys /\
      length ys = length l /\
      forall i x y, l !! i = Some x -> ys !! i = Some y ->
                    f (Z.of_nat (start + i), x) = inr y.
Proof.
  induction l as [|x l IH]; intros start Hf.
  - exists []. repeat split. intros i x y Hx. done.
  - destruct (Hf 0%nat x eq_refl) as [y Hy].
    destruct (IH (Datatypes.S start)) as (ys & Hys & Hlen & Hnth).
    { intros i x' Hx'. destruct (Hf (Datatypes.S i) x' Hx') as [y' Hy'].
      exists y'. by replace (Datatypes.S start + i)%nat
                   with (start + Datatypes.S i)%nat by lia. }
    exists (y :: ys). split; [|split].
    + simpl. replace (start + 0)%nat with start in Hy by lia.
      rewrite Hy. simpl. rewrite Hys. done.
    + simpl. by rewrite Hlen.
    + intros [|i] x' y' Hx' Hy'; simplify_eq/=; [done|].
      replace (start + Datatypes.S i)%nat with (Datatypes.S start + i)%nat by lia.
      by apply Hnth.
Qed.

(** ** Rectangles in the quadrant of non-negative coordinates *)

Lemma count_pixels_full (m : ndarray) :
  0 <= shape0 m -> 0 <= shape1 m ->
  (forall r c, in_shape m r c = true -> item m r c <> 0) ->
  count_pixels m m None = inr (ravel_size m, ravel_size m).
Proof.
  intros H0 H1 Hset. unfold count_pixels.
  destruct (for_range_inv (fun i (st : Z * Z) => st = (i, i))
              (count_pixel m m) 0 (ravel_size m) (0, 0) eq_refl)
    as (st & -> & ->).
  - intros i st Hi ->. exists (i + 1, i + 1). split; [|done].
    unfold count_pixel. rewrite !ravel_get_in by lia. simpl.
    destruct (ravel_index (shape0 m) (shape1 m) i) as [Hr Hc];
      [done|done|unfold ravel_size in *; lia|].
    destruct (Z.eqb_spec (item m (i / shape1 m) (i mod shape1 m)) 0) as [Hz|];
      [|done].
    exfalso. revert Hz. apply Hset. apply in_shape_true. lia.
  - assert (0 <= ravel_size m) by (unfold ravel_size; nia).
    by rewrite Z.max_r by lia.
Qed.

Lemma overlap_value_full (n : Z) : 0 < n -> (overlap_value (n, n) == 1)%Q.
Proof.
  intros Hn. unfold overlap_value. rewrite (proj2 (Z.gtb_lt n 0)) by lia.
  apply Qmult_inv_r. unfold Qeq. simpl. lia.
Qed.

(** A rectangle of positive extents at non-negative coordinates overlaps
    itself with value 1, without a frame and with a frame that holds it. *)
Lemma self_overlap_rectangle_quadrant (intercept : Z -> Z -> Z -> Z -> Z -> Z)
    (x y w h : Z) (frame : option (Z * Z)) :
  0 <= x -> 0 <= y -> 0 < w -> 0 < h ->
  (forall fw fh, frame = Some (fw, fh) -> x + w <= fw /\ y + h <= fh) ->
  exists q,
    calculate_overlap intercept (Rectangle x y w h) (Rectangle x y w h)
      frame None = inr q /\ (q == 1)%Q.
Proof.
  intros Hx Hy Hw Hh Hframe. unfold calculate_overlap.
  rewrite (calculate_overlap_stages intercept (Rectangle x y w h)
             (Rectangle x y w h) frame None
             (x, y, x + w - 1, y + h - 1) (x, y, x + w - 1, y + h - 1)
             eq_refl eq_refl).
  unfold union_bounds. rewrite !Z.min_id, !Z.max_id.
  destruct (degenerate (x, y, x + w - 1, y + h - 1)) eqn:Hdeg.
  { exists 1%Q. split; done. }
  apply degenerate_false in Hdeg. cbv zeta.
  assert (clip_bounds frame (x, y, x + w - 1, y + h - 1)
          = (x, y, x + w - 1, y + h - 1)) as ->.
  { destruct frame as [[fw fh]|]; [|done]. simpl.
    destruct (Hframe fw fh eq_refl). f_equal; [f_equal; [f_equal|]|]; lia. }
  assert (degenerate (x, y, x + w - 1, y + h - 1) = false) as ->.
  { unfold degenerate. apply orb_false_iff. lia. }
  unfold _region_raster.
  destruct (rasterize_rectangle_quadrant x y w h x y (x + w - 1) (y + h - 1))
    as (m & -> & H0 & H1 & Hit); [lia|lia|lia|lia|].
  cbn [bind ret]. rewrite count_pixels_full.
  - cbn [bind ret]. exists (overlap_value (ravel_size m, ravel_size m)).
    split; [done|]. apply overlap_value_full. unfold ravel_size. nia.
  - lia.
  - lia.
  - intros r c Hrc. apply in_shape_true in Hrc. rewrite Hit by lia.
    assert (in_box x y w h (x + c) (y + r) = true) as ->; [|done].
    unfold in_box. rewrite !andb_true_iff. lia.
Qed.

(** ** Runs of the kernels *)

(** The right triangle with legs of four pixels is a staircase. *)
Example raster_of_triangle :
  rows_of (rasterize_polygon intercept_exact [(0, 0); (4, 0); (0, 4)] (0, 0, 4, 4))
  = inr [[1; 1; 1; 1; 1]; [1; 1; 1; 1; 0]; [1; 1; 1; 0; 0];
         [1; 1; 0; 0; 0]; [1; 0; 0; 0; 0]].
Proof. reflexivity. Qed.

(** A rectangle and the mask of its pixels have the same raster. *)
Example raster_of_rectangle_and_mask :
  rows_of (rasterize_rectangle (1, 1, 2, 2) (0, 0, 4, 3))
  = rows_of (copy_mask (of_rows [[1; 1]; [1; 1]]) (1, 1) (0, 0, 4, 3)).
Proof. reflexivity. Qed.

(** Two 10x10 rectangles that share a 5x5 corner: 25 / 175. *)
Example overlap_of_two_rectangles :
  calculate_overlap intercept_exact (Rectangle 0 0 10 10) (Rectangle 5 5 10 10)
    None None = inr (inject_Z 25 / inject_Z 175)%Q.
Proof. reflexivity. Qed.

(** * The claims *)

(** C1 (the code departs from it): the overlap of a region with itself is
    1.  The 5x5 rectangle at (-5, 0), compared with itself without a
    frame, gets 0: its raster on its own bounds (-5, 0, -1, 4) is empty,
    because [rasterize_rectangle] clips the right edge, a column of the
    raster, against the coordinate [bounds[2]] = -1. *)
Theorem self_overlap_left_of_origin (intercept : Z -> Z -> Z -> Z -> Z -> Z) :
  calculate_overlap intercept (Rectangle (-5) 0 5 5) (Rectangle (-5) 0 5 5)
    None None = inr 0%Q.
Proof. reflexivity. Qed.

(** C2 (the code departs from it): cell (row, col) of the raster of a
    rectangle is 1 iff pixel (left+col, top+row) lies in its pixel box.
    On the window (-5, 0, 4, 0) the rectangle (-5, 0, 10, 1) covers all
    ten pixels, yet the cell of column 5 is 0. *)
Theorem rasterize_rectangle_left_of_origin :
  exists mask,
    rasterize_rectangle (-5, 0, 10, 1) (-5, 0, 4, 0) = inr mask /\
    shape0 mask = 1 /\ shape1 mask = 10 /\
    in_box (-5) 0 10 1 (-5 + 5) (0 + 0) = true /\
    item mask 0 5 = 0.
Proof. eexists. split; [reflexivity|]. by vm_compute. Qed.

(** C3, as stated, fails: a mask without set pixels at offset (5, 5) has
    the bounds (5, 5, 5, 5), not (0, 0, 0, 0). *)
Lemma bounds_mask_dark_counterexample :
  ~ (forall (a : ndarray) (o : Z * Z),
       (forall r c, ~ lit a r c) -> _bounds_mask a o = inr (0, 0, 0, 0)).
Proof.
  intros H. specialize (H (of_rows [[0]]) (5, 5)).
  assert (forall r c, ~ lit (of_rows [[0]]) r c) as Hdark.
  { intros r c (Hr & Hc & Hne). simpl in *.
    assert (r = 0) as -> by lia. assert (c = 0) as -> by lia. by apply Hne. }
  specialize (H Hdark). vm_compute in H. discriminate.
Qed.

(** C3, amended: for a mask without set pixels the bounds are the box
    (0, 0, 0, 0) moved by the offset of the mask; for a mask with a set
    pixel, and sides that fit in an int32, they are the tight box of the
    set pixels moved by the offset. *)
Theorem bounds_mask_spec (a : ndarray) (o : Z * Z) :
  ((forall r c, ~ lit a r c) ->
   _bounds_mask a o = inr (0 + fst o, 0 + snd o, 0 + fst o, 0 + snd o)) /\
  (shape0 a <= ii32_max -> shape1 a <= ii32_max ->
   (exists r c, lit a r c) ->
   exists l t r b,
     tight_box a (l, t, r, b) /\
     _bounds_mask a o = inr (l + fst o, t + snd o, r + fst o, b + snd o)).
Proof.
  split.
  - intros Hdark. by rewrite (bounds_mask_dark a o Hdark).
  - intros H0 H1 Hlit.
    destruct (bounds_mask_lit a o H0 H1 Hlit) as (l & t & r & b & Hb & Ht).
    exists l, t, r, b. done.
Qed.

Lemma bounds_mask_spec_witness :
  _bounds_mask (of_rows [[0; 0]; [0; 0]]) (5, 7) = inr (0 + 5, 0 + 7, 0 + 5, 0 + 7) /\
  exists l t r b,
    tight_box (of_rows [[0; 0; 0]; [0; 1; 1]]) (l, t, r, b) /\
    _bounds_mask (of_rows [[0; 0; 0]; [0; 1; 1]]) (5, 7)
      = inr (l + 5, t + 7, r + 5, b + 7).
Proof.
  split.
  - apply (proj1 (bounds_mask_spec (of_rows [[0; 0]; [0; 0]]) (5, 7))).
    intros r c (Hr & Hc & Hne). simpl in *.
    assert (r = 0 \/ r = 1) as [-> | ->] by lia;
      (assert (c = 0 \/ c = 1) as [-> | ->] by lia); by apply Hne.
  - apply (proj2 (bounds_mask_spec (of_rows [[0; 0; 0]; [0; 1; 1]]) (5, 7))).
    + vm_compute. discriminate.
    + vm_compute. discriminate.
    + exists 1, 1. unfold lit. simpl. lia.
Defined.

Section Claims.

Variable intercept : Z -> Z -> Z -> Z -> Z -> Z.

(** The early return: when the union of the two bounding boxes has
    left >= right or top >= bottom, the overlap is 1, whatever the frame
    and the ignore region; so it is for two regions of the empty variant,
    and for two masks without set pixels at one offset. *)
Lemma overlap_degenerate_union :
  (forall a b frame ignore bounds1 bounds2,
     _region_bounds a = inr bounds1 -> _region_bounds b = inr bounds2 ->
     degenerate (union_bounds bounds1 bounds2) = true ->
     calculate_overlap intercept a b frame ignore = inr 1%Q) /\
  (forall frame ignore,
     calculate_overlap intercept Empty Empty frame ignore = inr 1%Q) /\
  (forall m m' o frame ignore,
     (forall r c, ~ lit m r c) -> (forall r c, ~ lit m' r c) ->
     calculate_overlap intercept (Mask m o) (Mask m' o) frame ignore = inr 1%Q).
Proof.
  assert (forall a b frame ignore bounds1 bounds2,
     _region_bounds a = inr bounds1 -> _region_bounds b = inr bounds2 ->
     degenerate (union_bounds bounds1 bounds2) = true ->
     calculate_overlap intercept a b frame ignore = inr 1%Q) as Hearly.
  { intros a b frame ignore bounds1 bounds2 H1 H2 Hdeg.
    unfold calculate_overlap.
    rewrite (calculate_overlap_stages intercept a b frame ignore _ _ H1 H2).
    by rewrite Hdeg. }
  split; [exact Hearly|]. split.
  - intros frame ignore. reflexivity.
  - intros m m' o frame ignore Hm Hm'.
    apply (Hearly _ _ frame ignore (fst o, snd o, fst o, snd o)
             (fst o, snd o, fst o, snd o)).
    + by apply bounds_mask_dark.
    + by apply bounds_mask_dark.
    + unfold degenerate, union_bounds.
      rewrite Z.min_id, Z.max_id. apply orb_true_iff. left. lia.
Qed.

(** C4 (the code departs from it): the overlap of two empty regions is
    1, whatever the frame and the ignore region.  Two masks without a
    set pixel at the offsets (0, 0) and (5, 5) have the bounds
    (0, 0, 0, 0) and (5, 5, 5, 5); their union (0, 0, 5, 5) is not
    degenerate, the early return is passed by, both rasters are dark and
    the zero union count gives 0.  Two rectangles without extent at
    (0, 0) and (10, 10) get 0 the same way. *)
Theorem overlap_empty_regions_apart :
  (forall r c, ~ lit (of_rows [[0]]) r c) /\
  _region_bounds (Mask (of_rows [[0]]) (0, 0)) = inr (0, 0, 0, 0) /\
  _region_bounds (Mask (of_rows [[0]]) (5, 5)) = inr (5, 5, 5, 5) /\
  degenerate (union_bounds (0, 0, 0, 0) (5, 5, 5, 5)) = false /\
  calculate_overlap intercept (Mask (of_rows [[0]]) (0, 0))
    (Mask (of_rows [[0]]) (5, 5)) None None = inr 0%Q /\
  calculate_overlap intercept (Rectangle 0 0 0 0) (Rectangle 10 10 0 0)
    None None = inr 0%Q.
Proof.
  split.
  { intros r c (Hr & Hc & Hset). simpl in Hr, Hc.
    assert (r = 0) as -> by lia. assert (c = 0) as -> by lia. by apply Hset. }
  repeat (split; [reflexivity|]). reflexivity.
Qed.

(** C5: exchanging the two regions does not change the overlap. *)
Theorem calculate_overlap_symmetric (a b : region) (frame : option (Z * Z))
    (ignore : option region) :
  calculate_overlap intercept a b frame ignore =
  calculate_overlap intercept b a frame ignore.
Proof.
  unfold calculate_overlap.
  destruct (region_bounds_total a) as [bounds1 H1].
  destruct (region_bounds_total b) as [bounds2 H2].
  rewrite (calculate_overlap_stages intercept a b frame ignore _ _ H1 H2).
  rewrite (calculate_overlap_stages intercept b a frame ignore _ _ H2 H1).
  rewrite (union_bounds_comm bounds2 bounds1).
  destruct (degenerate (union_bounds bounds1 bounds2)); [done|].
  cbv zeta.
  destruct (clip_bounds frame (union_bounds bounds1 bounds2))
    as [[[r0 r1] r2] r3] eqn:Hrb.
  destruct (degenerate (r0, r1, r2, r3)) eqn:Hdeg; [done|].
  apply degenerate_false in Hdeg.
  destruct (region_raster_returns intercept a r0 r1 r2 r3)
    as (m1 & -> & H10 & H11); [lia|lia|].
  destruct (region_raster_returns intercept b r0 r1 r2 r3)
    as (m2 & -> & H20 & H21); [lia|lia|].
  simpl.
  destruct (match ignore with
            | Some ig =>
                if negb (is_empty ig) then
                  let* m3 := _region_raster intercept ig (r0, r1, r2, r3) in
                  ret (Some m3)
                else ret None
            | None => ret None
            end) as [e|m3]; [done|].
  simpl. rewrite (count_pixels_sym m1 m2 m3); [done|].
  unfold ravel_size. congruence.
Qed.


(** C7, amended: when the union of the two bounding boxes is not
    degenerate and the raster of the ignore region, not of the empty
    variant, is non-zero on every pixel of the raster window, the overlap
    is 0. *)
Theorem overlap_ignore_all (a b ig : region) (frame : option (Z * Z))
    (union : Bounds) :
  union_window a b = inr union ->
  degenerate union = false ->
  is_empty ig = false ->
  covers intercept ig (clip_bounds frame union) ->
  calculate_overlap intercept a b frame (Some ig) = inr 0%Q.
Proof.
  intros Hunion Hnd Hig (m3 & Hm3 & Hset). unfold calculate_overlap.
  unfold union_window in Hunion.
  destruct (region_bounds_total a) as [bounds1 H1].
  destruct (region_bounds_total b) as [bounds2 H2].
  rewrite H1, H2 in Hunion. simpl in Hunion. injection Hunion as <-.
  rewrite (calculate_overlap_stages intercept a b frame _ _ _ H1 H2).
  rewrite Hnd. cbv zeta.
  destruct (clip_bounds frame (union_bounds bounds1 bounds2))
    as [[[r0 r1] r2] r3] eqn:Hrb.
  destruct (degenerate (r0, r1, r2, r3)) eqn:Hdeg; [done|].
  apply degenerate_false in Hdeg.
  destruct (region_raster_returns intercept a r0 r1 r2 r3)
    as (m1 & -> & H10 & H11); [lia|lia|].
  destruct (region_raster_returns intercept b r0 r1 r2 r3)
    as (m2 & -> & H20 & H21); [lia|lia|].
  destruct (region_raster_returns intercept ig r0 r1 r2 r3)
    as (m3' & Hm3' & H30 & H31); [lia|lia|].
  assert (m3' = m3) as -> by congruence.
  rewrite Hig, Hm3. cbn [negb bind ret].
  rewrite count_pixels_ignored; [done|lia|lia| |done].
  unfold ravel_size. congruence.
Qed.

End Claims.

Lemma overlap_degenerate_union_witness :
  _region_bounds (Rectangle 3 4 1 7) = inr (3, 4, 3, 10) /\
  _region_bounds (Mask (of_rows [[0; 1]; [0; 1]]) (2, 6)) = inr (3, 6, 3, 7) /\
  degenerate (union_bounds (3, 4, 3, 10) (3, 6, 3, 7)) = true /\
  calculate_overlap intercept_exact (Rectangle 3 4 1 7)
    (Mask (of_rows [[0; 1]; [0; 1]]) (2, 6)) (Some (2, 2))
    (Some (Rectangle 0 0 9 9)) = inr 1%Q.
Proof.
  split; [reflexivity|]. split; [reflexivity|]. split; [reflexivity|].
  apply (proj1 (overlap_degenerate_union intercept_exact)
           (Rectangle 3 4 1 7) (Mask (of_rows [[0; 1]; [0; 1]]) (2, 6))
           (Some (2, 2)) (Some (Rectangle 0 0 9 9)) (3, 4, 3, 10) (3, 6, 3, 7));
    reflexivity.
Defined.

(** C7, as stated, fails: two 1x1 rectangles at the origin and an ignore
    rectangle that is 1 on the single pixel of the raster window give the
    overlap 1, by the early return for a degenerate union. *)
Lemma overlap_ignore_all_counterexample :
  ~ (forall (a b ig : region) (frame : option (Z * Z)) (union : Bounds),
       union_window a b = inr union ->
       is_empty ig = false ->
       (exists m3,
          _region_raster intercept_exact ig (clip_bounds frame union) = inr m3 /\
          forall r c, in_shape m3 r c = true -> item m3 r c = 1) ->
       calculate_overlap intercept_exact a b frame (Some ig) = inr 0%Q).
Proof.
  intros H.
  specialize (H (Rectangle 0 0 1 1) (Rectangle 0 0 1 1) (Rectangle 0 0 1 1)
                None (0, 0, 0, 0) eq_refl eq_refl).
  assert (calculate_overlap intercept_exact (Rectangle 0 0 1 1)
            (Rectangle 0 0 1 1) None (Some (Rectangle 0 0 1 1)) = inr 0%Q) as H0.
  { apply H. eexists. split; [reflexivity|].
    intros r c Hrc. apply in_shape_true in Hrc. simpl in Hrc.
    assert (r = 0) as -> by lia. assert (c = 0) as -> by lia. reflexivity. }
  vm_compute in H0. discriminate.
Qed.

Lemma overlap_ignore_all_witness :
  union_window (Rectangle 0 0 2 2) (Rectangle 1 1 2 2) = inr (0, 0, 2, 2) /\
  degenerate (0, 0, 2, 2) = false /\
  is_empty (Rectangle 0 0 3 3) = false /\
  covers intercept_exact (Rectangle 0 0 3 3) (clip_bounds None (0, 0, 2, 2)) /\
  calculate_overlap intercept_exact (Rectangle 0 0 2 2) (Rectangle 1 1 2 2)
    None (Some (Rectangle 0 0 3 3)) = inr 0%Q.
Proof.
  assert (covers intercept_exact (Rectangle 0 0 3 3) (clip_bounds None (0, 0, 2, 2)))
    as Hcov.
  { eexists. split; [reflexivity|].
    intros r c Hrc. apply in_shape_true in Hrc. simpl in Hrc.
    assert (r = 0 \/ r = 1 \/ r = 2) as [-> | [-> | ->]] by lia;
      (assert (c = 0 \/ c = 1 \/ c = 2) as [-> | [-> | ->]] by lia);
      vm_compute; discriminate. }
  split; [reflexivity|]. split; [reflexivity|]. split; [reflexivity|].
  split; [exact Hcov|].
  apply (overlap_ignore_all intercept_exact (Rectangle 0 0 2 2)
           (Rectangle 1 1 2 2) (Rectangle 0 0 3 3) None (0, 0, 2, 2));
    [reflexivity|reflexivity|reflexivity|exact Hcov].
Defined.

(** C8: on a well-formed window, [copy_mask] returns a grid of the size
    of the window whose cell (row, col) is the item of the mask at pixel
    (left+col, top+row) when the mask extends to that pixel, and 0
    otherwise.  The items of the mask are uint8 values. *)
Theorem copy_mask_spec (mask : ndarray) (o0 o1 b0 b1 b2 b3 : Z) :
  b0 <= b2 -> b1 <= b3 -> uint8_items mask ->
  exists copy,
    copy_mask mask (o0, o1) (b0, b1, b2, b3) = inr copy /\
    shape0 copy = b3 - b1 + 1 /\ shape1 copy = b2 - b0 + 1 /\
    forall row col,
      0 <= row < b3 - b1 + 1 -> 0 <= col < b2 - b0 + 1 ->
      item copy row col =
        if in_shape mask (b1 + row - o1) (b0 + col - o0)
        then item mask (b1 + row - o1) (b0 + col - o0)
        else 0.
Proof.
  intros Hw Hh Hu8.
  destruct (copy_mask_items mask o0 o1 b0 b1 b2 b3) as (copy & Hc & H0 & H1 & Hit);
    [lia|lia|].
  exists copy. split; [done|]. split; [done|]. split; [done|].
  intros row col Hrow Hcol. rewrite (Hit row col Hrow Hcol).
  destruct (in_shape mask (b1 + row - o1) (b0 + col - o0)) eqn:Hsh; [|done].
  unfold to_uint8. apply Z.mod_small. by apply Hu8.
Qed.

Lemma copy_mask_spec_witness :
  2 <= 5 /\ 1 <= 3 /\ uint8_items (of_rows [[1; 0; 1]; [0; 255; 1]]) /\
  exists copy,
    copy_mask (of_rows [[1; 0; 1]; [0; 255; 1]]) (4, 2) (2, 1, 5, 3) = inr copy /\
    shape0 copy = 3 - 1 + 1 /\ shape1 copy = 5 - 2 + 1 /\
    forall row col,
      0 <= row < 3 - 1 + 1 -> 0 <= col < 5 - 2 + 1 ->
      item copy row col =
        if in_shape (of_rows [[1; 0; 1]; [0; 255; 1]]) (1 + row - 2) (2 + col - 4)
        then item (of_rows [[1; 0; 1]; [0; 255; 1]]) (1 + row - 2) (2 + col - 4)
        else 0.
Proof.
  assert (uint8_items (of_rows [[1; 0; 1]; [0; 255; 1]])) as Hu8.
  { intros r c Hrc. apply in_shape_true in Hrc. simpl in Hrc.
    assert (r = 0 \/ r = 1) as [-> | ->] by lia;
      (assert (c = 0 \/ c = 1 \/ c = 2) as [-> | [-> | ->]] by lia);
      simpl; lia. }
  split; [lia|]. split; [lia|]. split; [exact Hu8|].
  apply (copy_mask_spec (of_rows [[1; 0; 1]; [0; 255; 1]]) 4 2 2 1 5 3);
    [lia|lia|exact Hu8].
Defined.

Section ListClaims.

Variable intercept : Z -> Z -> Z -> Z -> Z -> Z.

(** C9: [calculate_overlaps] raises RegionException, and returns no
    list, exactly when the two lists differ in length or a list of ignore
    regions is given whose length differs from the first; otherwise it
    returns the overlaps of the pairs in the order of the lists. *)
Theorem calculate_overlaps_spec (first second : list region)
    (frame : option (Z * Z)) (ignore : option (list region)) :
  (calculate_overlaps intercept first second frame ignore = inl RegionException
   <-> length_mismatch first second ignore) /\
  (~ length_mismatch first second ignore ->
   exists qs,
     calculate_overlaps intercept first second frame ignore = inr qs /\
     length qs = length first /\
     forall i a b q,
       first !! i = Some a -> second !! i = Some b -> qs !! i = Some q ->
       calculate_overlap intercept a b frame (ignore_at ignore i) = inr q).
Proof.
  assert (~ length_mismatch first second ignore ->
   exists qs,
     calculate_overlaps intercept first second frame ignore = inr qs /\
     length qs = length first /\
     forall i a b q,
       first !! i = Some a -> second !! i = Some b -> qs !! i = Some q ->
       calculate_overlap intercept a b frame (ignore_at ignore i) = inr q) as Hok.
  { intros Hlen. unfold length_mismatch in Hlen.
    assert (length first = length second) as H12.
    { destruct (decide (length first = length second)); [done|].
      exfalso. apply Hlen. by left. }
    assert (length (zip first second) = length first) as Hzip.
    { rewrite length_zip_with. lia. }
    unfold calculate_overlaps.
    rewrite (proj2 (Nat.eqb_eq _ _) H12). simpl.
    destruct ignore as [ig|].
    - assert (length first = length ig) as H1i.
      { destruct (decide (length first = length ig)); [done|].
        exfalso. apply Hlen. right. exists ig. split; [done|]. lia. }
      rewrite (proj2 (Nat.eqb_eq _ _) H1i). simpl. unfold enumerate.
      destruct (mapM_indexed
                  (fun ip : Z * (region * region) =>
                     let '(i, pairs) := ip in
                     let* g := get1 ig i in
                     calculate_overlap intercept (fst pairs) (snd pairs) frame (Some g))
                  (zip first second) 0) as (qs & -> & Hlq & Hnth).
      { intros i [a b] Hab. simpl.
        destruct (get1_in ig (Z.of_nat i)) as (g & -> & _).
        { apply lookup_lt_Some in Hab. lia. }
        simpl. destruct (calculate_overlap_returns intercept a b frame (Some g))
          as (q & Hq & _). by exists q. }
      exists qs. split; [done|]. split; [lia|].
      intros i a b q Ha Hb Hq.
      assert (zip first second !! i = Some (a, b)) as Hab
        by (by apply lookup_zip_Some).
      specialize (Hnth i (a, b) q Hab Hq). simpl in Hnth.
      destruct (get1_in ig (Z.of_nat i)) as (g & Hg & Hg').
      { apply lookup_lt_Some in Ha. lia. }
      rewrite Hg in Hnth. simpl in Hnth.
      rewrite Nat2Z.id in Hg'. by rewrite Hg'.
    - unfold enumerate.
      destruct (mapM_indexed
                  (fun ip : Z * (region * region) =>
                     let '(i, pairs) := ip in
                     calculate_overlap intercept (fst pairs) (snd pairs) frame None)
                  (zip first second) 0) as (qs & -> & Hlq & Hnth).
      { intros i [a b] Hab. simpl.
        destruct (calculate_overlap_returns intercept a b frame None)
          as (q & Hq & _). by exists q. }
      exists qs. split; [done|]. split; [lia|].
      intros i a b q Ha Hb Hq.
      assert (zip first second !! i = Some (a, b)) as Hab
        by (by apply lookup_zip_Some).
      exact (Hnth i (a, b) q Hab Hq). }
  split; [|exact Hok]. split.
  - intros Hraise.
    destruct (decide (length first = length second)) as [H12|]; [|by left].
    destruct ignore as [ig|].
    + destruct (decide (length ig = length first)) as [H1i|];
        [|right; by exists ig].
      exfalso. destruct Hok as (qs & Hqs & _); [|congruence].
      intros [?|(l & [= <-] & ?)]; done.
    + exfalso. destruct Hok as (qs & Hqs & _); [|congruence].
      intros [?|(l & ? & ?)]; done.
  - intros [Hne|(l & -> & Hne)]; unfold calculate_overlaps.
    + by rewrite (proj2 (Nat.eqb_neq _ _) Hne).
    + destruct (Nat.eqb_spec (length first) (length second)); [|done].
      simpl. rewrite (proj2 (Nat.eqb_neq (length first) (length l))); [done|].
      lia.
Qed.

(** C10: on a well-formed window [rasterize_polygon] returns a grid of
    the size of the window: no read or write leaves the vertex array,
    the intercept array or the grid, and no loop fails to end.  A
    scanline produces at most as many intercepts as there are vertices. *)
Theorem rasterize_polygon_safe (data : list (Z * Z)) (b0 b1 b2 b3 : Z) :
  b0 <= b2 -> b1 <= b3 ->
  (exists mask,
     rasterize_polygon intercept data (b0, b1, b2, b3) = inr mask /\
     shape0 mask = b3 - b1 + 1 /\ shape1 mask = b2 - b0 + 1) /\
  (forall pixelY nodeX,
     length nodeX = length data ->
     exists nodes nodeX',
       build_nodes intercept (map (fun p => (fst p - b0, snd p - b1)) data)
         (Z.of_nat (length data)) pixelY nodeX = inr (nodes, nodeX') /\
       0 <= nodes <= Z.of_nat (length data) /\
       length nodeX' = length data).
Proof.
  intros Hw Hh. split.
  - apply rasterize_polygon_returns; lia.
  - intros pixelY nodeX Hlen.
    set (polygon := map (fun p => (fst p - b0, snd p - b1)) data).
    assert (length polygon = length data) as Hpoly by apply length_map.
    rewrite <- Hpoly. apply build_nodes_safe. congruence.
Qed.

End ListClaims.

Lemma rasterize_polygon_safe_witness :
  -1 <= 4 /\ 0 <= 4 /\
  (exists mask,
     rasterize_polygon intercept_exact [(0, 0); (4, 0); (0, 4)] (-1, 0, 4, 4)
       = inr mask /\
     shape0 mask = 4 - 0 + 1 /\ shape1 mask = 4 - -1 + 1) /\
  (forall pixelY nodeX,
     length nodeX = length [(0, 0); (4, 0); (0, 4)] ->
     exists nodes nodeX',
       build_nodes intercept_exact
         (map (fun p => (fst p - -1, snd p - 0)) [(0, 0); (4, 0); (0, 4)])
         (Z.of_nat (length [(0, 0); (4, 0); (0, 4)])) pixelY nodeX
         = inr (nodes, nodeX') /\
       0 <= nodes <= Z.of_nat (length [(0, 0); (4, 0); (0, 4)]) /\
       length nodeX' = length [(0, 0); (4, 0); (0, 4)]).
Proof.
  split; [lia|]. split; [lia|].
  apply (rasterize_polygon_safe intercept_exact [(0, 0); (4, 0); (0, 4)] (-1) 0 4 4);
    lia.
Defined.

Lemma calculate_overlaps_spec_witness :
  ~ length_mismatch [Rectangle 0 0 10 10; Empty] [Rectangle 5 5 10 10; Empty]
      (Some [Empty; Rectangle 0 0 3 3]) /\
  exists qs,
    calculate_overlaps intercept_exact [Rectangle 0 0 10 10; Empty]
      [Rectangle 5 5 10 10; Empty] (Some (20, 20))
      (Some [Empty; Rectangle 0 0 3 3]) = inr qs /\
    length qs = length [Rectangle 0 0 10 10; Empty] /\
    forall i a b q,
      [Rectangle 0 0 10 10; Empty] !! i = Some a ->
      [Rectangle 5 5 10 10; Empty] !! i = Some b -> qs !! i = Some q ->
      calculate_overlap intercept_exact a b (Some (20, 20))
        (ignore_at (Some [Empty; Rectangle 0 0 3 3]) i) = inr q.
Proof.
  assert (~ length_mismatch [Rectangle 0 0 10 10; Empty]
            [Rectangle 5 5 10 10; Empty] (Some [Empty; Rectangle 0 0 3 3])) as Hlen.
  { intros [H|(l & [= <-] & H)]; simpl in H; lia. }
  split; [exact Hlen|].
  apply (proj2 (calculate_overlaps_spec intercept_exact
                  [Rectangle 0 0 10 10; Empty] [Rectangle 5 5 10 10; Empty]
                  (Some (20, 20)) (Some [Empty; Rectangle 0 0 3 3]))).
  exact Hlen.
Defined.

(** ** Remarks on the conventions of the code *)

(** The sentinel of [mask_bounds]: a set pixel in the row [ii32_max]
    leaves [top] at its start value, and the mask is taken for one
    without set pixels. *)
Remark mask_bounds_sentinel_row :
  lit tall_mask ii32_max 0 /\ mask_bounds tall_mask = inr (0, 0, 0, 0).
Proof.
  split; [unfold lit, tall_mask, ii32_max; simpl; lia|].
  unfold mask_bounds.
  destruct (for_range_inv
              (fun i (st : Z * Z * Z * Z) =>
                 (i <= ii32_max -> st = scan_start) /\
                 (i = ii32_max + 1 -> st = (ii32_max, ii32_max, 0, 0)))
              (fun i st =>
                 for_range 0 (shape1 tall_mask) (fun j st =>
                   let '(top, bottom, left_, right_) := st in
                   let* v := getitem tall_mask i j in
                   if negb (v =? 0) then
                     ret (Z.min top i, Z.max bottom i, Z.min left_ j, Z.max right_ j)
                   else ret st) st)
              0 (shape0 tall_mask) (ii32_max, ii32_min, ii32_max, ii32_min))
    as (st & -> & _ & Hend).
  - split; [done|]. unfold ii32_max. lia.
  - intros i st Hi [Hst _]. simpl in Hi.
    rewrite Hst by lia. unfold for_range. simpl.
    rewrite getitem_in by (simpl; lia). simpl.
    destruct (Z.eqb_spec i ii32_max) as [->|Hne]; simpl.
    + eexists. split; [reflexivity|]. split; [unfold ii32_max; lia|].
      intros _. reflexivity.
    + eexists. split; [reflexivity|]. split; [done|]. lia.
  - rewrite Hend by (unfold tall_mask, ii32_max; simpl; lia). reflexivity.
Qed.

(** * Further properties of the kernels *)

(** ** The frame and the ignore region *)

Section FrameFacts.

Variable intercept : Z -> Z -> Z -> Z -> Z -> Z.

Lemma union_window_bounds (a b : region) (union : Bounds) :
  union_window a b = inr union ->
  exists bounds1 bounds2,
    _region_bounds a = inr bounds1 /\ _region_bounds b = inr bounds2 /\
    union = union_bounds bounds1 bounds2.
Proof.
  unfold union_window. intros Hu.
  destruct (region_bounds_total a) as [bounds1 H1].
  destruct (region_bounds_total b) as [bounds2 H2].
  rewrite H1, H2 in Hu. simpl in Hu. injection Hu as <-. eauto.
Qed.

(** An ignore raster that is 0 on every pixel lets every pixel count. *)
Lemma count_pixels_not_ignored (a1 a2 m3 : ndarray) :
  0 <= shape0 m3 -> 0 <= shape1 m3 -> ravel_size m3 = ravel_size a1 ->
  (forall r c, in_shape m3 r c = true -> item m3 r c = 0) ->
  count_pixels a1 a2 (Some m3) = count_pixels a1 a2 None.
Proof.
  intros H0 H1 Hsz Hzero. unfold count_pixels, for_range.
  apply for_loop_ext. intros i st Hi.
  rewrite ravel_get_in by lia. simpl.
  destruct (ravel_index (shape0 m3) (shape1 m3) i) as [Hr Hc];
    [done|done|unfold ravel_size in *; lia|].
  rewrite Hzero by (apply in_shape_true; lia). done.
Qed.

(** X1: a frame that holds the union of the two bounding boxes does not
    change the overlap. *)
Theorem overlap_frame_holding_union (a b : region) (ignore : option region)
    (fw fh l t r bt : Z) :
  union_window a b = inr (l, t, r, bt) ->
  0 <= l -> 0 <= t -> r <= fw - 1 -> bt <= fh - 1 ->
  calculate_overlap intercept a b (Some (fw, fh)) ignore =
  calculate_overlap intercept a b None ignore.
Proof.
  intros Hu Hl Ht Hr Hb.
  destruct (union_window_bounds a b _ Hu) as (bounds1 & bounds2 & H1 & H2 & Hun).
  unfold calculate_overlap.
  rewrite !(calculate_overlap_stages intercept a b _ ignore _ _ H1 H2).
  rewrite <- Hun. simpl clip_bounds.
  by rewrite (Z.max_r 0 l), (Z.max_r 0 t), (Z.min_r (fw - 1) r),
    (Z.min_r (fh - 1) bt) by lia.
Qed.

(** X2: two regions whose union is not degenerate but lies outside the
    frame, or meets it in one column or one row only, have overlap 0. *)
Theorem overlap_outside_frame (a b : region) (ignore : option region)
    (fw fh l t r bt : Z) :
  union_window a b = inr (l, t, r, bt) ->
  degenerate (l, t, r, bt) = false ->
  r <= 0 \/ fw - 1 <= l \/ bt <= 0 \/ fh - 1 <= t ->
  calculate_overlap intercept a b (Some (fw, fh)) ignore = inr 0%Q.
Proof.
  intros Hu Hnd Hout.
  destruct (union_window_bounds a b _ Hu) as (bounds1 & bounds2 & H1 & H2 & Hun).
  unfold calculate_overlap.
  rewrite (calculate_overlap_stages intercept a b _ ignore _ _ H1 H2).
  rewrite <- Hun, Hnd. cbv zeta. simpl clip_bounds.
  assert (degenerate (Z.max 0 l, Z.max 0 t, Z.min (fw - 1) r, Z.min (fh - 1) bt)
          = true) as ->; [|done].
  unfold degenerate. apply orb_true_iff. lia.
Qed.

(** X3: an ignore region of the empty variant, and one whose raster on
    the raster window is 0 everywhere, count like no ignore region. *)
Theorem overlap_ignore_nothing (a b ig : region) (frame : option (Z * Z))
    (union : Bounds) :
  union_window a b = inr union ->
  (is_empty ig = true \/
   exists m3, _region_raster intercept ig (clip_bounds frame union) = inr m3 /\
              forall r c, in_shape m3 r c = true -> item m3 r c = 0) ->
  calculate_overlap intercept a b frame (Some ig) =
  calculate_overlap intercept a b frame None.
Proof.
  intros Hu Hig.
  destruct (union_window_bounds a b _ Hu) as (bounds1 & bounds2 & H1 & H2 & ->).
  unfold calculate_overlap.
  rewrite !(calculate_overlap_stages intercept a b frame _ _ _ H1 H2).
  destruct (degenerate (union_bounds bounds1 bounds2)); [done|]. cbv zeta.
  destruct (clip_bounds frame (union_bounds bounds1 bounds2))
    as [[[r0 r1] r2] r3] eqn:Hrb.
  destruct (degenerate (r0, r1, r2, r3)) eqn:Hdeg; [done|].
  apply degenerate_false in Hdeg.
  destruct (region_raster_returns intercept a r0 r1 r2 r3)
    as (m1 & -> & H10 & H11); [lia|lia|].
  destruct (region_raster_returns intercept b r0 r1 r2 r3)
    as (m2 & -> & H20 & H21); [lia|lia|].
  cbn [bind ret].
  destruct Hig as [Hempty|(m3 & Hm3 & Hzero)].
  - by rewrite Hempty.
  - destruct (is_empty ig); [done|]. cbn [negb].
    rewrite Hm3. cbn [bind ret].
    destruct (region_raster_returns intercept ig r0 r1 r2 r3)
      as (m3' & Hm3' & H30 & H31); [lia|lia|].
    assert (m3' = m3) as -> by congruence.
    rewrite count_pixels_not_ignored; [done|lia|lia| |done].
    unfold ravel_size. congruence.
Qed.

End FrameFacts.

Lemma overlap_frame_holding_union_witness :
  union_window (Rectangle 2 3 4 4) (Polygon [(1, 1); (6, 1); (1, 6)])
    = inr (1, 1, 6, 6) /\
  0 <= 1 /\ 0 <= 1 /\ 6 <= 8 - 1 /\ 6 <= 7 - 1 /\
  calculate_overlap intercept_exact (Rectangle 2 3 4 4)
    (Polygon [(1, 1); (6, 1); (1, 6)]) (Some (8, 7)) (Some (Rectangle 1 1 2 2)) =
  calculate_overlap intercept_exact (Rectangle 2 3 4 4)
    (Polygon [(1, 1); (6, 1); (1, 6)]) None (Some (Rectangle 1 1 2 2)).
Proof.
  split; [reflexivity|]. split; [lia|]. split; [lia|]. split; [lia|].
  split; [lia|].
  apply (overlap_frame_holding_union intercept_exact (Rectangle 2 3 4 4)
           (Polygon [(1, 1); (6, 1); (1, 6)]) (Some (Rectangle 1 1 2 2))
           8 7 1 1 6 6); [reflexivity|lia|lia|lia|lia].
Defined.

Lemma overlap_outside_frame_witness :
  union_window (Rectangle 9 0 4 4) (Rectangle 10 2 5 5) = inr (9, 0, 14, 6) /\
  degenerate (9, 0, 14, 6) = false /\
  (14 <= 0 \/ 10 - 1 <= 9 \/ 6 <= 0 \/ 10 - 1 <= 0) /\
  calculate_overlap intercept_exact (Rectangle 9 0 4 4) (Rectangle 10 2 5 5)
    (Some (10, 10)) None = inr 0%Q.
Proof.
  split; [reflexivity|]. split; [reflexivity|]. split; [lia|].
  apply (overlap_outside_frame intercept_exact (Rectangle 9 0 4 4)
           (Rectangle 10 2 5 5) None 10 10 9 0 14 6);
    [reflexivity|reflexivity|lia].
Defined.

Lemma overlap_ignore_nothing_witness :
  union_window (Rectangle 0 0 3 3) (Rectangle 1 1 3 3) = inr (0, 0, 3, 3) /\
  (is_empty (Mask (of_rows [[0; 0]]) (1, 1)) = true \/
   exists m3,
     _region_raster intercept_exact (Mask (of_rows [[0; 0]]) (1, 1))
       (clip_bounds None (0, 0, 3, 3)) = inr m3 /\
     forall r c, in_shape m3 r c = true -> item m3 r c = 0) /\
  calculate_overlap intercept_exact (Rectangle 0 0 3 3) (Rectangle 1 1 3 3)
    None (Some (Mask (of_rows [[0; 0]]) (1, 1))) =
  calculate_overlap intercept_exact (Rectangle 0 0 3 3) (Rectangle 1 1 3 3)
    None None.
Proof.
  assert (exists m3,
     _region_raster intercept_exact (Mask (of_rows [[0; 0]]) (1, 1))
       (clip_bounds None (0, 0, 3, 3)) = inr m3 /\
     forall r c, in_shape m3 r c = true -> item m3 r c = 0) as Hzero.
  { eexists. split; [reflexivity|].
    intros r c Hrc. apply in_shape_true in Hrc. simpl in Hrc.
    assert (r = 0 \/ r = 1 \/ r = 2 \/ r = 3) as [-> | [-> | [-> | ->]]] by lia;
      (assert (c = 0 \/ c = 1 \/ c = 2 \/ c = 3)
        as [-> | [-> | [-> | ->]]] by lia); reflexivity. }
  split; [reflexivity|]. split; [right; exact Hzero|].
  apply (overlap_ignore_nothing intercept_exact (Rectangle 0 0 3 3)
           (Rectangle 1 1 3 3) (Mask (of_rows [[0; 0]]) (1, 1)) None (0, 0, 3, 3));
    [reflexivity|right; exact Hzero].
Defined.

(** ** A region against itself *)

Lemma ravel_index_of (w r c : Z) :
  0 <= c < w -> (r * w + c) / w = r /\ (r * w + c) mod w = c.
Proof.
  intros Hc. split.
  - rewrite Z.div_add_l by lia. rewrite Z.div_small by lia. lia.
  - rewrite Z.add_comm, Z.mod_add by lia. by apply Z.mod_small.
Qed.

(** On one raster the two counts agree. *)
Lemma count_pixels_self (m : ndarray) (a3 : option ndarray) :
  (forall m3, a3 = Some m3 -> ravel_size m3 = ravel_size m) ->
  exists c, count_pixels m m a3 = inr (c, c) /\ 0 <= c.
Proof.
  intros Hsz3.
  assert (forall body : Z -> Z * Z -> M (Z * Z),
            (forall i c, 0 <= i < ravel_size m -> 0 <= c ->
               exists c', body i (c, c) = inr (c', c') /\ 0 <= c') ->
            exists c, for_range 0 (ravel_size m) body (0, 0) = inr (c, c) /\
                      0 <= c) as Hloop.
  { intros body Hbody.
    destruct (for_range_inv
                (fun _ (st : Z * Z) => fst st = snd st /\ 0 <= fst st)
                body 0 (ravel_size m) (0, 0)) as ([c u] & Hrun & Hcu & Hc).
    - simpl. lia.
    - intros i [c u] Hi [Hcu Hc]. simpl in Hcu, Hc. subst u.
      destruct (Hbody i c Hi Hc) as (c' & -> & Hc').
      exists (c', c'). done.
    - simpl in Hcu. subst u. exists c. done. }
  assert (forall i c, 0 <= i < ravel_size m -> 0 <= c ->
            exists c', count_pixel m m i (c, c) = inr (c', c') /\ 0 <= c')
    as Hpixel.
  { intros i c Hi Hc. unfold count_pixel. rewrite !ravel_get_in by lia. simpl.
    destruct (negb (_ =? 0)); simpl; eexists; (split; [reflexivity|lia]). }
  unfold count_pixels. destruct a3 as [m3|].
  - apply Hloop. intros i c Hi Hc.
    rewrite ravel_get_in by (rewrite (Hsz3 m3); done). simpl.
    destruct (_ =? 0); [by apply Hpixel|]. exists c. done.
  - apply Hloop. intros i c Hi Hc. by apply Hpixel.
Qed.

(** With a set pixel the counts are positive. *)
Lemma count_pixels_self_lit (m : ndarray) (r0 c0 : Z) :
  in_shape m r0 c0 = true -> item m r0 c0 <> 0 ->
  exists c, count_pixels m m None = inr (c, c) /\ 0 < c.
Proof.
  intros Hin Hlit. apply in_shape_true in Hin.
  destruct (ravel_index_of (shape1 m) r0 c0) as [Hdiv Hmod]; [lia|].
  set (i0 := r0 * shape1 m + c0) in *.
  assert (0 <= i0 < ravel_size m) as Hi0 by (unfold i0, ravel_size; nia).
  unfold count_pixels.
  destruct (for_range_inv
              (fun i (st : Z * Z) =>
                 fst st = snd st /\ 0 <= fst st /\ (i0 < i -> 0 < fst st))
              (count_pixel m m) 0 (ravel_size m) (0, 0))
    as ([c u] & Hrun & Hcu & Hc & Hpos).
  - simpl. lia.
  - intros i [c u] Hi (Hcu & Hc & Hpos). simpl in Hcu, Hc, Hpos. subst u.
    unfold count_pixel. rewrite !ravel_get_in by lia. simpl.
    destruct (Z.eqb_spec (item m (i / shape1 m) (i mod shape1 m)) 0) as [Hz|Hnz];
      simpl; eexists; (split; [reflexivity|]); simpl.
    + split; [done|]. split; [done|]. intros Hlt.
      destruct (decide (i = i0)) as [->|]; [|apply Hpos; lia].
      rewrite Hdiv, Hmod in Hz. done.
    + lia.
  - simpl in Hcu, Hc, Hpos. subst u. exists c. split; [done|].
    apply Hpos. lia.
Qed.

Section SelfFacts.

Variable intercept : Z -> Z -> Z -> Z -> Z -> Z.

(** X4: the overlap of a region with itself is 1 or 0, for every frame
    and every ignore region. *)
Theorem self_overlap_one_or_zero (a : region) (frame : option (Z * Z))
    (ignore : option region) :
  exists q, calculate_overlap intercept a a frame ignore = inr q /\
            (q == 1 \/ q == 0)%Q.
Proof.
  destruct (region_bounds_total a) as [bounds1 H1]. unfold calculate_overlap.
  rewrite (calculate_overlap_stages intercept a a frame ignore _ _ H1 H1).
  destruct (degenerate (union_bounds bounds1 bounds1)).
  { exists 1%Q. split; [done|]. by left. }
  cbv zeta.
  destruct (clip_bounds frame (union_bounds bounds1 bounds1))
    as [[[r0 r1] r2] r3] eqn:Hrb.
  destruct (degenerate (r0, r1, r2, r3)) eqn:Hdeg.
  { exists 0%Q. split; [done|]. by right. }
  apply degenerate_false in Hdeg.
  destruct (region_raster_returns intercept a r0 r1 r2 r3)
    as (m1 & -> & H10 & H11); [lia|lia|].
  cbn [bind ret].
  assert (exists m3,
    match ignore with
    | Some ig =>
        if negb (is_empty ig) then
          let* m3 := _region_raster intercept ig (r0, r1, r2, r3) in
          ret (Some m3)
        else ret None
    | None => ret None
    end = inr m3 /\
    forall m, m3 = Some m -> ravel_size m = ravel_size m1) as (m3 & -> & Hm3).
  { destruct ignore as [ig|]; [|by exists None].
    destruct (negb (is_empty ig)); [|by exists None].
    destruct (region_raster_returns intercept ig r0 r1 r2 r3)
      as (m & -> & H30 & H31); [lia|lia|].
    exists (Some m). split; [done|]. intros ? [= <-].
    unfold ravel_size. congruence. }
  cbn [bind ret].
  destruct (count_pixels_self m1 m3 Hm3) as (c & -> & Hc).
  cbn [bind ret]. exists (overlap_value (c, c)). split; [done|].
  destruct (decide (c = 0)) as [->|Hne]; [by right|].
  left. apply overlap_value_full. lia.
Qed.

(** X5: a mask of uint8 items with a set pixel, whose sides fit in an
    int32, has the overlap 1 with itself. *)
Theorem self_overlap_mask (m : ndarray) (o : Z * Z) :
  uint8_items m -> shape0 m <= ii32_max -> shape1 m <= ii32_max ->
  (exists r c, lit m r c) ->
  exists q, calculate_overlap intercept (Mask m o) (Mask m o) None None = inr q /\
            (q == 1)%Q.
Proof.
  intros Hu8 Hs0 Hs1 Hlit. destruct o as [o0 o1].
  destruct (bounds_mask_lit m (o0, o1) Hs0 Hs1 Hlit)
    as (l & t & r & b & Hb & Hbox & (j & Hj) & _).
  simpl fst in Hb. simpl snd in Hb.
  unfold calculate_overlap.
  rewrite (calculate_overlap_stages intercept (Mask m (o0, o1)) (Mask m (o0, o1))
             None None _ _ Hb Hb).
  unfold union_bounds. rewrite !Z.min_id, !Z.max_id.
  destruct (degenerate (l + o0, t + o1, r + o0, b + o1)) eqn:Hdeg.
  { exists 1%Q. split; done. }
  cbv zeta. simpl clip_bounds. rewrite Hdeg.
  apply degenerate_false in Hdeg. unfold _region_raster.
  destruct (copy_mask_items m o0 o1 (l + o0) (t + o1) (r + o0) (b + o1))
    as (copy & -> & H0 & H1 & Hit); [lia|lia|].
  cbn [bind ret].
  destruct (Hbox t j Hj) as [Ht Hlr].
  destruct (count_pixels_self_lit copy 0 (j - l)) as (c & -> & Hc).
  - apply in_shape_true. lia.
  - rewrite Hit by lia.
    replace (t + o1 + 0 - o1) with t by lia.
    replace (l + o0 + (j - l) - o0) with j by lia.
    destruct Hj as (Hr & Hc & Hne).
    rewrite (proj2 (in_shape_true m t j)) by lia.
    unfold to_uint8. rewrite Z.mod_small; [done|].
    apply Hu8. apply in_shape_true. lia.
  - cbn [bind ret]. exists (overlap_value (c, c)). split; [done|].
    by apply overlap_value_full.
Qed.

(** X6: a rectangle of positive extents at non-negative coordinates,
    whose items and sums x + w and y + h float32 holds exactly, has the
    overlap 1 with itself, without a frame and with a frame that holds
    it. *)
Theorem self_overlap_rectangle (x y w h : Z) (frame : option (Z * Z)) :
  0 <= x -> 0 <= y -> 0 < w -> 0 < h ->
  f32_rectangle x y w h ->
  (forall fw fh, frame = Some (fw, fh) -> x + w <= fw /\ y + h <= fh) ->
  exists q,
    calculate_overlap intercept (Rectangle x y w h) (Rectangle x y w h)
      frame None = inr q /\ (q == 1)%Q.
Proof.
  intros Hx Hy Hw Hh _ Hframe. by apply self_overlap_rectangle_quadrant.
Qed.

End SelfFacts.

(** X7: on a well-formed window with left >= 0 and top >= 0, cell
    (row, col) of the raster of a rectangle whose items and sums x + w
    and y + h float32 holds exactly is 1 when pixel (left+col, top+row)
    lies in the pixel box of the rectangle, and 0 otherwise. *)
Theorem rectangle_raster_exact (x y w h b0 b1 b2 b3 : Z) :
  f32_rectangle x y w h ->
  0 <= b0 -> 0 <= b1 -> b0 <= b2 -> b1 <= b3 ->
  exists mask,
    rasterize_rectangle (x, y, w, h) (b0, b1, b2, b3) = inr mask /\
    shape0 mask = b3 - b1 + 1 /\ shape1 mask = b2 - b0 + 1 /\
    forall row col,
      0 <= row < b3 - b1 + 1 -> 0 <= col < b2 - b0 + 1 ->
      item mask row col = if in_box x y w h (b0 + col) (b1 + row) then 1 else 0.
Proof. intros _. apply rasterize_rectangle_quadrant. Qed.

Lemma self_overlap_mask_witness :
  uint8_items (of_rows [[0; 255; 0]; [1; 1; 0]]) /\
  shape0 (of_rows [[0; 255; 0]; [1; 1; 0]]) <= ii32_max /\
  shape1 (of_rows [[0; 255; 0]; [1; 1; 0]]) <= ii32_max /\
  (exists r c, lit (of_rows [[0; 255; 0]; [1; 1; 0]]) r c) /\
  exists q,
    calculate_overlap intercept_exact (Mask (of_rows [[0; 255; 0]; [1; 1; 0]]) (-4, 7))
      (Mask (of_rows [[0; 255; 0]; [1; 1; 0]]) (-4, 7)) None None = inr q /\
    (q == 1)%Q.
Proof.
  assert (uint8_items (of_rows [[0; 255; 0]; [1; 1; 0]])) as Hu8.
  { intros r c Hrc. apply in_shape_true in Hrc. simpl in Hrc.
    assert (r = 0 \/ r = 1) as [-> | ->] by lia;
      (assert (c = 0 \/ c = 1 \/ c = 2) as [-> | [-> | ->]] by lia);
      simpl; lia. }
  assert (exists r c, lit (of_rows [[0; 255; 0]; [1; 1; 0]]) r c) as Hlit.
  { exists 0, 1. unfold lit. simpl. lia. }
  split; [exact Hu8|]. split; [vm_compute; discriminate|].
  split; [vm_compute; discriminate|]. split; [exact Hlit|].
  apply (self_overlap_mask intercept_exact (of_rows [[0; 255; 0]; [1; 1; 0]]) (-4, 7));
    [exact Hu8|vm_compute; discriminate|vm_compute; discriminate|exact Hlit].
Defined.

Lemma self_overlap_rectangle_witness :
  0 <= 2 /\ 0 <= 3 /\ 0 < 4 /\ 0 < 5 /\ f32_rectangle 2 3 4 5 /\
  (forall fw fh, Some (6, 8) = Some (fw, fh) -> 2 + 4 <= fw /\ 3 + 5 <= fh) /\
  exists q,
    calculate_overlap intercept_exact (Rectangle 2 3 4 5) (Rectangle 2 3 4 5)
      (Some (6, 8)) None = inr q /\ (q == 1)%Q.
Proof.
  assert (forall fw fh : Z, Some (6, 8) = Some (fw, fh) ->
                            2 + 4 <= fw /\ 3 + 5 <= fh) as Hframe.
  { intros fw fh [= <- <-]. lia. }
  assert (f32_rectangle 2 3 4 5) as Hf32.
  { unfold f32_rectangle, f32_exact. lia. }
  do 4 (split; [lia|]). split; [exact Hf32|]. split; [exact Hframe|].
  apply (self_overlap_rectangle intercept_exact 2 3 4 5 (Some (6, 8)));
    [lia|lia|lia|lia|exact Hf32|exact Hframe].
Defined.

Lemma rectangle_raster_exact_witness :
  f32_rectangle (-3) 4 8 7 /\
  0 <= 2 /\ 0 <= 0 /\ 2 <= 9 /\ 0 <= 5 /\
  exists mask,
    rasterize_rectangle (-3, 4, 8, 7) (2, 0, 9, 5) = inr mask /\
    shape0 mask = 5 - 0 + 1 /\ shape1 mask = 9 - 2 + 1 /\
    forall row col,
      0 <= row < 5 - 0 + 1 -> 0 <= col < 9 - 2 + 1 ->
      item mask row col = if in_box (-3) 4 8 7 (2 + col) (0 + row) then 1 else 0.
Proof.
  assert (f32_rectangle (-3) 4 8 7) as Hf32.
  { unfold f32_rectangle, f32_exact. lia. }
  split; [exact Hf32|]. do 4 (split; [lia|]).
  apply (rectangle_raster_exact (-3) 4 8 7 2 0 9 5); [exact Hf32|lia..].
Defined.

(** ** Copies of masks *)

Lemma to_uint8_idem (v : Z) : to_uint8 (to_uint8 v) = to_uint8 v.
Proof. unfold to_uint8. by rewrite Z.mod_mod. Qed.

(** X8: cutting a window out of a copy of a mask, placed at the corner
    of the window it was copied to, gives what copying the mask to the
    inner window gives. *)
Theorem copy_mask_of_copy (mask : ndarray) (o0 o1 b0 b1 b2 b3 c0 c1 c2 c3 : Z) :
  b0 <= c0 -> c0 <= c2 -> c2 <= b2 -> b1 <= c1 -> c1 <= c3 -> c3 <= b3 ->
  exists copy1 copy2 direct,
    copy_mask mask (o0, o1) (b0, b1, b2, b3) = inr copy1 /\
    copy_mask copy1 (b0, b1) (c0, c1, c2, c3) = inr copy2 /\
    copy_mask mask (o0, o1) (c0, c1, c2, c3) = inr direct /\
    shape0 copy2 = shape0 direct /\ shape1 copy2 = shape1 direct /\
    forall row col,
      in_shape direct row col = true -> item copy2 row col = item direct row col.
Proof.
  intros Hb0 Hc0 Hc2 Hb1 Hc1 Hc3.
  destruct (copy_mask_items mask o0 o1 b0 b1 b2 b3)
    as (copy1 & E1 & S10 & S11 & I1); [lia|lia|].
  destruct (copy_mask_items copy1 b0 b1 c0 c1 c2 c3)
    as (copy2 & E2 & S20 & S21 & I2); [lia|lia|].
  destruct (copy_mask_items mask o0 o1 c0 c1 c2 c3)
    as (direct & E3 & S30 & S31 & I3); [lia|lia|].
  exists copy1, copy2, direct. repeat (split; [done || lia|]).
  intros row col Hin. apply in_shape_true in Hin.
  rewrite I2, I3 by lia.
  rewrite (proj2 (in_shape_true copy1 (c1 + row - b1) (c0 + col - b0))) by lia.
  rewrite I1 by lia.
  replace (b1 + (c1 + row - b1) - o1) with (c1 + row - o1) by lia.
  replace (b0 + (c0 + col - b0) - o0) with (c0 + col - o0) by lia.
  destruct (in_shape mask (c1 + row - o1) (c0 + col - o0)); [|done].
  apply to_uint8_idem.
Qed.

(** X9: on a well-formed window with left >= 0 and top >= 0, the raster
    of a rectangle whose items and sums x + w and y + h float32 holds
    exactly is the copy of the mask of its size that is 1 everywhere,
    placed at its corner. *)
Theorem rectangle_raster_as_mask (x y w h b0 b1 b2 b3 : Z) (ones : ndarray) :
  f32_rectangle x y w h ->
  0 <= b0 -> 0 <= b1 -> b0 <= b2 -> b1 <= b3 ->
  shape0 ones = h -> shape1 ones = w ->
  (forall r c, in_shape ones r c = true -> item ones r c = 1) ->
  exists m1 m2,
    rasterize_rectangle (x, y, w, h) (b0, b1, b2, b3) = inr m1 /\
    copy_mask ones (x, y) (b0, b1, b2, b3) = inr m2 /\
    shape0 m1 = shape0 m2 /\ shape1 m1 = shape1 m2 /\
    forall row col,
      in_shape m1 row col = true -> item m1 row col = item m2 row col.
Proof.
  intros _ H0 H1 Hw Hh Hs0 Hs1 Hones.
  destruct (rasterize_rectangle_quadrant x y w h b0 b1 b2 b3)
    as (m1 & E1 & S10 & S11 & I1); [lia|lia|lia|lia|].
  destruct (copy_mask_items ones x y b0 b1 b2 b3)
    as (m2 & E2 & S20 & S21 & I2); [lia|lia|].
  exists m1, m2. repeat (split; [done || lia|]).
  intros row col Hin. apply in_shape_true in Hin.
  rewrite I1, I2 by lia.
  destruct (in_shape ones (b1 + row - y) (b0 + col - x)) eqn:Hsh.
  - rewrite (Hones _ _ Hsh). apply in_shape_true in Hsh.
    assert (in_box x y w h (b0 + col) (b1 + row) = true) as ->; [|done].
    unfold in_box. rewrite !andb_true_iff. lia.
  - apply in_shape_false in Hsh.
    assert (in_box x y w h (b0 + col) (b1 + row) = false) as ->; [|done].
    unfold in_box. rewrite !andb_false_iff. lia.
Qed.

Lemma copy_mask_of_copy_witness :
  -2 <= 0 /\ 0 <= 3 /\ 3 <= 5 /\ 1 <= 2 /\ 2 <= 4 /\ 4 <= 6 /\
  exists copy1 copy2 direct,
    copy_mask (of_rows [[1; 0; 1]; [0; 1; 1]]) (2, 3) (-2, 1, 5, 6) = inr copy1 /\
    copy_mask copy1 (-2, 1) (0, 2, 3, 4) = inr copy2 /\
    copy_mask (of_rows [[1; 0; 1]; [0; 1; 1]]) (2, 3) (0, 2, 3, 4) = inr direct /\
    shape0 copy2 = shape0 direct /\ shape1 copy2 = shape1 direct /\
    forall row col,
      in_shape direct row col = true -> item copy2 row col = item direct row col.
Proof.
  repeat (split; [lia|]).
  apply (copy_mask_of_copy (of_rows [[1; 0; 1]; [0; 1; 1]]) 2 3 (-2) 1 5 6 0 2 3 4);
    lia.
Defined.

Lemma rectangle_raster_as_mask_witness :
  f32_rectangle 3 1 3 2 /\
  0 <= 0 /\ 0 <= 0 /\ 0 <= 4 /\ 0 <= 3 /\
  shape0 (of_rows [[1; 1; 1]; [1; 1; 1]]) = 2 /\
  shape1 (of_rows [[1; 1; 1]; [1; 1; 1]]) = 3 /\
  (forall r c, in_shape (of_rows [[1; 1; 1]; [1; 1; 1]]) r c = true ->
               item (of_rows [[1; 1; 1]; [1; 1; 1]]) r c = 1) /\
  exists m1 m2,
    rasterize_rectangle (3, 1, 3, 2) (0, 0, 4, 3) = inr m1 /\
    copy_mask (of_rows [[1; 1; 1]; [1; 1; 1]]) (3, 1) (0, 0, 4, 3) = inr m2 /\
    shape0 m1 = shape0 m2 /\ shape1 m1 = shape1 m2 /\
    forall row col,
      in_shape m1 row col = true -> item m1 row col = item m2 row col.
Proof.
  assert (forall r c, in_shape (of_rows [[1; 1; 1]; [1; 1; 1]]) r c = true ->
                      item (of_rows [[1; 1; 1]; [1; 1; 1]]) r c = 1) as Hones.
  { intros r c Hrc. apply in_shape_true in Hrc. simpl in Hrc.
    assert (r = 0 \/ r = 1) as [-> | ->] by lia;
      (assert (c = 0 \/ c = 1 \/ c = 2) as [-> | [-> | ->]] by lia);
      reflexivity. }
  assert (f32_rectangle 3 1 3 2) as Hf32.
  { unfold f32_rectangle, f32_exact. lia. }
  split; [exact Hf32|].
  do 4 (split; [lia|]). do 2 (split; [reflexivity|]). split; [exact Hones|].
  apply (rectangle_raster_as_mask 3 1 3 2 0 0 4 3 (of_rows [[1; 1; 1]; [1; 1; 1]]));
    [exact Hf32|lia|lia|lia|lia|reflexivity|reflexivity|exact Hones].
Defined.

(** ** Bounds of a polygon *)

Lemma f32_exact_fi32 (z : Z) : f32_exact z -> fi32_min <= z <= fi32_max.
Proof. unfold f32_exact, fi32_min, fi32_max. lia. Qed.

Lemma bounds_polygon_fold (a : list (Z * Z)) :
  forall t0 b0 l0 r0,
    let '(t, b, l, r) :=
      fold_left (fun st p =>
                   let '(top, bottom, left_, right_) := st in
                   (Z.min top (snd p), Z.max bottom (snd p),
                    Z.min left_ (fst p), Z.max right_ (fst p)))
                a (t0, b0, l0, r0) in
    (t <= t0 /\ b0 <= b /\ l <= l0 /\ r0 <= r) /\
    (forall p, p ∈ a -> l <= fst p <= r /\ t <= snd p <= b) /\
    (t = t0 \/ exists p, p ∈ a /\ snd p = t) /\
    (b = b0 \/ exists p, p ∈ a /\ snd p = b) /\
    (l = l0 \/ exists p, p ∈ a /\ fst p = l) /\
    (r = r0 \/ exists p, p ∈ a /\ fst p = r).
Proof.
  induction a as [|q a IH]; intros t0 b0 l0 r0; simpl.
  - split; [lia|]. split; [intros p Hp; by apply elem_of_nil in Hp|]. tauto.
  - specialize (IH (Z.min t0 (snd q)) (Z.max b0 (snd q))
                   (Z.min l0 (fst q)) (Z.max r0 (fst q))).
    destruct (fold_left _ a _) as [[[t b] l] r].
    destruct IH as (Hmono & Hall & Ht & Hb & Hl & Hr).
    split; [lia|]. split.
    { intros p Hp. apply elem_of_cons in Hp as [->|Hp]; [lia|by apply Hall]. }
    assert (forall P : Z * Z -> Prop,
              (exists p, p ∈ a /\ P p) -> exists p, p ∈ q :: a /\ P p) as Hin.
    { intros P (p & Hp & HP). exists p. split; [by apply list_elem_of_further|done]. }
    assert (q ∈ q :: a) as Hq by apply list_elem_of_here.
    repeat split.
    + destruct Ht as [->|Ht]; [|right; by apply Hin].
      destruct (Z.min_spec t0 (snd q)) as [[_ ->]|[_ ->]]; [by left|right; eauto].
    + destruct Hb as [->|Hb]; [|right; by apply Hin].
      destruct (Z.max_spec b0 (snd q)) as [[_ ->]|[_ ->]]; [right; eauto|by left].
    + destruct Hl as [->|Hl]; [|right; by apply Hin].
      destruct (Z.min_spec l0 (fst q)) as [[_ ->]|[_ ->]]; [by left|right; eauto].
    + destruct Hr as [->|Hr]; [|right; by apply Hin].
      destruct (Z.max_spec r0 (fst q)) as [[_ ->]|[_ ->]]; [right; eauto|by left].
Qed.

(** X10: for a polygon with a vertex, and coordinates that float32
    holds exactly, [_bounds_polygon] is the tight box of the vertices. *)
Theorem bounds_polygon_tight (a : list (Z * Z)) (l t r b : Z) :
  a <> [] ->
  (forall p, p ∈ a -> f32_exact (fst p) /\ f32_exact (snd p)) ->
  _bounds_polygon a = (l, t, r, b) ->
  (forall p, p ∈ a -> l <= fst p <= r /\ t <= snd p <= b) /\
  (exists p, p ∈ a /\ fst p = l) /\ (exists p, p ∈ a /\ snd p = t) /\
  (exists p, p ∈ a /\ fst p = r) /\ (exists p, p ∈ a /\ snd p = b).
Proof.
  intros Hne Hrange Hbounds. unfold _bounds_polygon in Hbounds.
  pose proof (bounds_polygon_fold a fi32_max fi32_min fi32_max fi32_min) as Hfold.
  destruct (fold_left _ a _) as [[[t' b'] l'] r'].
  injection Hbounds as -> -> -> ->.
  destruct Hfold as (_ & Hall & Ht & Hb & Hl & Hr).
  destruct a as [|q a]; [done|].
  assert (q ∈ q :: a) as Hq by apply list_elem_of_here.
  destruct (Hall q Hq) as [Hqx Hqy].
  destruct (Hrange q Hq) as [Hrx%f32_exact_fi32 Hry%f32_exact_fi32].
  split; [exact Hall|]. repeat split.
  - destruct Hl as [->|Hl]; [|done]. exists q. split; [done|lia].
  - destruct Ht as [->|Ht]; [|done]. exists q. split; [done|lia].
  - destruct Hr as [->|Hr]; [|done]. exists q. split; [done|lia].
  - destruct Hb as [->|Hb]; [|done]. exists q. split; [done|lia].
Qed.

Lemma bounds_polygon_tight_witness :
  [(3, -2); (-1, 5); (4, 4)] <> [] /\
  (forall p, p ∈ [(3, -2); (-1, 5); (4, 4)] ->
             f32_exact (fst p) /\ f32_exact (snd p)) /\
  _bounds_polygon [(3, -2); (-1, 5); (4, 4)] = (-1, -2, 4, 5) /\
  (forall p, p ∈ [(3, -2); (-1, 5); (4, 4)] ->
             -1 <= fst p <= 4 /\ -2 <= snd p <= 5) /\
  (exists p, p ∈ [(3, -2); (-1, 5); (4, 4)] /\ fst p = -1) /\
  (exists p, p ∈ [(3, -2); (-1, 5); (4, 4)] /\ snd p = -2) /\
  (exists p, p ∈ [(3, -2); (-1, 5); (4, 4)] /\ fst p = 4) /\
  (exists p, p ∈ [(3, -2); (-1, 5); (4, 4)] /\ snd p = 5).
Proof.
  assert (forall p, p ∈ [(3, -2); (-1, 5); (4, 4)] ->
            f32_exact (fst p) /\ f32_exact (snd p))
    as Hrange.
  { intros p Hp. unfold f32_exact.
    repeat (apply elem_of_cons in Hp as [->|Hp]; [simpl; lia|]).
    by apply elem_of_nil in Hp. }
  split; [discriminate|]. split; [exact Hrange|]. split; [reflexivity|].
  apply (bounds_polygon_tight [(3, -2); (-1, 5); (4, 4)] (-1) (-2) 4 5);
    [discriminate|exact Hrange|reflexivity].
Defined.

(** ** The bubble sort sorts *)

Lemma sort_nodes_sorted :
  forall (fuel : nat) (nodes i : Z) (nodeX : list Z),
    0 <= i -> nodes <= Z.of_nat (length nodeX) -> sorted_upto i nodeX ->
    (2 * inversions nodeX + Z.to_nat (nodes - i) <= fuel)%nat ->
    exists nodeX',
      sort_nodes fuel nodes i nodeX = inr nodeX' /\
      nodeX' ≡ₚ nodeX /\
      sorted_upto (nodes - 1) nodeX' /\
      forall k : nat, nodes <= Z.of_nat k -> nodeX' !! k = nodeX !! k.
Proof.
  induction fuel as [|fuel IH]; intros nodes i nodeX Hi Hn Hsorted Hfuel.
  - exists nodeX. simpl.
    destruct (Z.ltb_spec i (nodes - 1)); [lia|].
    split; [done|]. split; [done|]. split; [|done].
    intros k v v' Hk. apply Hsorted. lia.
  - simpl. destruct (Z.ltb_spec i (nodes - 1)) as [Hlt|Hge].
    2:{ exists nodeX. split; [done|]. split; [done|]. split; [|done].
        intros k v v' Hk. apply Hsorted. lia. }
    destruct (get1_in nodeX i) as (a & -> & Ha); [lia|].
    destruct (get1_in nodeX (i + 1)) as (b & -> & Hb); [lia|].
    simpl. replace (Z.to_nat (i + 1)) with (Datatypes.S (Z.to_nat i)) in Hb by lia.
    destruct (Z.gtb_spec a b) as [Hgt|Hle].
    + rewrite set1_in by lia. simpl.
      rewrite set1_in by (rewrite length_insert; lia). simpl.
      replace (Z.to_nat (i + 1)) with (Datatypes.S (Z.to_nat i)) by lia.
      set (l1 := <[Datatypes.S (Z.to_nat i) := a]> (<[Z.to_nat i := b]> nodeX)).
      destruct (swap_neighbours nodeX (Z.to_nat i) a b Ha Hb)
        as (pre & post & Hl & Hsw). fold l1 in Hsw.
      assert (inversions nodeX = Datatypes.S (inversions l1)) as Hinv.
      { rewrite Hsw. rewrite Hl at 1. apply inversions_swap. lia. }
      assert (l1 ≡ₚ nodeX) as Hperm.
      { rewrite Hsw, Hl. apply Permutation_app_head. apply perm_swap. }
      assert (forall k : nat, k <> Z.to_nat i -> k <> Datatypes.S (Z.to_nat i) ->
                              l1 !! k = nodeX !! k) as Hother.
      { intros k Hk1 Hk2. unfold l1.
        rewrite list_lookup_insert_ne by done.
        by rewrite list_lookup_insert_ne by done. }
      destruct (IH nodes (if negb (i =? 0) then i - 1 else i) l1)
        as (nodeX' & Hs & Hp' & Hsorted' & Hrest).
      * destruct (Z.eqb_spec i 0); simpl; lia.
      * unfold l1. rewrite !length_insert. lia.
      * intros k v v' Hk. rewrite !Hother.
        -- apply Hsorted. destruct (Z.eqb_spec i 0); simpl in Hk; lia.
        -- destruct (Z.eqb_spec i 0); simpl in Hk; lia.
        -- destruct (Z.eqb_spec i 0); simpl in Hk; lia.
        -- destruct (Z.eqb_spec i 0); simpl in Hk; lia.
        -- destruct (Z.eqb_spec i 0); simpl in Hk; lia.
      * destruct (Z.eqb_spec i 0); simpl; lia.
      * exists nodeX'. split; [done|]. split; [by rewrite Hp'|].
        split; [done|]. intros k Hk. rewrite Hrest by done.
        apply Hother; lia.
    + apply IH; try lia.
      intros k v v' Hk Hv Hv'.
      destruct (decide (k = Z.to_nat i)) as [->|Hne].
      * assert (v = a) as -> by congruence.
        assert (v' = b) as -> by congruence. lia.
      * apply (Hsorted k v v'); [lia|done|done].
Qed.

(** X11: the sort of the scanline returns the first [nodes] intercepts
    in ascending order; the array holds the same values as before, and
    the entries from position [nodes] on stay where they are. *)
Theorem sort_nodes_sorts (nodes : Z) (nodeX : list Z) :
  nodes <= Z.of_nat (length nodeX) ->
  exists nodeX',
    sort_nodes (sort_steps (Z.of_nat (length nodeX))) nodes 0 nodeX = inr nodeX' /\
    nodeX' ≡ₚ nodeX /\
    (forall (k : nat) (v v' : Z),
       Z.of_nat k + 1 < nodes ->
       nodeX' !! k = Some v -> nodeX' !! Datatypes.S k = Some v' -> v <= v') /\
    (forall k : nat, nodes <= Z.of_nat k -> nodeX' !! k = nodeX !! k).
Proof.
  intros Hn.
  destruct (sort_nodes_sorted (sort_steps (Z.of_nat (length nodeX))) nodes 0 nodeX)
    as (nodeX' & Hs & Hp & Hsorted & Hrest).
  - lia.
  - done.
  - intros k v v' Hk. lia.
  - pose proof (inversions_bound nodeX). unfold sort_steps. nia.
  - exists nodeX'. split; [done|]. split; [done|]. split; [|done].
    intros k v v' Hk. apply Hsorted. lia.
Qed.

Lemma sort_nodes_sorts_witness :
  3 <= Z.of_nat (length [7; -2; 5; 1]) /\
  exists nodeX',
    sort_nodes (sort_steps (Z.of_nat (length [7; -2; 5; 1]))) 3 0 [7; -2; 5; 1]
      = inr nodeX' /\
    nodeX' ≡ₚ [7; -2; 5; 1] /\
    (forall (k : nat) (v v' : Z),
       Z.of_nat k + 1 < 3 ->
       nodeX' !! k = Some v -> nodeX' !! Datatypes.S k = Some v' -> v <= v') /\
    (forall k : nat, 3 <= Z.of_nat k -> nodeX' !! k = [7; -2; 5; 1] !! k).
Proof.
  split; [simpl; lia|].
  apply (sort_nodes_sorts 3 [7; -2; 5; 1]). simpl. lia.
Defined.

(** ** What the rasters hold *)

(** What a loop body keeps, the loop keeps. *)
Lemma for_loop_keeps {S} (P : S -> Prop) (body : Z -> S -> M S) :
  (forall j s s', body j s = inr s' -> P s -> P s') ->
  forall (n : nat) (i : Z) (s s' : S),
    for_loop n i body s = inr s' -> P s -> P s'.
Proof.
  intros Hbody. induction n as [|n IH]; intros i s s' Hrun Hs.
  - simpl in Hrun. injection Hrun as <-. done.
  - simpl in Hrun. destruct (body i s) as [e|t] eqn:Ht; [done|].
    simpl in Hrun. apply (IH (i + 1) t s' Hrun). by apply (Hbody i s t).
Qed.

Lemma setitem_one_binary (m m' : ndarray) (i j : Z) :
  setitem m i j 1 = inr m' -> binary m -> binary m'.
Proof.
  unfold setitem. destruct (in_shape m i j); [|done].
  intros [= <-] Hm r c. simpl.
  destruct ((r =? i) && (c =? j)); [by right|apply Hm].
Qed.

Lemma fill_row_binary :
  forall (fuel : nat) (width nodes pixelY i : Z) (nodeX nodeX' : list Z)
         (mask mask' : ndarray),
    fill_row fuel width nodes pixelY i nodeX mask = inr (nodeX', mask') ->
    binary mask -> binary mask'.
Proof.
  induction fuel as [|fuel IH];
    intros width nodes pixelY i nodeX nodeX' mask mask' Hrun Hbin.
  - simpl in Hrun. destruct (i <? nodes - 1); [done|].
    injection Hrun as _ <-. done.
  - simpl in Hrun. destruct (i <? nodes - 1).
    2:{ injection Hrun as _ <-. done. }
    destruct (get1 nodeX i) as [e|a]; [done|]. simpl in Hrun.
    destruct (a >=? width).
    { injection Hrun as _ <-. done. }
    destruct (get1 nodeX (i + 1)) as [e|b]; [done|]. simpl in Hrun.
    destruct ((a =? b) && (i <? nodes - 2)).
    { by apply (IH _ _ _ _ _ _ _ _ Hrun). }
    destruct (b >=? 0).
    2:{ simpl in Hrun. by apply (IH _ _ _ _ _ _ _ _ Hrun). }
    destruct (if a <? 0 then set1 nodeX i 0 else ret nodeX) as [e|n1];
      [done|]. simpl in Hrun.
    destruct (if b >=? width then set1 n1 (i + 1) (width - 1) else ret n1)
      as [e|n2]; [done|]. simpl in Hrun.
    destruct (get1 n2 i) as [e|lo]; [done|]. simpl in Hrun.
    destruct (get1 n2 (i + 1)) as [e|hi]; [done|]. simpl in Hrun.
    destruct (for_range lo (hi + 1) (fun j mask => setitem mask pixelY j 1) mask)
      as [e|mask1] eqn:Hspan; [done|]. simpl in Hrun.
    apply (IH _ _ _ _ _ _ _ _ Hrun).
    revert Hspan Hbin. unfold for_range. apply for_loop_keeps.
    intros j s s'. apply setitem_one_binary.
Qed.

Section RasterFacts.

Variable intercept : Z -> Z -> Z -> Z -> Z -> Z.

Lemma rasterize_polygon_binary (data : list (Z * Z)) (bounds : Bounds)
    (mask : ndarray) :
  rasterize_polygon intercept data bounds = inr mask -> binary mask.
Proof.
  destruct bounds as [[[b0 b1] b2] b3]. unfold rasterize_polygon.
  destruct (np_zeros (b3 - b1 + 1) (b2 - b0 + 1)) as [e|zeros] eqn:Hz; [done|].
  simpl.
  set (polygon := map (fun p => (fst p - b0, snd p - b1)) data).
  destruct (for_range 0 (b3 - b1 + 1)
              (scan_row intercept polygon (Z.of_nat (length data)) (b2 - b0 + 1))
              (replicate (Z.to_nat (Z.of_nat (length data))) 0, zeros))
    as [e|[nodeX m]] eqn:Hrun; [done|].
  simpl. intros [= <-].
  assert (binary zeros) as Hzeros.
  { unfold np_zeros in Hz. destruct ((0 <=? _) && (0 <=? _)); [|done].
    injection Hz as <-. intros r c. by left. }
  revert Hrun. unfold for_range.
  intros Hrun.
  apply (for_loop_keeps (fun st : list Z * ndarray => binary (snd st))
           (scan_row intercept polygon (Z.of_nat (length data)) (b2 - b0 + 1))) in Hrun;
    [done| |done].
  intros pixelY [nX mk] [nX' mk'] Hrow Hmk. simpl in Hmk. simpl.
  unfold scan_row in Hrow.
  destruct (build_nodes intercept polygon (Z.of_nat (length data)) pixelY nX)
    as [e|[nodes nX1]]; [done|]. simpl in Hrow.
  destruct (sort_nodes (sort_steps (Z.of_nat (length data))) nodes 0 nX1)
    as [e|nX2]; [done|]. simpl in Hrow.
  by apply (fill_row_binary _ _ _ _ _ _ _ _ _ Hrow).
Qed.

(** X12: the items of a raster are uint8 values, and the raster of a
    rectangle, of a polygon and of the empty variant holds only 0 and 1. *)
Theorem region_raster_items (a : region) (b0 b1 b2 b3 : Z) (m : ndarray) :
  _region_raster intercept a (b0, b1, b2, b3) = inr m ->
  forall r c,
    in_shape m r c = true ->
    0 <= item m r c < 256 /\
    ((forall mk o, a <> Mask mk o) -> item m r c = 0 \/ item m r c = 1).
Proof.
  intros Hrun r c Hin.
  destruct a as [|x y w h|pts|mk o]; unfold _region_raster in Hrun.
  - unfold np_zeros in Hrun. destruct ((0 <=? _) && (0 <=? _)); [|done].
    injection Hrun as <-. simpl. split; [lia|]. by left.
  - assert (binary m) as Hbin.
    { unfold rasterize_rectangle in Hrun. unfold np_zeros in Hrun.
      destruct ((0 <=? _) && (0 <=? _)); [|done]. simpl in Hrun.
      destruct ((x >? b2) || (x + w - 1 <? b0) || (y >? b3) || (y + h - 1 <? b1)).
      - injection Hrun as <-. intros r' c'. by left.
      - injection Hrun as <-. intros r' c'. simpl.
        destruct (_ && _); [by right|by left]. }
    destruct (Hbin r c) as [-> | ->]; (split; [lia|]); [by left|by right].
  - pose proof (rasterize_polygon_binary pts _ m Hrun) as Hbin.
    destruct (Hbin r c) as [-> | ->]; (split; [lia|]); [by left|by right].
  - split; [|intros Hne; by destruct (Hne mk o)].
    destruct o as [o0 o1].
    destruct (decide (0 <= b3 - b1 + 1 /\ 0 <= b2 - b0 + 1)) as [[Hh Hw]|Hneg].
    + destruct (copy_mask_items mk o0 o1 b0 b1 b2 b3 Hh Hw)
        as (copy & Hc & H0 & H1 & Hit).
      assert (copy = m) as -> by congruence.
      apply in_shape_true in Hin. rewrite Hit by lia.
      destruct (in_shape mk _ _); [|lia].
      unfold to_uint8. apply Z.mod_pos_bound. lia.
    + exfalso. unfold copy_mask, np_zeros in Hrun.
      destruct (Z.leb_spec 0 (b3 - b1 + 1)), (Z.leb_spec 0 (b2 - b0 + 1));
        simpl in Hrun; try done. lia.
Qed.

(** X13: a polygon with at most one vertex has a raster without set
    pixels. *)
Theorem rasterize_polygon_few_vertices (data : list (Z * Z)) (b0 b1 b2 b3 : Z) :
  (length data <= 1)%nat -> b0 <= b2 -> b1 <= b3 ->
  exists mask,
    rasterize_polygon intercept data (b0, b1, b2, b3) = inr mask /\
    shape0 mask = b3 - b1 + 1 /\ shape1 mask = b2 - b0 + 1 /\
    forall r c, item mask r c = 0.
Proof.
  intros Hlen Hw Hh. unfold rasterize_polygon.
  rewrite np_zeros_ok by lia. simpl.
  set (polygon := map (fun p => (fst p - b0, snd p - b1)) data).
  assert (length polygon = length data) as Hpoly by apply length_map.
  rewrite <- Hpoly.
  set (zeros := mk_ndarray (b3 - b1 + 1) (b2 - b0 + 1) (fun _ _ => 0)).
  destruct (for_range_inv
              (fun _ (st : list Z * ndarray) =>
                 length (fst st) = length polygon /\ snd st = zeros)
              (scan_row intercept polygon (Z.of_nat (length polygon)) (b2 - b0 + 1))
              0 (b3 - b1 + 1)
              (replicate (Z.to_nat (Z.of_nat (length polygon))) 0, zeros))
    as ([nodeX mask] & -> & _ & Hmask).
  - cbn [fst snd]. split; [|done]. rewrite length_replicate. lia.
  - intros pixelY [nodeX mask] Hrow [HnX Hmk]. cbn [fst snd] in *. subst mask.
    unfold scan_row.
    destruct (build_nodes_safe intercept polygon pixelY nodeX HnX)
      as (nodes & nodeX1 & -> & Hnodes & Hlen1).
    cbn [bind ret].
    assert (nodes <= 1) as Hfew by lia.
    assert (forall fuel, sort_nodes fuel nodes 0 nodeX1 = inr nodeX1) as ->.
    { intros fuel. destruct fuel; simpl;
        by rewrite (proj2 (Z.ltb_ge 0 (nodes - 1))) by lia. }
    cbn [bind ret].
    assert (forall fuel,
              fill_row fuel (b2 - b0 + 1) nodes pixelY 0 nodeX1 zeros
              = inr (nodeX1, zeros)) as ->.
    { intros fuel. destruct fuel; simpl;
        by rewrite (proj2 (Z.ltb_ge 0 (nodes - 1))) by lia. }
    exists (nodeX1, zeros). done.
  - simpl in Hmask. subst mask. exists zeros. done.
Qed.

End RasterFacts.

Lemma region_raster_items_witness :
  _region_raster intercept_exact (Rectangle 1 1 2 2) (0, 0, 3, 3)
    = inr (setslice (mk_ndarray 4 4 (fun _ _ => 0)) 1 3 1 3 1) /\
  forall r c,
    in_shape (setslice (mk_ndarray 4 4 (fun _ _ => 0)) 1 3 1 3 1) r c = true ->
    0 <= item (setslice (mk_ndarray 4 4 (fun _ _ => 0)) 1 3 1 3 1) r c < 256 /\
    ((forall mk o, Rectangle 1 1 2 2 <> Mask mk o) ->
     item (setslice (mk_ndarray 4 4 (fun _ _ => 0)) 1 3 1 3 1) r c = 0 \/
     item (setslice (mk_ndarray 4 4 (fun _ _ => 0)) 1 3 1 3 1) r c = 1).
Proof.
  split; [reflexivity|].
  apply (region_raster_items intercept_exact (Rectangle 1 1 2 2) 0 0 3 3).
  reflexivity.
Defined.

Lemma rasterize_polygon_few_vertices_witness :
  (length [(3, 2)] <= 1)%nat /\ 0 <= 5 /\ 1 <= 4 /\
  exists mask,
    rasterize_polygon intercept_exact [(3, 2)] (0, 1, 5, 4) = inr mask /\
    shape0 mask = 4 - 1 + 1 /\ shape1 mask = 5 - 0 + 1 /\
    forall r c, item mask r c = 0.
Proof.
  split; [simpl; lia|]. split; [lia|]. split; [lia|].
  apply (rasterize_polygon_few_vertices intercept_exact [(3, 2)] 0 1 5 4);
    [simpl; lia|lia|lia].
Defined.

(** ** Masks moved together *)

(** The counts read the rasters inside their shape only. *)
Lemma count_pixels_ext (a1 a2 a1' a2' : ndarray) :
  0 <= shape0 a1 -> 0 <= shape1 a1 ->
  shape0 a1' = shape0 a1 -> shape1 a1' = shape1 a1 ->
  shape0 a2 = shape0 a1 -> shape1 a2 = shape1 a1 ->
  shape0 a2' = shape0 a1 -> shape1 a2' = shape1 a1 ->
  (forall r c, in_shape a1 r c = true -> item a1' r c = item a1 r c) ->
  (forall r c, in_shape a1 r c = true -> item a2' r c = item a2 r c) ->
  count_pixels a1' a2' None = count_pixels a1 a2 None.
Proof.
  intros H0 H1 S10 S11 S20 S21 S20' S21' I1 I2.
  unfold count_pixels, for_range.
  assert (ravel_size a1' = ravel_size a1) as -> by (unfold ravel_size; congruence).
  apply for_loop_ext. intros i [c u] Hi. unfold count_pixel.
  rewrite !ravel_get_in by (unfold ravel_size in *; nia).
  destruct (ravel_index (shape0 a1) (shape1 a1) i) as [Hr Hc];
    [done|done|unfold ravel_size in *; lia|].
  rewrite S11, S21, S21'.
  rewrite I1, I2 by (apply in_shape_true; lia). done.
Qed.

Lemma degenerate_shift (l t r b dx dy : Z) :
  degenerate (l + dx, t + dy, r + dx, b + dy) = degenerate (l, t, r, b).
Proof.
  unfold degenerate.
  destruct (Z.geb_spec (l + dx) (r + dx)), (Z.geb_spec l r),
    (Z.geb_spec (t + dy) (b + dy)), (Z.geb_spec t b); simpl; try done; lia.
Qed.

(** X14: without a frame, moving two masks by the same step does not
    change their overlap. *)
Theorem overlap_masks_moved (intercept : Z -> Z -> Z -> Z -> Z -> Z)
    (m1 m2 : ndarray) (o1x o1y o2x o2y dx dy : Z) :
  calculate_overlap intercept (Mask m1 (o1x + dx, o1y + dy))
    (Mask m2 (o2x + dx, o2y + dy)) None None =
  calculate_overlap intercept (Mask m1 (o1x, o1y)) (Mask m2 (o2x, o2y)) None None.
Proof.
  destruct (mask_bounds_total m1) as ([[[l1 t1] r1] b1] & Hb1).
  destruct (mask_bounds_total m2) as ([[[l2 t2] r2] b2] & Hb2).
  assert (forall m l t r b ox oy,
            mask_bounds m = inr (l, t, r, b) ->
            _region_bounds (Mask m (ox, oy)) = inr (l + ox, t + oy, r + ox, b + oy))
    as Hbounds.
  { intros m l t r b ox oy Hm. unfold _region_bounds, _bounds_mask.
    by rewrite Hm. }
  unfold calculate_overlap.
  rewrite (calculate_overlap_stages intercept _ _ None None _ _
             (Hbounds m1 _ _ _ _ (o1x + dx) (o1y + dy) Hb1)
             (Hbounds m2 _ _ _ _ (o2x + dx) (o2y + dy) Hb2)).
  rewrite (calculate_overlap_stages intercept _ _ None None _ _
             (Hbounds m1 _ _ _ _ o1x o1y Hb1) (Hbounds m2 _ _ _ _ o2x o2y Hb2)).
  unfold union_bounds, clip_bounds.
  set (L := Z.min (l1 + o1x) (l2 + o2x)). set (T := Z.min (t1 + o1y) (t2 + o2y)).
  set (R := Z.max (r1 + o1x) (r2 + o2x)). set (B := Z.max (b1 + o1y) (b2 + o2y)).
  replace (Z.min (l1 + (o1x + dx)) (l2 + (o2x + dx))) with (L + dx) by (unfold L; lia).
  replace (Z.min (t1 + (o1y + dy)) (t2 + (o2y + dy))) with (T + dy) by (unfold T; lia).
  replace (Z.max (r1 + (o1x + dx)) (r2 + (o2x + dx))) with (R + dx) by (unfold R; lia).
  replace (Z.max (b1 + (o1y + dy)) (b2 + (o2y + dy))) with (B + dy) by (unfold B; lia).
  rewrite degenerate_shift.
  destruct (degenerate (L, T, R, B)) eqn:Hdeg; [done|].
  apply degenerate_false in Hdeg. unfold _region_raster.
  destruct (copy_mask_items m1 o1x o1y L T R B)
    as (c1 & -> & S10 & S11 & I1); [lia|lia|].
  destruct (copy_mask_items m2 o2x o2y L T R B)
    as (c2 & -> & S20 & S21 & I2); [lia|lia|].
  destruct (copy_mask_items m1 (o1x + dx) (o1y + dy) (L + dx) (T + dy) (R + dx) (B + dy))
    as (c1' & -> & S10' & S11' & I1'); [lia|lia|].
  destruct (copy_mask_items m2 (o2x + dx) (o2y + dy) (L + dx) (T + dy) (R + dx) (B + dy))
    as (c2' & -> & S20' & S21' & I2'); [lia|lia|].
  cbn [bind ret].
  rewrite (count_pixels_ext c1 c2 c1' c2'); try lia; [done| |].
  - intros r c Hin. apply in_shape_true in Hin.
    rewrite I1, I1' by lia.
    replace (T + dy + r - (o1y + dy)) with (T + r - o1y) by lia.
    replace (L + dx + c - (o1x + dx)) with (L + c - o1x) by lia. done.
  - intros r c Hin. apply in_shape_true in Hin.
    rewrite I2, I2' by lia.
    replace (T + dy + r - (o2y + dy)) with (T + r - o2y) by lia.
    replace (L + dx + c - (o2x + dx)) with (L + c - o2x) by lia. done.
Qed.

(** ** The overlap of two rectangles *)

Lemma count_upto_ext (p q : Z -> bool) (n : nat) :
  (forall i, 0 <= i < Z.of_nat n -> p i = q i) ->
  count_upto p n = count_upto q n.
Proof.
  induction n as [|n IH]; intros Hpq; [done|].
  simpl. rewrite IH by (intros i Hi; apply Hpq; lia).
  by rewrite Hpq by lia.
Qed.

Lemma count_upto_app (p : Z -> bool) (n k : nat) :
  count_upto p (n + k) =
  count_upto p n + count_upto (fun j => p (Z.of_nat n + j)) k.
Proof.
  induction k as [|k IH].
  - simpl. rewrite Nat.add_0_r. lia.
  - replace (n + Datatypes.S k)%nat with (Datatypes.S (n + k)) by lia.
    simpl. rewrite IH.
    replace (Z.of_nat (n + k)) with (Z.of_nat n + Z.of_nat k) by lia. lia.
Qed.

Lemma count_upto_or (p q : Z -> bool) (n : nat) :
  count_upto (fun i => p i || q i) n =
  count_upto p n + count_upto q n - count_upto (fun i => p i && q i) n.
Proof.
  induction n as [|n IH]; simpl; [done|].
  rewrite IH. destruct (p (Z.of_nat n)), (q (Z.of_nat n)); simpl; lia.
Qed.

Lemma count_upto_scale (b : bool) (p : Z -> bool) (n : nat) :
  count_upto (fun j => b && p j) n = (if b then 1 else 0) * count_upto p n.
Proof.
  induction n as [|n IH]; simpl; [lia|].
  rewrite IH. destruct b, (p (Z.of_nat n)); simpl; lia.
Qed.

Lemma count_upto_interval (lo hi : Z) (n : nat) :
  count_upto (fun c => (lo <=? c) && (c <=? hi)) n = span lo hi (Z.of_nat n).
Proof.
  unfold span. induction n as [|n IH]; simpl count_upto; [lia|].
  rewrite IH.
  destruct (Z.leb_spec lo (Z.of_nat n)), (Z.leb_spec (Z.of_nat n) hi); simpl; lia.
Qed.

(** Counting over a raveled grid of [h] rows and [w] columns a property
    that holds on a set of rows and a set of columns. *)
Lemma count_upto_grid (rp cp : Z -> bool) (h w : nat) :
  (0 < w)%nat ->
  count_upto (fun i => rp (i / Z.of_nat w) && cp (i mod Z.of_nat w)) (h * w) =
  count_upto rp h * count_upto cp w.
Proof.
  intros Hw. induction h as [|h IH]; [done|].
  replace (Datatypes.S h * w)%nat with (h * w + w)%nat by lia.
  rewrite count_upto_app, IH.
  rewrite (count_upto_ext
             (fun j => rp ((Z.of_nat (h * w) + j) / Z.of_nat w) &&
                       cp ((Z.of_nat (h * w) + j) mod Z.of_nat w))
             (fun j => rp (Z.of_nat h) && cp j) w).
  - rewrite count_upto_scale. cbn [count_upto].
    destruct (rp (Z.of_nat h)); ring.
  - intros j Hj.
    destruct (ravel_index_of (Z.of_nat w) (Z.of_nat h) j) as [Hdiv Hmod]; [lia|].
    replace (Z.of_nat (h * w)) with (Z.of_nat h * Z.of_nat w) by lia.
    by rewrite Hdiv, Hmod.
Qed.

(** What the counting loop without an ignore region counts. *)
Lemma count_pixels_counted (a1 a2 : ndarray) :
  ravel_size a2 = ravel_size a1 ->
  count_pixels a1 a2 None =
  inr (count_upto (fun i => lit_at a1 i && lit_at a2 i) (Z.to_nat (ravel_size a1)),
       count_upto (fun i => lit_at a1 i || lit_at a2 i) (Z.to_nat (ravel_size a1))).
Proof.
  intros Hsz. unfold count_pixels.
  destruct (for_range_inv
              (fun i (st : Z * Z) =>
                 st = (count_upto (fun i => lit_at a1 i && lit_at a2 i) (Z.to_nat i),
                       count_upto (fun i => lit_at a1 i || lit_at a2 i) (Z.to_nat i)))
              (count_pixel a1 a2) 0 (ravel_size a1) (0, 0) eq_refl)
    as (st & -> & ->).
  - intros i st Hi ->. unfold count_pixel.
    rewrite !ravel_get_in by lia. cbn [bind ret].
    replace (Z.to_nat (i + 1)) with (Datatypes.S (Z.to_nat i)) by lia.
    cbn [count_upto]. rewrite Z2Nat.id by lia. unfold lit_at.
    destruct (negb (item a1 _ _ =? 0)), (negb (item a2 _ _ =? 0)); simpl;
      eexists; (split; [reflexivity|]); f_equal; lia.
  - destruct (Z.max_spec 0 (ravel_size a1)) as [[_ ->]|[Hneg ->]]; [done|].
    by replace (Z.to_nat (ravel_size a1)) with 0%nat by lia.
Qed.

(** The raster of a rectangle, read at a raveled index, is a property
    of the row and of the column. *)
Lemma lit_at_rectangle (x y w h b0 b1 b2 b3 : Z) (m : ndarray) (i : Z) :
  b0 <= b2 -> b1 <= b3 ->
  shape0 m = b3 - b1 + 1 -> shape1 m = b2 - b0 + 1 ->
  (forall row col,
     0 <= row < b3 - b1 + 1 -> 0 <= col < b2 - b0 + 1 ->
     item m row col = if in_box x y w h (b0 + col) (b1 + row) then 1 else 0) ->
  0 <= i < ravel_size m ->
  lit_at m i =
  ((y - b1 <=? i / shape1 m) && (i / shape1 m <=? y + h - 1 - b1)) &&
  ((x - b0 <=? i mod shape1 m) && (i mod shape1 m <=? x + w - 1 - b0)).
Proof.
  intros Hw Hh S0 S1 Hit Hi.
  destruct (ravel_index (shape0 m) (shape1 m) i) as [Hr Hc];
    [lia|lia|done|].
  unfold lit_at. rewrite Hit by lia. unfold in_box.
  set (r := i / shape1 m) in *. set (c := i mod shape1 m) in *.
  cases_lia.
Qed.

Lemma count_upto_box (rlo rhi clo chi : Z) (h w : nat) :
  (0 < w)%nat ->
  count_upto
    (fun i => ((rlo <=? i / Z.of_nat w) && (i / Z.of_nat w <=? rhi)) &&
              ((clo <=? i mod Z.of_nat w) && (i mod Z.of_nat w <=? chi)))
    (h * w) =
  span rlo rhi (Z.of_nat h) * span clo chi (Z.of_nat w).
Proof.
  intros Hw. rewrite <- !count_upto_interval.
  by apply (count_upto_grid (fun r => (rlo <=? r) && (r <=? rhi))
              (fun c => (clo <=? c) && (c <=? chi))).
Qed.

(** The two counts for the rasters of two rectangles on a window with
    left >= 0 and top >= 0: the pixels of the window in both boxes, and
    those in one of them. *)
Lemma rectangle_pair_counts (xa ya wa ha xb yb wb hb b0 b1 b2 b3 : Z)
    (ma mb : ndarray) :
  0 <= b0 -> 0 <= b1 -> b0 <= b2 -> b1 <= b3 ->
  rasterize_rectangle (xa, ya, wa, ha) (b0, b1, b2, b3) = inr ma ->
  rasterize_rectangle (xb, yb, wb, hb) (b0, b1, b2, b3) = inr mb ->
  let H := b3 - b1 + 1 in
  let W := b2 - b0 + 1 in
  let A := span (ya - b1) (ya + ha - 1 - b1) H *
           span (xa - b0) (xa + wa - 1 - b0) W in
  let B := span (yb - b1) (yb + hb - 1 - b1) H *
           span (xb - b0) (xb + wb - 1 - b0) W in
  let I := span (Z.max (ya - b1) (yb - b1))
                (Z.min (ya + ha - 1 - b1) (yb + hb - 1 - b1)) H *
           span (Z.max (xa - b0) (xb - b0))
                (Z.min (xa + wa - 1 - b0) (xb + wb - 1 - b0)) W in
  count_pixels ma mb None = inr (I, A + B - I).
Proof.
  intros H0 H1 Hw Hh Ea Eb H W A B I.
  destruct (rasterize_rectangle_quadrant xa ya wa ha b0 b1 b2 b3)
    as (ma' & Ea' & Sa0 & Sa1 & Ia); [lia|lia|lia|lia|].
  destruct (rasterize_rectangle_quadrant xb yb wb hb b0 b1 b2 b3)
    as (mb' & Eb' & Sb0 & Sb1 & Ib); [lia|lia|lia|lia|].
  assert (ma' = ma) as -> by congruence.
  assert (mb' = mb) as -> by congruence.
  assert (ravel_size mb = ravel_size ma) as Hsz
    by (unfold ravel_size; congruence).
  rewrite (count_pixels_counted ma mb Hsz).
  assert (Z.to_nat (ravel_size ma) = (Z.to_nat H * Z.to_nat W)%nat) as ->.
  { unfold ravel_size. rewrite Sa0, Sa1. apply Z2Nat.inj_mul; unfold H, W; lia. }
  assert (Z.of_nat (Z.to_nat W) = W) as HW by (unfold W; lia).
  assert (Z.of_nat (Z.to_nat H) = H) as HH by (unfold H; lia).
  assert (0 < Z.to_nat W)%nat as HWpos by (unfold W; lia).
  assert (forall i, 0 <= i < Z.of_nat (Z.to_nat H * Z.to_nat W) ->
                    0 <= i < ravel_size ma) as Hrange.
  { intros i Hi. unfold ravel_size. rewrite Sa0, Sa1. fold H W. nia. }
  assert (forall i, 0 <= i < Z.of_nat (Z.to_nat H * Z.to_nat W) ->
            lit_at ma i =
            ((ya - b1 <=? i / Z.of_nat (Z.to_nat W)) &&
             (i / Z.of_nat (Z.to_nat W) <=? ya + ha - 1 - b1)) &&
            ((xa - b0 <=? i mod Z.of_nat (Z.to_nat W)) &&
             (i mod Z.of_nat (Z.to_nat W) <=? xa + wa - 1 - b0))) as La.
  { intros i Hi. rewrite HW. unfold W. rewrite <- Sa1.
    apply (lit_at_rectangle xa ya wa ha b0 b1 b2 b3); auto. }
  assert (forall i, 0 <= i < Z.of_nat (Z.to_nat H * Z.to_nat W) ->
            lit_at mb i =
            ((yb - b1 <=? i / Z.of_nat (Z.to_nat W)) &&
             (i / Z.of_nat (Z.to_nat W) <=? yb + hb - 1 - b1)) &&
            ((xb - b0 <=? i mod Z.of_nat (Z.to_nat W)) &&
             (i mod Z.of_nat (Z.to_nat W) <=? xb + wb - 1 - b0))) as Lb.
  { intros i Hi. rewrite HW. unfold W. rewrite <- Sb1.
    apply (lit_at_rectangle xb yb wb hb b0 b1 b2 b3); auto.
    rewrite Hsz. auto. }
  assert (count_upto (fun i => lit_at ma i && lit_at mb i)
            (Z.to_nat H * Z.to_nat W) = I) as ->.
  { rewrite (count_upto_ext _
       (fun i =>
          ((Z.max (ya - b1) (yb - b1) <=? i / Z.of_nat (Z.to_nat W)) &&
           (i / Z.of_nat (Z.to_nat W) <=? Z.min (ya + ha - 1 - b1) (yb + hb - 1 - b1))) &&
          ((Z.max (xa - b0) (xb - b0) <=? i mod Z.of_nat (Z.to_nat W)) &&
           (i mod Z.of_nat (Z.to_nat W) <=? Z.min (xa + wa - 1 - b0) (xb + wb - 1 - b0))))).
    - rewrite count_upto_box by done. by rewrite HH, HW.
    - intros i Hi. rewrite La, Lb by done.
      set (r := i / Z.of_nat (Z.to_nat W)). set (c := i mod Z.of_nat (Z.to_nat W)).
      cases_lia. }
  rewrite count_upto_or.
  assert (count_upto (lit_at ma) (Z.to_nat H * Z.to_nat W) = A) as ->.
  { rewrite (count_upto_ext _ _ _ La).
    rewrite count_upto_box by done. by rewrite HH, HW. }
  assert (count_upto (lit_at mb) (Z.to_nat H * Z.to_nat W) = B) as ->.
  { rewrite (count_upto_ext _ _ _ Lb).
    rewrite count_upto_box by done. by rewrite HH, HW. }
  assert (count_upto (fun i => lit_at ma i && lit_at mb i)
            (Z.to_nat H * Z.to_nat W) = I) as ->; [|done].
  rewrite (count_upto_ext _
     (fun i =>
        ((Z.max (ya - b1) (yb - b1) <=? i / Z.of_nat (Z.to_nat W)) &&
         (i / Z.of_nat (Z.to_nat W) <=? Z.min (ya + ha - 1 - b1) (yb + hb - 1 - b1))) &&
        ((Z.max (xa - b0) (xb - b0) <=? i mod Z.of_nat (Z.to_nat W)) &&
         (i mod Z.of_nat (Z.to_nat W) <=? Z.min (xa + wa - 1 - b0) (xb + wb - 1 - b0))))).
  - rewrite count_upto_box by done. by rewrite HH, HW.
  - intros i Hi. rewrite La, Lb by done.
    set (r := i / Z.of_nat (Z.to_nat W)). set (c := i mod Z.of_nat (Z.to_nat W)).
    cases_lia.
Qed.

Section RectangleFacts.

Variable intercept : Z -> Z -> Z -> Z -> Z -> Z.

(** Two rectangles of positive extents at non-negative coordinates,
    with a union that is not degenerate and inside the frame. *)
Lemma overlap_rectangles_counts (xa ya wa ha xb yb wb hb : Z)
    (frame : option (Z * Z)) :
  0 <= xa -> 0 <= ya -> 0 <= xb -> 0 <= yb ->
  0 < wa -> 0 < ha -> 0 < wb -> 0 < hb ->
  (forall fw fh, frame = Some (fw, fh) ->
                 xa + wa <= fw /\ ya + ha <= fh /\ xb + wb <= fw /\ yb + hb <= fh) ->
  Z.min xa xb < Z.max (xa + wa - 1) (xb + wb - 1) ->
  Z.min ya yb < Z.max (ya + ha - 1) (yb + hb - 1) ->
  calculate_overlap intercept (Rectangle xa ya wa ha) (Rectangle xb yb wb hb)
    frame None =
  inr (overlap_value
         (Z.max 0 (Z.min (ya + ha) (yb + hb) - Z.max ya yb) *
          Z.max 0 (Z.min (xa + wa) (xb + wb) - Z.max xa xb),
          ha * wa + hb * wb -
          Z.max 0 (Z.min (ya + ha) (yb + hb) - Z.max ya yb) *
          Z.max 0 (Z.min (xa + wa) (xb + wb) - Z.max xa xb))).
Proof.
  intros Hxa Hya Hxb Hyb Hwa Hha Hwb Hhb Hframe Hux Huy.
  unfold calculate_overlap.
  rewrite (calculate_overlap_stages intercept (Rectangle xa ya wa ha)
             (Rectangle xb yb wb hb) frame None
             (xa, ya, xa + wa - 1, ya + ha - 1) (xb, yb, xb + wb - 1, yb + hb - 1)
             eq_refl eq_refl).
  unfold union_bounds.
  set (b0 := Z.min xa xb) in *. set (b1 := Z.min ya yb) in *.
  set (b2 := Z.max (xa + wa - 1) (xb + wb - 1)) in *.
  set (b3 := Z.max (ya + ha - 1) (yb + hb - 1)) in *.
  assert (degenerate (b0, b1, b2, b3) = false) as Hnd.
  { unfold degenerate. apply orb_false_iff. lia. }
  rewrite Hnd. cbv zeta.
  assert (clip_bounds frame (b0, b1, b2, b3) = (b0, b1, b2, b3)) as ->.
  { destruct frame as [[fw fh]|]; [|done]. simpl.
    destruct (Hframe fw fh eq_refl) as (? & ? & ? & ?).
    f_equal; [f_equal; [f_equal|]|]; lia. }
  rewrite Hnd. unfold _region_raster.
  destruct (rasterize_rectangle_returns (xa, ya, wa, ha) b0 b1 b2 b3)
    as (ma & Ea & _); [lia|lia|].
  destruct (rasterize_rectangle_returns (xb, yb, wb, hb) b0 b1 b2 b3)
    as (mb & Eb & _); [lia|lia|].
  rewrite Ea, Eb. cbn [bind ret].
  rewrite (rectangle_pair_counts xa ya wa ha xb yb wb hb b0 b1 b2 b3 ma mb);
    [|lia|lia|lia|lia|done|done].
  cbn [bind ret]. do 2 f_equal.
  assert (span (ya - b1) (ya + ha - 1 - b1) (b3 - b1 + 1) = ha) as ->
    by (unfold span; lia).
  assert (span (xa - b0) (xa + wa - 1 - b0) (b2 - b0 + 1) = wa) as ->
    by (unfold span; lia).
  assert (span (yb - b1) (yb + hb - 1 - b1) (b3 - b1 + 1) = hb) as ->
    by (unfold span; lia).
  assert (span (xb - b0) (xb + wb - 1 - b0) (b2 - b0 + 1) = wb) as ->
    by (unfold span; lia).
  assert (span (Z.max (ya - b1) (yb - b1))
               (Z.min (ya + ha - 1 - b1) (yb + hb - 1 - b1)) (b3 - b1 + 1)
          = Z.max 0 (Z.min (ya + ha) (yb + hb) - Z.max ya yb)) as ->
    by (unfold span; lia).
  assert (span (Z.max (xa - b0) (xb - b0))
               (Z.min (xa + wa - 1 - b0) (xb + wb - 1 - b0)) (b2 - b0 + 1)
          = Z.max 0 (Z.min (xa + wa) (xb + wb) - Z.max xa xb)) as ->
    by (unfold span; lia).
  done.
Qed.

(** X15: for two rectangles of positive extents at non-negative
    coordinates, whose items and sums x + w and y + h float32 holds
    exactly, inside the frame when there is one, whose union spans at
    least two columns and two rows, the overlap is the area of the
    intersection of the two pixel boxes over the area of their union. *)
Theorem overlap_rectangles (xa ya wa ha xb yb wb hb : Z)
    (frame : option (Z * Z)) :
  0 <= xa -> 0 <= ya -> 0 <= xb -> 0 <= yb ->
  0 < wa -> 0 < ha -> 0 < wb -> 0 < hb ->
  f32_rectangle xa ya wa ha -> f32_rectangle xb yb wb hb ->
  (forall fw fh, frame = Some (fw, fh) ->
                 xa + wa <= fw /\ ya + ha <= fh /\ xb + wb <= fw /\ yb + hb <= fh) ->
  Z.min xa xb < Z.max (xa + wa - 1) (xb + wb - 1) ->
  Z.min ya yb < Z.max (ya + ha - 1) (yb + hb - 1) ->
  calculate_overlap intercept (Rectangle xa ya wa ha) (Rectangle xb yb wb hb)
    frame None =
  inr (overlap_value
         (Z.max 0 (Z.min (ya + ha) (yb + hb) - Z.max ya yb) *
          Z.max 0 (Z.min (xa + wa) (xb + wb) - Z.max xa xb),
          ha * wa + hb * wb -
          Z.max 0 (Z.min (ya + ha) (yb + hb) - Z.max ya yb) *
          Z.max 0 (Z.min (xa + wa) (xb + wb) - Z.max xa xb))).
Proof.
  intros Hxa Hya Hxb Hyb Hwa Hha Hwb Hhb _ _ Hframe Hux Huy.
  by apply overlap_rectangles_counts.
Qed.

(** X16: two rectangles of positive extents at non-negative
    coordinates, whose items and sums x + w and y + h float32 holds
    exactly, inside the frame when there is one, whose union spans at
    least two columns and two rows, and whose pixel boxes share no
    pixel, have the overlap 0. *)
Theorem overlap_rectangles_disjoint (xa ya wa ha xb yb wb hb : Z)
    (frame : option (Z * Z)) :
  0 <= xa -> 0 <= ya -> 0 <= xb -> 0 <= yb ->
  0 < wa -> 0 < ha -> 0 < wb -> 0 < hb ->
  f32_rectangle xa ya wa ha -> f32_rectangle xb yb wb hb ->
  (forall fw fh, frame = Some (fw, fh) ->
                 xa + wa <= fw /\ ya + ha <= fh /\ xb + wb <= fw /\ yb + hb <= fh) ->
  Z.min xa xb < Z.max (xa + wa - 1) (xb + wb - 1) ->
  Z.min ya yb < Z.max (ya + ha - 1) (yb + hb - 1) ->
  xa + wa <= xb \/ xb + wb <= xa \/ ya + ha <= yb \/ yb + hb <= ya ->
  exists q,
    calculate_overlap intercept (Rectangle xa ya wa ha) (Rectangle xb yb wb hb)
      frame None = inr q /\ (q == 0)%Q.
Proof.
  intros Hxa Hya Hxb Hyb Hwa Hha Hwb Hhb _ _ Hframe Hux Huy Hdis.
  rewrite overlap_rectangles_counts by done.
  eexists. split; [reflexivity|].
  assert (Z.max 0 (Z.min (ya + ha) (yb + hb) - Z.max ya yb) *
          Z.max 0 (Z.min (xa + wa) (xb + wb) - Z.max xa xb) = 0) as -> by nia.
  unfold overlap_value. destruct (_ >? 0); [|done].
  unfold Qdiv. change (inject_Z 0) with 0%Q. apply Qmult_0_l.
Qed.

End RectangleFacts.

Lemma overlap_rectangles_witness :
  0 <= 0 /\ 0 <= 0 /\ 0 <= 5 /\ 0 <= 5 /\
  0 < 10 /\ 0 < 10 /\ 0 < 10 /\ 0 < 10 /\
  f32_rectangle 0 0 10 10 /\ f32_rectangle 5 5 10 10 /\
  (forall fw fh, Some (15, 20) = Some (fw, fh) ->
                 0 + 10 <= fw /\ 0 + 10 <= fh /\ 5 + 10 <= fw /\ 5 + 10 <= fh) /\
  Z.min 0 5 < Z.max (0 + 10 - 1) (5 + 10 - 1) /\
  Z.min 0 5 < Z.max (0 + 10 - 1) (5 + 10 - 1) /\
  calculate_overlap intercept_exact (Rectangle 0 0 10 10) (Rectangle 5 5 10 10)
    (Some (15, 20)) None =
  inr (overlap_value
         (Z.max 0 (Z.min (0 + 10) (5 + 10) - Z.max 0 5) *
          Z.max 0 (Z.min (0 + 10) (5 + 10) - Z.max 0 5),
          10 * 10 + 10 * 10 -
          Z.max 0 (Z.min (0 + 10) (5 + 10) - Z.max 0 5) *
          Z.max 0 (Z.min (0 + 10) (5 + 10) - Z.max 0 5))).
Proof.
  assert (forall fw fh : Z, Some (15, 20) = Some (fw, fh) ->
            0 + 10 <= fw /\ 0 + 10 <= fh /\ 5 + 10 <= fw /\ 5 + 10 <= fh)
    as Hframe.
  { intros fw fh [= <- <-]. lia. }
  assert (f32_rectangle 0 0 10 10) as Hfa.
  { unfold f32_rectangle, f32_exact. lia. }
  assert (f32_rectangle 5 5 10 10) as Hfb.
  { unfold f32_rectangle, f32_exact. lia. }
  do 8 (split; [lia|]). split; [exact Hfa|]. split; [exact Hfb|].
  split; [exact Hframe|]. split; [lia|]. split; [lia|].
  apply (overlap_rectangles intercept_exact 0 0 10 10 5 5 10 10 (Some (15, 20)));
    [lia|lia|lia|lia|lia|lia|lia|lia|exact Hfa|exact Hfb|exact Hframe|lia|lia].
Defined.

Lemma overlap_rectangles_disjoint_witness :
  0 <= 0 /\ 0 <= 0 /\ 0 <= 4 /\ 0 <= 1 /\
  0 < 3 /\ 0 < 3 /\ 0 < 2 /\ 0 < 5 /\
  f32_rectangle 0 0 3 3 /\ f32_rectangle 4 1 2 5 /\
  (forall fw fh, None = Some (fw, fh) ->
                 0 + 3 <= fw /\ 0 + 3 <= fh /\ 4 + 2 <= fw /\ 1 + 5 <= fh) /\
  Z.min 0 4 < Z.max (0 + 3 - 1) (4 + 2 - 1) /\
  Z.min 0 1 < Z.max (0 + 3 - 1) (1 + 5 - 1) /\
  (0 + 3 <= 4 \/ 4 + 2 <= 0 \/ 0 + 3 <= 1 \/ 1 + 5 <= 0) /\
  exists q,
    calculate_overlap intercept_exact (Rectangle 0 0 3 3) (Rectangle 4 1 2 5)
      None None = inr q /\ (q == 0)%Q.
Proof.
  assert (forall fw fh : Z, None = Some (fw, fh) ->
            0 + 3 <= fw /\ 0 + 3 <= fh /\ 4 + 2 <= fw /\ 1 + 5 <= fh) as Hframe.
  { intros fw fh [=]. }
  assert (f32_rectangle 0 0 3 3) as Hfa.
  { unfold f32_rectangle, f32_exact. lia. }
  assert (f32_rectangle 4 1 2 5) as Hfb.
  { unfold f32_rectangle, f32_exact. lia. }
  do 8 (split; [lia|]). split; [exact Hfa|]. split; [exact Hfb|].
  split; [exact Hframe|]. split; [lia|]. split; [lia|]. split; [lia|].
  apply (overlap_rectangles_disjoint intercept_exact 0 0 3 3 4 1 2 5 None);
    [lia|lia|lia|lia|lia|lia|lia|lia|exact Hfa|exact Hfb|exact Hframe|lia|lia|lia].
Defined.

(** ** The raster of a polygon stays in the box of its vertices *)

Lemma intercept_exact_between : intercept_between intercept_exact.
Proof.
  intros xi yi r k pixelY Hr HY. unfold intercept_exact.
  set (n := xi * r + (pixelY - yi) * k).
  pose proof (Z.quot_rem' n r) as Hqr.
  pose proof (Z.rem_bound_abs n r Hr) as Hrem.
  set (q := Z.quot n r) in *. set (m := Z.rem n r) in *.
  assert (Hn : n = xi * r + (pixelY - yi) * k) by reflexivity.
  clearbody n q m.
  destruct (Z.lt_trichotomy r 0) as [Hneg|[?|Hpos]]; [|lia|].
  - assert (r <= pixelY - yi <= 0) as Hd by lia.
    destruct (Z.le_ge_cases 0 k).
    + assert (Z.min xi (xi + k) = xi) as -> by lia.
      assert (Z.max xi (xi + k) = xi + k) as -> by lia. nia.
    + assert (Z.min xi (xi + k) = xi + k) as -> by lia.
      assert (Z.max xi (xi + k) = xi) as -> by lia. nia.
  - assert (0 <= pixelY - yi <= r) as Hd by lia.
    destruct (Z.le_ge_cases 0 k).
    + assert (Z.min xi (xi + k) = xi) as -> by lia.
      assert (Z.max xi (xi + k) = xi + k) as -> by lia. nia.
    + assert (Z.min xi (xi + k) = xi + k) as -> by lia.
      assert (Z.max xi (xi + k) = xi) as -> by lia. nia.
Qed.

Lemma get1_inv {A} (l : list A) (i : Z) (v : A) :
  get1 l i = inr v -> 0 <= i /\ l !! Z.to_nat i = Some v.
Proof.
  unfold get1. destruct (Z.leb_spec 0 i); [|done].
  destruct (l !! Z.to_nat i); [|done]. intros [= ->]. done.
Qed.

Lemma set1_inv {A} (l l' : list A) (i : Z) (v : A) :
  set1 l i v = inr l' ->
  0 <= i < Z.of_nat (length l) /\ l' = <[Z.to_nat i := v]> l.
Proof.
  unfold set1.
  destruct (Z.leb_spec 0 i), (Z.ltb_spec i (Z.of_nat (length l)));
    simpl; try done.
  intros [= <-]. done.
Qed.

(** What the turns of a loop keep, given the index of the turn. *)
Lemma for_loop_keeps_at {S} (P : S -> Prop) (body : Z -> S -> M S) :
  forall (n : nat) (i : Z) (s s' : S),
    (forall j t t', i <= j < i + Z.of_nat n -> body j t = inr t' -> P t -> P t') ->
    for_loop n i body s = inr s' -> P s -> P s'.
Proof.
  induction n as [|n IH]; intros i s s' Hbody Hrun Hs.
  - simpl in Hrun. injection Hrun as <-. done.
  - simpl in Hrun. destruct (body i s) as [e|t] eqn:Ht; [done|].
    simpl in Hrun. apply (IH (i + 1) t s'); [|done|].
    + intros j u u' Hj. apply Hbody. lia.
    + apply (Hbody i s t); [lia|done|done].
Qed.

Lemma crossing_between (yi yj pixelY : Z) :
  crossing yi yj pixelY = true -> Z.min yi yj <= pixelY <= Z.max yi yj.
Proof.
  unfold crossing. rewrite !orb_true_iff, !andb_true_iff.
  rewrite !Z.leb_le, !Z.ltb_lt, !Z.gtb_ltb, !Z.geb_leb, !Z.ltb_lt, !Z.leb_le,
    !Z.eqb_eq. lia.
Qed.

(** The sort keeps what holds of the first [nodes] entries. *)
Lemma sort_nodes_entries (P : Z -> Prop) :
  forall (fuel : nat) (nodes i : Z) (l l' : list Z),
    sort_nodes fuel nodes i l = inr l' ->
    (forall (k : nat) v, Z.of_nat k < nodes -> l !! k = Some v -> P v) ->
    forall (k : nat) v, Z.of_nat k < nodes -> l' !! k = Some v -> P v.
Proof.
  induction fuel as [|fuel IH]; intros nodes i l l' Hrun Hl.
  - simpl in Hrun. destruct (i <? nodes - 1); [done|].
    injection Hrun as <-. done.
  - simpl in Hrun. destruct (Z.ltb_spec i (nodes - 1)) as [Hlt|Hge].
    2:{ injection Hrun as <-. done. }
    destruct (get1 l i) as [e|a] eqn:Ha; [done|].
    destruct (get1 l (i + 1)) as [e|b] eqn:Hb; [done|].
    simpl in Hrun. apply get1_inv in Ha as [Hi Ha], Hb as [_ Hb].
    destruct (a >? b).
    2:{ by apply (IH _ _ _ _ Hrun). }
    destruct (set1 l i b) as [e|l1] eqn:H1; [done|]. simpl in Hrun.
    destruct (set1 l1 (i + 1) a) as [e|l2] eqn:H2; [done|]. simpl in Hrun.
    apply set1_inv in H1 as [Hi1 ->], H2 as [Hi2 ->].
    apply (IH _ _ _ _ Hrun).
    intros k v Hk Hv.
    destruct (decide (k = Z.to_nat (i + 1))) as [->|Hne1].
    { rewrite list_lookup_insert_eq in Hv by lia.
      injection Hv as <-. apply (Hl (Z.to_nat i)); [lia|done]. }
    rewrite list_lookup_insert_ne in Hv by done.
    destruct (decide (k = Z.to_nat i)) as [->|Hne2].
    { rewrite list_lookup_insert_eq in Hv by lia.
      injection Hv as <-. apply (Hl (Z.to_nat (i + 1))); [lia|done]. }
    rewrite list_lookup_insert_ne in Hv by done.
    by apply (Hl k).
Qed.

Lemma setitem_one_within (xlo xhi ylo yhi : Z) (m m' : ndarray) (i j : Z) :
  ylo <= i <= yhi -> xlo <= j <= xhi ->
  setitem m i j 1 = inr m' ->
  set_within xlo xhi ylo yhi m -> set_within xlo xhi ylo yhi m'.
Proof.
  intros Hi Hj. unfold setitem. destruct (in_shape m i j); [|done].
  intros [= <-] Hm r c. simpl.
  destruct (Z.eqb_spec r i) as [->|?], (Z.eqb_spec c j) as [->|?]; simpl;
    try apply Hm. done.
Qed.

(** The fill loop sets pixels of row [pixelY] only, between intercepts. *)
Lemma fill_row_within (xlo xhi ylo yhi : Z) :
  forall (fuel : nat) (width nodes pixelY i : Z) (nodeX nodeX' : list Z)
         (mask mask' : ndarray),
    fill_row fuel width nodes pixelY i nodeX mask = inr (nodeX', mask') ->
    0 <= i -> (0 < nodes -> ylo <= pixelY <= yhi) ->
    entries_within xlo xhi i nodes nodeX ->
    set_within xlo xhi ylo yhi mask -> set_within xlo xhi ylo yhi mask'.
Proof.
  induction fuel as [|fuel IH];
    intros width nodes pixelY i nodeX nodeX' mask mask' Hrun Hi Hrow Hent Hmask.
  - simpl in Hrun. destruct (i <? nodes - 1); [done|].
    injection Hrun as _ <-. done.
  - simpl in Hrun. destruct (Z.ltb_spec i (nodes - 1)) as [Hlt|Hge].
    2:{ injection Hrun as _ <-. done. }
    destruct (get1 nodeX i) as [e|a] eqn:Ha; [done|]. simpl in Hrun.
    destruct (a >=? width).
    { injection Hrun as _ <-. done. }
    destruct (get1 nodeX (i + 1)) as [e|b] eqn:Hb; [done|]. simpl in Hrun.
    apply get1_inv in Ha as [_ Ha], Hb as [_ Hb].
    assert (xlo <= a <= xhi) as Ha_in by (apply (Hent (Z.to_nat i)); [lia|done]).
    assert (xlo <= b <= xhi) as Hb_in
      by (apply (Hent (Z.to_nat (i + 1))); [lia|done]).
    destruct ((a =? b) && (i <? nodes - 2)).
    { apply (IH _ _ _ _ _ _ _ _ Hrun); [lia|done| |done].
      intros k v Hk. apply Hent. lia. }
    assert (forall n2, (forall k : nat, i + 2 <= Z.of_nat k -> n2 !! k = nodeX !! k) ->
                       entries_within xlo xhi (i + 2) nodes n2) as Hnext.
    { intros n2 Hsame k v Hk Hv. rewrite Hsame in Hv by lia.
      apply (Hent k v); [lia|done]. }
    destruct (Z.geb_spec b 0) as [Hb0|Hb0].
    2:{ simpl in Hrun. apply (IH _ _ _ _ _ _ _ _ Hrun); [lia|done| |done].
        by apply Hnext. }
    destruct (if a <? 0 then set1 nodeX i 0 else ret nodeX) as [e|n1] eqn:H1;
      [done|]. simpl in Hrun.
    destruct (if b >=? width then set1 n1 (i + 1) (width - 1) else ret n1)
      as [e|n2] eqn:H2; [done|]. simpl in Hrun.
    destruct (get1 n2 i) as [e|lo] eqn:Hlo; [done|]. simpl in Hrun.
    destruct (get1 n2 (i + 1)) as [e|hi] eqn:Hhi; [done|]. simpl in Hrun.
    destruct (for_range lo (hi + 1) (fun j mask => setitem mask pixelY j 1) mask)
      as [e|mask1] eqn:Hspan; [done|]. simpl in Hrun.
    apply get1_inv in Hlo as [_ Hlo], Hhi as [_ Hhi].
    assert (n1 !! Z.to_nat i = Some (if a <? 0 then 0 else a) /\
            n1 !! Z.to_nat (i + 1) = Some b /\
            (forall k : nat, i + 2 <= Z.of_nat k -> n1 !! k = nodeX !! k) /\
            length n1 = length nodeX) as (H1i & H1j & H1k & H1len).
    { destruct (a <? 0).
      - apply set1_inv in H1 as [Hin ->].
        rewrite list_lookup_insert_eq by lia.
        rewrite list_lookup_insert_ne by lia. rewrite length_insert.
        repeat split; try done.
        intros k Hk. by rewrite list_lookup_insert_ne by lia.
      - injection H1 as <-. done. }
    assert (n2 !! Z.to_nat i = Some (if a <? 0 then 0 else a) /\
            n2 !! Z.to_nat (i + 1) = Some (if b >=? width then width - 1 else b) /\
            (forall k : nat, i + 2 <= Z.of_nat k -> n2 !! k = nodeX !! k))
      as (H2i & H2j & H2k).
    { destruct (b >=? width).
      - apply set1_inv in H2 as [Hin ->].
        rewrite list_lookup_insert_ne by lia.
        rewrite list_lookup_insert_eq by lia.
        repeat split; try done.
        intros k Hk. rewrite list_lookup_insert_ne by lia. by apply H1k.
      - injection H2 as <-. done. }
    assert (xlo <= lo) as Hlo_in.
    { rewrite H2i in Hlo. injection Hlo as <-.
      destruct (Z.ltb_spec a 0); lia. }
    assert (hi <= xhi) as Hhi_in.
    { rewrite H2j in Hhi. injection Hhi as <-.
      destruct (Z.geb_spec b width); lia. }
    apply (IH _ _ _ _ _ _ _ _ Hrun); [lia|done|by apply Hnext|].
    revert Hspan Hmask. unfold for_range. apply for_loop_keeps_at.
    intros j t t' Hj. apply setitem_one_within; lia.
Qed.

Section PolygonBox.

Variable intercept : Z -> Z -> Z -> Z -> Z -> Z.
Hypothesis intercept_ok : intercept_between intercept.

(** The intercepts of a row lie between the least and the greatest x of
    the vertices, and there are none in a row above or below them all. *)
Lemma build_nodes_within (xlo xhi ylo yhi : Z) (polygon : list (Z * Z))
    (count pixelY nodes : Z) (nodeX nodeX' : list Z) :
  (forall p, p ∈ polygon -> xlo <= fst p <= xhi /\ ylo <= snd p <= yhi) ->
  build_nodes intercept polygon count pixelY nodeX = inr (nodes, nodeX') ->
  entries_within xlo xhi 0 nodes nodeX' /\ (0 < nodes -> ylo <= pixelY <= yhi).
Proof.
  intros Hbox. unfold build_nodes.
  set (body := fun (i : Z) (st : Z * Z * list Z) =>
     let '(nodes, j, nodeX) := st in
     let* pi := get1 polygon i in
     let* pj := get1 polygon j in
     if crossing (snd pi) (snd pj) pixelY then
       let r := snd pj - snd pi in
       let k := fst pj - fst pi in
       let* nodeX :=
         set1 nodeX nodes
           (if negb (r =? 0) then intercept (fst pi) (snd pi) r k pixelY
            else fst pi) in
       ret (nodes + 1, i, nodeX)
     else ret (nodes, i, nodeX)).
  destruct (for_range 0 count body (0, count - 1, nodeX))
    as [e|[[n j] nX]] eqn:Hrun; [done|].
  simpl. intros [= -> ->].
  assert (let '(n, _, nX) := (nodes, j, nodeX') in
          0 <= n /\ entries_within xlo xhi 0 n nX /\
          (0 < n -> ylo <= pixelY <= yhi)) as Hend; [|by destruct Hend as (_ & ? & ?)].
  unfold for_range in Hrun.
  refine (for_loop_keeps
            (fun st : Z * Z * list Z =>
               let '(n, _, nX) := st in
               0 <= n /\ entries_within xlo xhi 0 n nX /\
               (0 < n -> ylo <= pixelY <= yhi)) body _ _ _ _ _ Hrun _).
  2:{ split; [lia|]. split; [|lia]. intros k v Hk. lia. }
  intros i [[n j0] nX] [[n' j'] nX'] Hbody (Hn & Hent & Hrow). unfold body in Hbody.
  destruct (get1 polygon i) as [e|pi] eqn:Hpi; [done|].
  destruct (get1 polygon j0) as [e|pj] eqn:Hpj; [done|]. simpl in Hbody.
  apply get1_inv in Hpi as [_ Hpi], Hpj as [_ Hpj].
  apply list_elem_of_lookup_2 in Hpi, Hpj.
  destruct (Hbox pi Hpi) as [Hix Hiy]. destruct (Hbox pj Hpj) as [Hjx Hjy].
  destruct (crossing (snd pi) (snd pj) pixelY) eqn:Hcross.
  2:{ injection Hbody as <- _ <-. done. }
  apply crossing_between in Hcross.
  destruct (set1 nX n _) as [e|nX1] eqn:Hset; [done|]. simpl in Hbody.
  injection Hbody as <- _ <-.
  apply set1_inv in Hset as [Hin ->].
  split; [lia|]. split; [|lia].
  intros k v Hk Hv.
  destruct (decide (k = Z.to_nat n)) as [->|Hne].
  - rewrite list_lookup_insert_eq in Hv by lia. injection Hv as <-.
    destruct (Z.eqb_spec (snd pj - snd pi) 0) as [Hr0|Hr]; simpl; [lia|].
    pose proof (intercept_ok (fst pi) (snd pi) (snd pj - snd pi)
                  (fst pj - fst pi) pixelY Hr) as Hint.
    replace (snd pi + (snd pj - snd pi)) with (snd pj) in Hint by lia.
    replace (fst pi + (fst pj - fst pi)) with (fst pj) in Hint by lia.
    specialize (Hint Hcross). lia.
  - rewrite list_lookup_insert_ne in Hv by done.
    apply (Hent k v); [lia|done].
Qed.

Lemma scan_row_within (xlo xhi ylo yhi : Z) (polygon : list (Z * Z))
    (width pixelY : Z) (nodeX nodeX' : list Z) (mask mask' : ndarray) :
  (forall p, p ∈ polygon -> xlo <= fst p <= xhi /\ ylo <= snd p <= yhi) ->
  scan_row intercept polygon (Z.of_nat (length polygon)) width pixelY (nodeX, mask)
    = inr (nodeX', mask') ->
  set_within xlo xhi ylo yhi mask -> set_within xlo xhi ylo yhi mask'.
Proof.
  intros Hbox Hrun Hmask. unfold scan_row in Hrun.
  destruct (build_nodes intercept polygon (Z.of_nat (length polygon)) pixelY nodeX)
    as [e|[nodes nX1]] eqn:Hbuild; [done|]. simpl in Hrun.
  destruct (sort_nodes (sort_steps (Z.of_nat (length polygon))) nodes 0 nX1)
    as [e|nX2] eqn:Hsort; [done|]. simpl in Hrun.
  destruct (build_nodes_within xlo xhi ylo yhi polygon _ pixelY nodes nodeX nX1
              Hbox Hbuild) as [Hent Hrow].
  apply (fill_row_within xlo xhi ylo yhi _ _ _ _ _ _ _ _ _ Hrun);
    [lia|done| |done].
  intros k v Hk. apply (sort_nodes_entries (fun v => xlo <= v <= xhi) _ _ _ _ _ Hsort).
  - intros k' v' Hk'. apply Hent. lia.
  - lia.
Qed.

Lemma rasterize_polygon_within (data : list (Z * Z)) (b0 b1 b2 b3 : Z)
    (xlo xhi ylo yhi : Z) (mask : ndarray) :
  (forall p, p ∈ data -> xlo <= fst p <= xhi /\ ylo <= snd p <= yhi) ->
  rasterize_polygon intercept data (b0, b1, b2, b3) = inr mask ->
  forall row col,
    item mask row col <> 0 ->
    xlo <= b0 + col <= xhi /\ ylo <= b1 + row <= yhi.
Proof.
  intros Hbox Hrun row col Hset. unfold rasterize_polygon in Hrun.
  destruct (np_zeros (b3 - b1 + 1) (b2 - b0 + 1)) as [e|zeros] eqn:Hz; [done|].
  simpl in Hrun.
  set (polygon := map (fun p => (fst p - b0, snd p - b1)) data) in *.
  assert (length polygon = length data) as Hpoly by apply length_map.
  rewrite <- Hpoly in Hrun.
  destruct (for_range 0 (b3 - b1 + 1)
              (scan_row intercept polygon (Z.of_nat (length polygon)) (b2 - b0 + 1))
              (replicate (Z.to_nat (Z.of_nat (length polygon))) 0, zeros))
    as [e|[nodeX m]] eqn:Hloop; [done|].
  simpl in Hrun. injection Hrun as ->.
  assert (forall p, p ∈ polygon ->
            xlo - b0 <= fst p <= xhi - b0 /\ ylo - b1 <= snd p <= yhi - b1)
    as Hbox'.
  { intros p Hp. unfold polygon in Hp. apply list_elem_of_fmap in Hp as (q & -> & Hq).
    destruct (Hbox q Hq). simpl. lia. }
  assert (set_within (xlo - b0) (xhi - b0) (ylo - b1) (yhi - b1) mask) as Hin.
  { revert Hloop. unfold for_range. intros Hloop.
    apply (for_loop_keeps
             (fun st : list Z * ndarray =>
                set_within (xlo - b0) (xhi - b0) (ylo - b1) (yhi - b1) (snd st))
             (scan_row intercept polygon (Z.of_nat (length polygon)) (b2 - b0 + 1)))
      in Hloop; [done| |].
    - intros pixelY [nX mk] [nX' mk'] Hrow Hmk. simpl in Hmk. simpl.
      by apply (scan_row_within _ _ _ _ polygon _ pixelY nX nX' mk mk' Hbox' Hrow).
    - simpl. unfold np_zeros in Hz. destruct ((0 <=? _) && (0 <=? _)); [|done].
      injection Hz as <-. intros r c Hne. simpl in Hne. done. }
  destruct (Hin row col Hset). lia.
Qed.

(** X17: when the stored intercepts lie between the ends of their edges,
    every set pixel of the raster of a polygon on a well-formed window
    lies in any box that holds the vertices. *)
Theorem rasterize_polygon_in_box (data : list (Z * Z)) (b0 b1 b2 b3 : Z)
    (xlo xhi ylo yhi : Z) :
  (forall p, p ∈ data -> xlo <= fst p <= xhi /\ ylo <= snd p <= yhi) ->
  b0 <= b2 -> b1 <= b3 ->
  exists mask,
    rasterize_polygon intercept data (b0, b1, b2, b3) = inr mask /\
    forall row col,
      in_shape mask row col = true -> item mask row col <> 0 ->
      xlo <= b0 + col <= xhi /\ ylo <= b1 + row <= yhi.
Proof.
  intros Hbox Hw Hh.
  destruct (rasterize_polygon_returns intercept data b0 b1 b2 b3)
    as (mask & Hrun & _); [lia|lia|].
  exists mask. split; [done|]. intros row col _.
  by apply (rasterize_polygon_within data b0 b1 b2 b3 xlo xhi ylo yhi mask).
Qed.

End PolygonBox.

Lemma rasterize_polygon_in_box_witness :
  intercept_between intercept_exact /\
  (forall p, p ∈ [(1, 0); (5, 2); (2, 6)] ->
             1 <= fst p <= 5 /\ 0 <= snd p <= 6) /\
  0 <= 7 /\ 0 <= 7 /\
  exists mask,
    rasterize_polygon intercept_exact [(1, 0); (5, 2); (2, 6)] (0, 0, 7, 7)
      = inr mask /\
    forall row col,
      in_shape mask row col = true -> item mask row col <> 0 ->
      1 <= 0 + col <= 5 /\ 0 <= 0 + row <= 6.
Proof.
  assert (forall p, p ∈ [(1, 0); (5, 2); (2, 6)] ->
                    1 <= fst p <= 5 /\ 0 <= snd p <= 6) as Hbox.
  { intros p Hp.
    repeat (apply elem_of_cons in Hp as [->|Hp]; [simpl; lia|]).
    by apply elem_of_nil in Hp. }
  split; [exact intercept_exact_between|]. split; [exact Hbox|].
  split; [lia|]. split; [lia|].
  apply (rasterize_polygon_in_box intercept_exact intercept_exact_between
           [(1, 0); (5, 2); (2, 6)] 0 0 7 7 1 5 0 6 Hbox); lia.
Defined.

(** ** A row that holds a vertex gets a pixel *)

(** What every write of a 1 keeps, the fill loop keeps. *)
Lemma fill_row_keeps (P : ndarray -> Prop) :
  (forall m m' i j, setitem m i j 1 = inr m' -> P m -> P m') ->
  forall (fuel : nat) (width nodes pixelY i : Z) (nodeX nodeX' : list Z)
         (mask mask' : ndarray),
    fill_row fuel width nodes pixelY i nodeX mask = inr (nodeX', mask') ->
    P mask -> P mask'.
Proof.
  intros HP. induction fuel as [|fuel IH];
    intros width nodes pixelY i nodeX nodeX' mask mask' Hrun Hmask.
  - simpl in Hrun. destruct (i <? nodes - 1); [done|].
    injection Hrun as _ <-. done.
  - simpl in Hrun. destruct (i <? nodes - 1).
    2:{ injection Hrun as _ <-. done. }
    destruct (get1 nodeX i) as [e|a]; [done|]. simpl in Hrun.
    destruct (a >=? width).
    { injection Hrun as _ <-. done. }
    destruct (get1 nodeX (i + 1)) as [e|b]; [done|]. simpl in Hrun.
    destruct ((a =? b) && (i <? nodes - 2)).
    { by apply (IH _ _ _ _ _ _ _ _ Hrun). }
    destruct (b >=? 0).
    2:{ simpl in Hrun. by apply (IH _ _ _ _ _ _ _ _ Hrun). }
    destruct (if a <? 0 then set1 nodeX i 0 else ret nodeX) as [e|n1];
      [done|]. simpl in Hrun.
    destruct (if b >=? width then set1 n1 (i + 1) (width - 1) else ret n1)
      as [e|n2]; [done|]. simpl in Hrun.
    destruct (get1 n2 i) as [e|lo]; [done|]. simpl in Hrun.
    destruct (get1 n2 (i + 1)) as [e|hi]; [done|]. simpl in Hrun.
    destruct (for_range lo (hi + 1) (fun j mask => setitem mask pixelY j 1) mask)
      as [e|mask1] eqn:Hspan; [done|]. simpl in Hrun.
    apply (IH _ _ _ _ _ _ _ _ Hrun).
    revert Hspan Hmask. unfold for_range. apply for_loop_keeps.
    intros j s s'. apply HP.
Qed.

Lemma setitem_one_keeps_set (r0 c0 : Z) (m m' : ndarray) (i j : Z) :
  setitem m i j 1 = inr m' -> item m r0 c0 = 1 -> item m' r0 c0 = 1.
Proof.
  unfold setitem. destruct (in_shape m i j); [|done].
  intros [= <-] Hm. simpl. by destruct ((r0 =? i) && (c0 =? j)).
Qed.

(** A span that is not empty sets its first pixel. *)
Lemma fill_span_sets (pixelY lo hi : Z) (mask mask' : ndarray) :
  lo <= hi ->
  for_range lo (hi + 1) (fun j mask => setitem mask pixelY j 1) mask = inr mask' ->
  item mask' pixelY lo = 1.
Proof.
  intros Hle. unfold for_range.
  replace (Z.to_nat (hi + 1 - lo)) with (Datatypes.S (Z.to_nat (hi - lo))) by lia.
  simpl. destruct (setitem mask pixelY lo 1) as [e|m0] eqn:Hset; [done|].
  simpl. intros Hrest.
  apply (for_loop_keeps (fun m => item m pixelY lo = 1)
           (fun j mask => setitem mask pixelY j 1)
           (fun j s s' => setitem_one_keeps_set pixelY lo s s' pixelY j)
           _ _ _ _ Hrest).
  unfold setitem in Hset. destruct (in_shape mask pixelY lo); [|done].
  injection Hset as <-. simpl. by rewrite !Z.eqb_refl.
Qed.

(** With two intercepts or more, in ascending order and inside the row,
    the fill loop sets a pixel of the row. *)
Lemma fill_row_sets :
  forall (fuel : nat) (width nodes pixelY i : Z) (nodeX nodeX' : list Z)
         (mask mask' : ndarray),
    fill_row fuel width nodes pixelY i nodeX mask = inr (nodeX', mask') ->
    0 <= i <= nodes - 2 ->
    entries_within 0 (width - 1) i nodes nodeX ->
    sorted_upto (nodes - 1) nodeX ->
    exists col, 0 <= col < width /\ item mask' pixelY col = 1.
Proof.
  induction fuel as [|fuel IH];
    intros width nodes pixelY i nodeX nodeX' mask mask' Hrun Hi Hent Hsorted.
  - simpl in Hrun. destruct (Z.ltb_spec i (nodes - 1)); [done|lia].
  - simpl in Hrun. destruct (Z.ltb_spec i (nodes - 1)) as [Hlt|Hge]; [|lia].
    destruct (get1 nodeX i) as [e|a] eqn:Ha; [done|]. simpl in Hrun.
    apply get1_inv in Ha as [_ Ha].
    assert (0 <= a <= width - 1) as Ha_in
      by (apply (Hent (Z.to_nat i)); [lia|done]).
    destruct (Z.geb_spec a width) as [?|_]; [lia|].
    destruct (get1 nodeX (i + 1)) as [e|b] eqn:Hb; [done|]. simpl in Hrun.
    pose proof Hb as Hb'. apply get1_inv in Hb' as [_ Hb'].
    assert (0 <= b <= width - 1) as Hb_in
      by (apply (Hent (Z.to_nat (i + 1))); [lia|done]).
    assert (a <= b) as Hab.
    { apply (Hsorted (Z.to_nat i) a b); [lia|done|].
      by replace (Datatypes.S (Z.to_nat i)) with (Z.to_nat (i + 1)) by lia. }
    destruct (Z.eqb_spec a b) as [Heq|Hne]; simpl in Hrun.
    + destruct (Z.ltb_spec i (nodes - 2)) as [Hskip|Hlast].
      { apply (IH _ _ _ _ _ _ _ _ Hrun); [lia| |done].
        intros k v Hk. apply Hent. lia. }
      revert Hrun.
      destruct (Z.geb_spec b 0) as [_|?]; [|lia].
      destruct (Z.ltb_spec a 0) as [?|_]; [lia|].
      destruct (Z.geb_spec b width) as [?|_]; [lia|].
      cbn [bind ret].
      assert (get1 nodeX i = inr a) as ->.
      { destruct (get1_in nodeX i) as (a' & -> & Ha'); [|congruence].
        apply lookup_lt_Some in Ha.
        apply get1_inv in Hb as [? _]. lia. }
      rewrite Hb. cbn [bind ret].
      destruct (for_range a (b + 1) (fun j mask => setitem mask pixelY j 1) mask)
        as [e|mask1] eqn:Hspan; [done|]. cbn [bind ret]. intros Hrun.
      exists a. split; [lia|].
      apply (fill_row_keeps (fun m => item m pixelY a = 1)
               (fun m m' i' j' => setitem_one_keeps_set pixelY a m m' i' j')
               _ _ _ _ _ _ _ _ _ Hrun).
      by apply (fill_span_sets pixelY a b mask mask1).
    + revert Hrun.
      destruct (Z.geb_spec b 0) as [_|?]; [|lia].
      destruct (Z.ltb_spec a 0) as [?|_]; [lia|].
      destruct (Z.geb_spec b width) as [?|_]; [lia|].
      cbn [bind ret].
      assert (get1 nodeX i = inr a) as ->.
      { destruct (get1_in nodeX i) as (a' & -> & Ha'); [|congruence].
        apply lookup_lt_Some in Ha.
        apply get1_inv in Hb as [? _]. lia. }
      rewrite Hb. cbn [bind ret].
      destruct (for_range a (b + 1) (fun j mask => setitem mask pixelY j 1) mask)
        as [e|mask1] eqn:Hspan; [done|]. cbn [bind ret]. intros Hrun.
      exists a. split; [lia|].
      apply (fill_row_keeps (fun m => item m pixelY a = 1)
               (fun m m' i' j' => setitem_one_keeps_set pixelY a m m' i' j')
               _ _ _ _ _ _ _ _ _ Hrun).
      by apply (fill_span_sets pixelY a b mask mask1).
Qed.

Lemma crossing_vertex_i (yj pixelY : Z) : crossing pixelY yj pixelY = true.
Proof. unfold crossing. cases_lia. Qed.

Lemma crossing_vertex_j (yi pixelY : Z) : crossing yi pixelY pixelY = true.
Proof. unfold crossing. cases_lia. Qed.

Lemma list_rows_bounded (polygon : list (Z * Z)) :
  exists ylo yhi, forall p, p ∈ polygon -> ylo <= snd p <= yhi.
Proof.
  induction polygon as [|q polygon (ylo & yhi & IH)].
  - exists 0, 0. intros p Hp. by apply elem_of_nil in Hp.
  - exists (Z.min ylo (snd q)), (Z.max yhi (snd q)). intros p Hp.
    apply elem_of_cons in Hp as [->|Hp]; [lia|]. specialize (IH p Hp). lia.
Qed.

Section PolygonRows.

Variable intercept : Z -> Z -> Z -> Z -> Z -> Z.
Hypothesis intercept_ok : intercept_between intercept.

(** A vertex on the scanline gives two intercepts, one for each of the
    two edges that end in it. *)
Lemma build_nodes_two (polygon : list (Z * Z)) (pixelY : Z) (nodeX : list Z)
    (iv : nat) (v : Z * Z) :
  length nodeX = length polygon -> (2 <= length polygon)%nat ->
  polygon !! iv = Some v -> snd v = pixelY ->
  exists nodes nodeX',
    build_nodes intercept polygon (Z.of_nat (length polygon)) pixelY nodeX
      = inr (nodes, nodeX') /\ 2 <= nodes.
Proof.
  intros Hlen Hcount Hv Hy. unfold build_nodes.
  set (count := Z.of_nat (length polygon)).
  set (i1 := Z.of_nat iv).
  set (i2 := if i1 + 1 <? count then i1 + 1 else 0).
  assert (0 <= i1 < count) as Hi1.
  { apply lookup_lt_Some in Hv. unfold i1, count. lia. }
  assert (0 <= i2 < count /\ i2 <> i1) as [Hi2 Hne].
  { unfold i2. destruct (Z.ltb_spec (i1 + 1) count); unfold count in *; lia. }
  set (body := fun (i : Z) (st : Z * Z * list Z) =>
     let '(nodes, j, nodeX) := st in
     let* pi := get1 polygon i in
     let* pj := get1 polygon j in
     if crossing (snd pi) (snd pj) pixelY then
       let r := snd pj - snd pi in
       let k := fst pj - fst pi in
       let* nodeX :=
         set1 nodeX nodes
           (if negb (r =? 0) then intercept (fst pi) (snd pi) r k pixelY
            else fst pi) in
       ret (nodes + 1, i, nodeX)
     else ret (nodes, i, nodeX)).
  destruct (for_range_inv
              (fun i (st : Z * Z * list Z) =>
                 let '(nodes, j, nodeX) := st in
                 (if i2 <? i then 1 else 0) + (if i1 <? i then 1 else 0) <= nodes /\
                 0 <= nodes <= i /\ length nodeX = length polygon /\
                 j = (if i =? 0 then count - 1 else i - 1))
              body 0 count (0, count - 1, nodeX))
    as ([[nodes j] nodeX'] & Hrun & Hnodes & _).
  - split; [cases_lia|]. split; [lia|]. done.
  - intros i [[nodes j] nX] Hi (Hlow & Hnodes & HnX & Hj). unfold body.
    destruct (get1_in polygon i) as (pi & -> & Hpi); [lia|].
    destruct (get1_in polygon j) as (pj & -> & Hpj).
    { subst j. destruct (Z.eqb_spec i 0); lia. }
    cbn [bind ret].
    assert (i = i1 -> crossing (snd pi) (snd pj) pixelY = true) as Hc1.
    { intros ->. unfold i1 in Hpi. rewrite Nat2Z.id in Hpi.
      assert (pi = v) as -> by congruence. rewrite Hy.
      apply crossing_vertex_i. }
    assert (i = i2 -> crossing (snd pi) (snd pj) pixelY = true) as Hc2.
    { intros Hii. assert (j = i1) as ->.
      { subst j. unfold i2 in Hii.
        destruct (Z.ltb_spec (i1 + 1) count), (Z.eqb_spec i 0); lia. }
      unfold i1 in Hpj. rewrite Nat2Z.id in Hpj.
      assert (pj = v) as -> by congruence. rewrite Hy.
      apply crossing_vertex_j. }
    destruct (crossing (snd pi) (snd pj) pixelY) eqn:Hcross.
    + rewrite set1_in by lia. cbn [bind ret]. eexists. split; [reflexivity|].
      cbn beta iota. rewrite length_insert.
      split; [|split; [lia|split; [done|]]].
      * revert Hlow. cases_lia.
      * destruct (Z.eqb_spec (i + 1) 0); lia.
    + eexists. split; [reflexivity|]. cbn beta iota.
      assert (i <> i1) by (intros Heq; by specialize (Hc1 Heq)).
      assert (i <> i2) by (intros Heq; by specialize (Hc2 Heq)).
      split; [|split; [lia|split; [done|]]].
      * revert Hlow. cases_lia.
      * destruct (Z.eqb_spec (i + 1) 0); lia.
  - rewrite Hrun. cbn [bind ret]. exists nodes, nodeX'. split; [done|].
    revert Hnodes. rewrite Z.max_r by lia. cases_lia.
Qed.

Lemma scan_row_keeps (P : ndarray -> Prop) (polygon : list (Z * Z))
    (count width pixelY : Z) (nodeX nodeX' : list Z) (mask mask' : ndarray) :
  (forall m m' i j, setitem m i j 1 = inr m' -> P m -> P m') ->
  scan_row intercept polygon count width pixelY (nodeX, mask) = inr (nodeX', mask') ->
  P mask -> P mask'.
Proof.
  intros HP Hrun. unfold scan_row in Hrun.
  destruct (build_nodes intercept polygon count pixelY nodeX)
    as [e|[nodes nX1]]; [done|]. simpl in Hrun.
  destruct (sort_nodes (sort_steps count) nodes 0 nX1) as [e|nX2]; [done|].
  simpl in Hrun. by apply (fill_row_keeps P HP _ _ _ _ _ _ _ _ _ Hrun).
Qed.

(** The scan of a row that holds a vertex sets a pixel of the row. *)
Lemma scan_row_sets (polygon : list (Z * Z)) (width pixelY : Z)
    (nodeX : list Z) (mask : ndarray) (iv : nat) (v : Z * Z) :
  (forall p, p ∈ polygon -> 0 <= fst p <= width - 1) ->
  (2 <= length polygon)%nat -> polygon !! iv = Some v -> snd v = pixelY ->
  length nodeX = length polygon ->
  0 <= pixelY < shape0 mask -> shape1 mask = width ->
  exists nodeX' mask',
    scan_row intercept polygon (Z.of_nat (length polygon)) width pixelY (nodeX, mask)
      = inr (nodeX', mask') /\
    length nodeX' = length polygon /\
    shape0 mask' = shape0 mask /\ shape1 mask' = shape1 mask /\
    exists col, 0 <= col < width /\ item mask' pixelY col = 1.
Proof.
  intros Hcols Hcount Hv Hy Hlen Hrow Hw.
  destruct (scan_row_safe intercept polygon width pixelY nodeX mask Hlen Hrow Hw)
    as (nodeX' & mask' & Hrun & Hlen' & H0 & H1).
  exists nodeX', mask'. repeat (split; [done|]).
  unfold scan_row in Hrun.
  destruct (build_nodes_two polygon pixelY nodeX iv v Hlen Hcount Hv Hy)
    as (nodes & nX1 & Hbuild & Hn2).
  destruct (build_nodes_safe intercept polygon pixelY nodeX Hlen)
    as (nodes' & nX1' & Hbuild' & Hnodes & Hlen1).
  assert (nodes' = nodes) as -> by congruence.
  assert (nX1' = nX1) as -> by congruence.
  rewrite Hbuild in Hrun. cbn [bind ret] in Hrun.
  destruct (list_rows_bounded polygon) as (ylo & yhi & Hrows).
  destruct (build_nodes_within intercept intercept_ok 0 (width - 1) ylo yhi polygon
              (Z.of_nat (length polygon)) pixelY nodes nodeX nX1)
    as [Hent _]; [|done|].
  { intros p Hp. split; [by apply Hcols|by apply Hrows]. }
  destruct (sort_nodes_sorted (sort_steps (Z.of_nat (length polygon))) nodes 0 nX1)
    as (nX2 & Hsort & _ & Hsorted & _).
  - lia.
  - lia.
  - intros k a b Hk. lia.
  - pose proof (inversions_bound nX1). unfold sort_steps. nia.
  - rewrite Hsort in Hrun. cbn [bind ret] in Hrun.
    apply (fill_row_sets _ _ _ _ _ _ _ _ _ Hrun); [lia| |done].
    intros k a Hk.
    apply (sort_nodes_entries (fun a => 0 <= a <= width - 1) _ _ _ _ _ Hsort).
    + intros k' a' Hk'. apply Hent. lia.
    + lia.
Qed.

(** On a window whose columns hold all the vertices, the raster of a
    polygon with two vertices or more has a set pixel in the row of
    every vertex that the window holds. *)
Lemma rasterize_polygon_vertex_row (data : list (Z * Z)) (b0 b1 b2 b3 : Z)
    (iv : nat) (v : Z * Z) :
  b0 <= b2 -> b1 <= b3 -> (2 <= length data)%nat ->
  (forall p, p ∈ data -> b0 <= fst p <= b2) ->
  data !! iv = Some v -> b1 <= snd v <= b3 ->
  exists mask,
    rasterize_polygon intercept data (b0, b1, b2, b3) = inr mask /\
    shape0 mask = b3 - b1 + 1 /\ shape1 mask = b2 - b0 + 1 /\
    exists col, 0 <= col < b2 - b0 + 1 /\ item mask (snd v - b1) col = 1.
Proof.
  intros Hw Hh Hcount Hcols Hv Hvy. unfold rasterize_polygon.
  rewrite np_zeros_ok by lia. cbn [bind ret].
  set (polygon := map (fun p => (fst p - b0, snd p - b1)) data).
  assert (length polygon = length data) as Hpoly by apply length_map.
  rewrite <- Hpoly.
  assert (polygon !! iv = Some (fst v - b0, snd v - b1)) as Hv'.
  { unfold polygon. change (map ?f data) with (f <$> data).
    by rewrite list_lookup_fmap, Hv. }
  assert (forall p, p ∈ polygon -> 0 <= fst p <= b2 - b0 + 1 - 1) as Hcols'.
  { intros p Hp. unfold polygon in Hp.
    apply list_elem_of_fmap in Hp as (q & -> & Hq).
    specialize (Hcols q Hq). simpl. lia. }
  set (Y := snd v - b1).
  destruct (for_range_inv
              (fun i (st : list Z * ndarray) =>
                 length (fst st) = length polygon /\
                 shape0 (snd st) = b3 - b1 + 1 /\ shape1 (snd st) = b2 - b0 + 1 /\
                 (Y < i -> exists col, 0 <= col < b2 - b0 + 1 /\
                                       item (snd st) Y col = 1))
              (scan_row intercept polygon (Z.of_nat (length polygon)) (b2 - b0 + 1))
              0 (b3 - b1 + 1)
              (replicate (Z.to_nat (Z.of_nat (length polygon))) 0,
               mk_ndarray (b3 - b1 + 1) (b2 - b0 + 1) (fun _ _ => 0)))
    as ([nodeX mask] & -> & _ & H0 & H1 & Hset).
  - cbn [fst snd]. rewrite length_replicate. simpl.
    split; [lia|]. split; [done|]. split; [done|]. unfold Y. lia.
  - intros pixelY [nodeX mask] Hrow (Hlen & H0 & H1 & Hset). cbn [fst snd] in *.
    destruct (decide (pixelY = Y)) as [->|Hne].
    + destruct (scan_row_sets polygon (b2 - b0 + 1) Y nodeX mask iv
                  (fst v - b0, snd v - b1))
        as (nodeX' & mask' & -> & Hlen' & H0' & H1' & Hcol);
        [done|lia|done|done|done|lia|done|].
      exists (nodeX', mask'). cbn [fst snd].
      split; [done|]. split; [done|]. split; [lia|]. split; [lia|]. done.
    + destruct (scan_row_safe intercept polygon (b2 - b0 + 1) pixelY nodeX mask)
        as (nodeX' & mask' & Hrun & Hlen' & H0' & H1'); [done|lia|done|].
      exists (nodeX', mask'). cbn [fst snd].
      split; [done|]. split; [done|]. split; [lia|]. split; [lia|].
      intros HY. destruct Hset as (col & Hcol & Hitem); [lia|].
      exists col. split; [done|].
      by apply (scan_row_keeps (fun m => item m Y col = 1) polygon _ _ pixelY
                  nodeX nodeX' mask mask'
                  (fun m m' i j => setitem_one_keeps_set Y col m m' i j) Hrun).
  - cbn [bind ret]. exists mask. cbn [fst snd] in *.
    split; [done|]. split; [done|]. split; [done|].
    apply Hset. unfold Y. lia.
Qed.

(** X18: when the stored intercepts lie between the ends of their edges
    and the columns of a well-formed window hold all the vertices, the
    raster of a polygon with two vertices or more has a set pixel in the
    row of every vertex that the window holds. *)
Theorem rasterize_polygon_vertex_rows (data : list (Z * Z)) (b0 b1 b2 b3 : Z)
    (iv : nat) (v : Z * Z) :
  b0 <= b2 -> b1 <= b3 -> (2 <= length data)%nat ->
  (forall p, p ∈ data -> b0 <= fst p <= b2) ->
  data !! iv = Some v -> b1 <= snd v <= b3 ->
  exists mask,
    rasterize_polygon intercept data (b0, b1, b2, b3) = inr mask /\
    exists col, 0 <= col < b2 - b0 + 1 /\ item mask (snd v - b1) col = 1.
Proof.
  intros Hw Hh Hcount Hcols Hv Hvy.
  destruct (rasterize_polygon_vertex_row data b0 b1 b2 b3 iv v)
    as (mask & Hrun & _ & _ & Hcol); try done.
  by exists mask.
Qed.

(** A polygon with a vertex overlaps itself with 1 when the frame, if
    there is one, holds its vertices. *)
Lemma self_overlap_polygon_held (data : list (Z * Z)) (frame : option (Z * Z)) :
  data <> [] ->
  (forall p, p ∈ data -> fi32_min <= fst p <= fi32_max /\
                         fi32_min <= snd p <= fi32_max) ->
  (forall fw fh, frame = Some (fw, fh) ->
     forall p, p ∈ data -> 0 <= fst p < fw /\ 0 <= snd p < fh) ->
  exists q,
    calculate_overlap intercept (Polygon data) (Polygon data) frame None = inr q /\
    (q == 1)%Q.
Proof.
  intros Hne Hrange Hframe. unfold calculate_overlap.
  destruct (_bounds_polygon data) as [[[l t] r] b] eqn:Hbounds.
  rewrite (calculate_overlap_stages intercept (Polygon data) (Polygon data)
             frame None (l, t, r, b) (l, t, r, b))
    by (simpl; by rewrite Hbounds).
  assert ((forall p, p ∈ data -> l <= fst p <= r /\ t <= snd p <= b) /\
          (exists p, p ∈ data /\ fst p = l) /\ (exists p, p ∈ data /\ snd p = t) /\
          (exists p, p ∈ data /\ fst p = r) /\ (exists p, p ∈ data /\ snd p = b))
    as (Hall & Hl & Ht & Hr & Hb).
  { unfold _bounds_polygon in Hbounds.
    pose proof (bounds_polygon_fold data fi32_max fi32_min fi32_max fi32_min)
      as Hfold.
    destruct (fold_left _ data _) as [[[t' b'] l'] r'].
    injection Hbounds as -> -> -> ->.
    destruct Hfold as (_ & Hall & Ht & Hb & Hl & Hr).
    destruct data as [|q a]; [done|].
    assert (q ∈ q :: a) as Hq by apply list_elem_of_here.
    destruct (Hall q Hq) as [Hqx Hqy]. destruct (Hrange q Hq) as [Hrx Hry].
    split; [exact Hall|]. repeat split.
    - destruct Hl as [->|Hl]; [|done]. exists q. split; [done|lia].
    - destruct Ht as [->|Ht]; [|done]. exists q. split; [done|lia].
    - destruct Hr as [->|Hr]; [|done]. exists q. split; [done|lia].
    - destruct Hb as [->|Hb]; [|done]. exists q. split; [done|lia]. }
  assert (union_bounds (l, t, r, b) (l, t, r, b) = (l, t, r, b)) as ->.
  { unfold union_bounds. by rewrite !Z.min_id, !Z.max_id. }
  destruct (degenerate (l, t, r, b)) eqn:Hdeg.
  { exists 1%Q. split; [done|reflexivity]. }
  assert (l < r /\ t < b) as [Hlr Htb].
  { unfold degenerate in Hdeg. apply orb_false_iff in Hdeg as [H1 H2].
    rewrite Z.geb_leb in H1, H2. apply Z.leb_gt in H1, H2. lia. }
  assert (clip_bounds frame (l, t, r, b) = (l, t, r, b)) as Hclip.
  { destruct frame as [[fw fh]|]; [|done]. simpl.
    destruct Hl as (pl & Hpl & Hplx). destruct Ht as (pt & Hpt & Hpty).
    destruct Hr as (pr & Hpr & Hprx). destruct Hb as (pb & Hpb & Hpby).
    pose proof (Hframe fw fh eq_refl pl Hpl).
    pose proof (Hframe fw fh eq_refl pt Hpt).
    pose proof (Hframe fw fh eq_refl pr Hpr).
    pose proof (Hframe fw fh eq_refl pb Hpb).
    f_equal; [f_equal; [f_equal|]|]; lia. }
  cbv zeta. rewrite Hclip, Hdeg.
  assert (2 <= length data)%nat as Hcount.
  { destruct Hl as (pl & Hpl & Hplx). destruct Hr as (pr & Hpr & Hprx).
    destruct data as [|q [|q' rest]]; [done| |simpl; lia].
    apply list_elem_of_singleton in Hpl, Hpr. subst. lia. }
  destruct Ht as (pt & Hpt & Hpty).
  apply list_elem_of_lookup_1 in Hpt as [iv Hiv].
  destruct (rasterize_polygon_vertex_row data l t r b iv pt)
    as (mask & Hrun & H0 & H1 & col & Hcol & Hitem); [lia|lia|done| |done|lia|].
  { intros p Hp. by apply Hall. }
  unfold _region_raster. rewrite Hrun. cbn [bind ret].
  destruct (count_pixels_self_lit mask (snd pt - t) col) as (c & -> & Hc).
  - apply in_shape_true. lia.
  - rewrite Hitem. done.
  - cbn [bind ret]. exists (overlap_value (c, c)). split; [done|].
    by apply overlap_value_full.
Qed.

(** X19: a polygon with a vertex, and coordinates that float32 holds
    exactly, has the overlap 1 with itself when the stored intercepts
    lie between the ends of their edges, without a frame and with a
    frame that holds its vertices. *)
Theorem self_overlap_polygon (data : list (Z * Z)) (frame : option (Z * Z)) :
  data <> [] ->
  (forall p, p ∈ data -> f32_exact (fst p) /\ f32_exact (snd p)) ->
  (forall fw fh, frame = Some (fw, fh) ->
     forall p, p ∈ data -> 0 <= fst p < fw /\ 0 <= snd p < fh) ->
  exists q,
    calculate_overlap intercept (Polygon data) (Polygon data) frame None = inr q /\
    (q == 1)%Q.
Proof.
  intros Hne Hrange Hframe. apply self_overlap_polygon_held; [done| |done].
  intros p Hp. destruct (Hrange p Hp). split; by apply f32_exact_fi32.
Qed.

End PolygonRows.

Lemma rasterize_polygon_vertex_rows_witness :
  intercept_between intercept_exact /\
  0 <= 5 /\ 0 <= 5 /\ (2 <= length [(1, 1); (4, 2); (2, 4)])%nat /\
  (forall p, p ∈ [(1, 1); (4, 2); (2, 4)] -> 0 <= fst p <= 5) /\
  [(1, 1); (4, 2); (2, 4)] !! 1%nat = Some (4, 2) /\ 0 <= snd (4, 2) <= 5 /\
  exists mask,
    rasterize_polygon intercept_exact [(1, 1); (4, 2); (2, 4)] (0, 0, 5, 5)
      = inr mask /\
    exists col, 0 <= col < 5 - 0 + 1 /\ item mask (snd (4, 2) - 0) col = 1.
Proof.
  assert (forall p, p ∈ [(1, 1); (4, 2); (2, 4)] -> 0 <= fst p <= 5) as Hcols.
  { intros p Hp.
    repeat (apply elem_of_cons in Hp as [->|Hp]; [simpl; lia|]).
    by apply elem_of_nil in Hp. }
  split; [exact intercept_exact_between|]. split; [lia|]. split; [lia|].
  split; [simpl; lia|]. split; [exact Hcols|]. split; [reflexivity|].
  split; [simpl; lia|].
  apply (rasterize_polygon_vertex_rows intercept_exact intercept_exact_between
           [(1, 1); (4, 2); (2, 4)] 0 0 5 5 1%nat (4, 2));
    [lia|lia|simpl; lia|exact Hcols|reflexivity|simpl; lia].
Defined.

Lemma self_overlap_polygon_witness :
  intercept_between intercept_exact /\
  [(1, 1); (4, 2); (2, 4)] <> [] /\
  (forall p, p ∈ [(1, 1); (4, 2); (2, 4)] ->
             f32_exact (fst p) /\ f32_exact (snd p)) /\
  (forall fw fh, Some (6, 5) = Some (fw, fh) ->
     forall p, p ∈ [(1, 1); (4, 2); (2, 4)] -> 0 <= fst p < fw /\ 0 <= snd p < fh) /\
  exists q,
    calculate_overlap intercept_exact (Polygon [(1, 1); (4, 2); (2, 4)])
      (Polygon [(1, 1); (4, 2); (2, 4)]) (Some (6, 5)) None = inr q /\
    (q == 1)%Q.
Proof.
  assert (forall p, p ∈ [(1, 1); (4, 2); (2, 4)] ->
            f32_exact (fst p) /\ f32_exact (snd p))
    as Hrange.
  { intros p Hp. unfold f32_exact.
    repeat (apply elem_of_cons in Hp as [->|Hp]; [simpl; lia|]).
    by apply elem_of_nil in Hp. }
  assert (forall fw fh, Some (6, 5) = Some (fw, fh) ->
            forall p, p ∈ [(1, 1); (4, 2); (2, 4)] ->
                      0 <= fst p < fw /\ 0 <= snd p < fh) as Hframe.
  { intros fw fh [= <- <-] p Hp.
    repeat (apply elem_of_cons in Hp as [->|Hp]; [simpl; lia|]).
    by apply elem_of_nil in Hp. }
  split; [exact intercept_exact_between|]. split; [discriminate|].
  split; [exact Hrange|]. split; [exact Hframe|].
  apply (self_overlap_polygon intercept_exact intercept_exact_between
           [(1, 1); (4, 2); (2, 4)] (Some (6, 5)));
    [discriminate|exact Hrange|exact Hframe].
Defined.
